(** * Bark-Proxy: the template and expression engine of [src/index.ts]

    A shallow embedding of the webhook relay's core: the path resolver
    [getValueByPath], the restricted ternary evaluator [evaluateExpression],
    the template renderer [replaceTemplateVars], the parameter mapping of
    [sendToBark], the request it sends to Bark, and the handlers of the rule
    store and of [POST /push], followed by the properties the specification
    states about them and by further properties of the code. The
    repository holds a second,
    basic form of the program, without the evaluator and without the guards
    of the resolver; its resolver, renderer and mapping are embedded in
    [Module Basic].

    JavaScript strings are modelled as [string] (one [ascii] per code unit,
    so the alphabet is the Latin-1 range), regular expressions by a small
    backtracking matcher over the fragment the source uses, exceptions by a
    [result] type, and numbers through the interface [JSNumber]. *)

From Stdlib Require Import List String Ascii ZArith NArith Bool Lia DecimalString.
From stdpp Require Import base gmap strings.
Import ListNotations.

Set Warnings "-register-all".

(** [simpl] unfolds an append whose first argument starts with a constructor. *)
Arguments String.append !s1 s2 : simpl nomatch.

(* ===================================================================== *)
(** * Characters and character classes *)
(* ===================================================================== *)

Definition char_code (c : ascii) : nat := nat_of_ascii c.

Definition in_range (lo hi c : ascii) : bool :=
  (char_code lo <=? char_code c) && (char_code c <=? char_code hi).

(** The double quote, built from its code. *)
Definition dquote : ascii := ascii_of_nat 34.

(** [\d] *)
Definition is_digit (c : ascii) : bool := in_range "0" "9" c.

(** [\w], that is [[A-Za-z0-9_]] *)
Definition is_word (c : ascii) : bool :=
  in_range "a" "z" c || in_range "A" "Z" c || in_range "0" "9" c
  || Ascii.eqb c "_".

(** [[a-zA-Z0-9_.]], which is also [[\w.]] *)
Definition is_path_char (c : ascii) : bool :=
  in_range "a" "z" c || in_range "A" "Z" c || in_range "0" "9" c
  || Ascii.eqb c "_" || Ascii.eqb c ".".

(** Line terminators within the alphabet: LF and CR. *)
Definition is_line_terminator (c : ascii) : bool :=
  (char_code c =? 10) || (char_code c =? 13).

(** [\s], and the characters [trim] strips: TAB, LF, VT, FF, CR, SP, NBSP. *)
Definition is_space (c : ascii) : bool :=
  ((9 <=? char_code c) && (char_code c <=? 13))
  || (char_code c =? 32) || (char_code c =? 160).

(** [.] without the [s] flag *)
Definition is_dot (c : ascii) : bool := negb (is_line_terminator c).

(** The class of the two quote characters, single and double. *)
Definition is_quote (c : ascii) : bool := Ascii.eqb c "'" || Ascii.eqb c dquote.

Definition is_char (a c : ascii) : bool := Ascii.eqb c a.

(** Every character but [a]. *)
Definition is_not (a c : ascii) : bool := negb (is_char a c).

(** The text of a literal in a condition: within a line, without a
    question mark and without an equals sign. *)
Definition literal_text (c : ascii) : bool :=
  is_dot c && is_not "?" c && is_not "=" c.

(** The text of a true branch: within a line, without a colon. *)
Definition branch_text (c : ascii) : bool := is_dot c && is_not ":" c.

(** The text of a URL after its scheme: within a line, without a quote. *)
Definition url_text (c : ascii) : bool := is_dot c && negb (is_quote c).

(* ===================================================================== *)
(** * String primitives of the host *)
(* ===================================================================== *)

(** [s.includes(sub)] *)
Fixpoint includes (s sub : string) : bool :=
  String.prefix sub s
  || match s with
     | EmptyString => false
     | String _ s' => includes s' sub
     end.

(** [s.split(sep)] for a non-empty separator: scan from the left; at an
    occurrence of [sep] close the current piece and step over the separator
    ([skip] counts the characters of it still to step over). *)
Fixpoint split_go (sep s : string) (skip : nat) (cur : string) : list string :=
  match s with
  | EmptyString => [cur]
  | String c s' =>
      match skip with
      | S n => split_go sep s' n cur
      | O =>
          if String.prefix sep s
          then cur :: split_go sep s' (String.length sep - 1) EmptyString
          else split_go sep s' 0 (cur +:+ String c EmptyString)
      end
  end.

Definition split (s sep : string) : list string := split_go sep s 0 EmptyString.

Fixpoint trim_start (s : string) : string :=
  match s with
  | EmptyString => EmptyString
  | String c s' => if is_space c then trim_start s' else s
  end.

Fixpoint trim_end (s : string) : string :=
  match s with
  | EmptyString => EmptyString
  | String c s' =>
      match trim_end s' with
      | EmptyString => if is_space c then EmptyString else String c EmptyString
      | t => String c t
      end
  end.

(** [s.trim()] *)
Definition trim (s : string) : string := trim_end (trim_start s).

(** [s.substring(a, b)]: both ends are clamped to [0 .. length] and swapped
    when out of order. *)
Definition substring (a b : Z) (s : string) : string :=
  let len := Z.of_nat (String.length s) in
  let a' := Z.min (Z.max a 0) len in
  let b' := Z.min (Z.max b 0) len in
  let from := Z.min a' b' in
  let to := Z.max a' b' in
  String.substring (Z.to_nat from) (Z.to_nat (to - from)) s.

Fixpoint take (n : nat) (s : string) : string :=
  match n, s with
  | S n', String c s' => String c (take n' s')
  | _, _ => EmptyString
  end.

Fixpoint drop (n : nat) (s : string) : string :=
  match n, s with
  | S n', String _ s' => drop n' s'
  | _, _ => s
  end.

(** [s.indexOf(sub)]: the index of the first occurrence of [sub] in [s]. *)
Fixpoint first_index (sub s : string) : option nat :=
  if String.prefix sub s then Some 0
  else match s with
       | EmptyString => None
       | String _ s' => option_map S (first_index sub s')
       end.

(* ===================================================================== *)
(** * Regular expressions: a backtracking matcher *)
(* ===================================================================== *)

(** The fragment of the regular-expression language the source uses. A
    quantifier ranges over a character class ([\s*], [.+?], [[^}]+], [\d+]);
    [Opt] is the greedy [?] on a sub-pattern; [Grp] is a capturing group. *)
Inductive regex : Type :=
| Bol                                             (* ^ *)
| Eol                                             (* $ *)
| Cls (p : ascii -> bool)                         (* one character of a class *)
| Cat (r1 r2 : regex)                             (* r1 r2 *)
| Rep (lazy : bool) (min : nat) (p : ascii -> bool) (* p* p+ p*? p+? *)
| Opt (r : regex)                                 (* (?:r)? *)
| Grp (i : nat) (r : regex).                      (* ( r ) as group i *)

Definition captures : Type := list (nat * string).

Definition cap_get (i : nat) (caps : captures) : option string :=
  match find (fun p => fst p =? i) caps with
  | Some p => Some (snd p)
  | None => None
  end.

Section Matcher.
Context {R : Type}.

(** A quantified class, with the continuation [k] of the rest of the pattern:
    the greedy form takes one more character first and falls back to [k];
    the lazy form tries [k] first. *)
Fixpoint rep (lazy : bool) (p : ascii -> bool) (min : nat) (pos : nat) (s : string)
    (k : nat -> string -> option R) {struct s} : option R :=
  match min with
  | S n =>
      match s with
      | String c s' => if p c then rep lazy p n (S pos) s' k else None
      | EmptyString => None
      end
  | O =>
      if lazy then
        match k pos s with
        | Some x => Some x
        | None =>
            match s with
            | String c s' => if p c then rep lazy p 0 (S pos) s' k else None
            | EmptyString => None
            end
        end
      else
        match s with
        | String c s' =>
            if p c then
              match rep lazy p 0 (S pos) s' k with
              | Some x => Some x
              | None => k pos s
              end
            else k pos s
        | EmptyString => k pos s
        end
  end.

(** [rmatch r pos s caps k]: match [r] at index [pos], where [s] is the input
    from [pos] on; [k] continues with the rest of the pattern and decides
    whether the whole match succeeds (backtracking on [None]). *)
Fixpoint rmatch (r : regex) (pos : nat) (s : string) (caps : captures)
    (k : nat -> string -> captures -> option R) : option R :=
  match r with
  | Bol => if pos =? 0 then k pos s caps else None
  | Eol => match s with EmptyString => k pos s caps | String _ _ => None end
  | Cls p =>
      match s with
      | String c s' => if p c then k (S pos) s' caps else None
      | EmptyString => None
      end
  | Cat r1 r2 => rmatch r1 pos s caps (fun pos' s' caps' => rmatch r2 pos' s' caps' k)
  | Rep lazy min p => rep lazy p min pos s (fun pos' s' => k pos' s' caps)
  | Opt r' =>
      match rmatch r' pos s caps k with
      | Some x => Some x
      | None => k pos s caps
      end
  | Grp i r' =>
      rmatch r' pos s caps
        (fun pos' s' caps' => k pos' s' ((i, take (pos' - pos) s) :: caps'))
  end.

End Matcher.

(** A match of [r] starting exactly at [pos]: the end index and the groups. *)
Definition match_at (r : regex) (pos : nat) (s : string) : option (nat * captures) :=
  rmatch r pos s [] (fun pos' _ caps => Some (pos', caps)).

(** The leftmost match at or after [pos]. *)
Fixpoint search (r : regex) (pos : nat) (s : string) : option (nat * captures) :=
  match match_at r pos s with
  | Some m => Some m
  | None =>
      match s with
      | EmptyString => None
      | String _ s' => search r (S pos) s'
      end
  end.

(** [re.exec(s)] of a regular expression without the [g] flag. *)
Definition regex_exec (r : regex) (s : string) : option (nat * captures) := search r 0 s.

(** [re.test(s)] *)
Definition regex_test (r : regex) (s : string) : bool :=
  match regex_exec r s with Some _ => true | None => false end.

Fixpoint seq (rs : list regex) : regex :=
  match rs with
  | [] => Rep false 0 (fun _ => false)
  | [r] => r
  | r :: rs' => Cat r (seq rs')
  end.

Definition star (p : ascii -> bool) : regex := Rep false 0 p.
Definition plus (p : ascii -> bool) : regex := Rep false 1 p.
Definition lazy_plus (p : ascii -> bool) : regex := Rep true 1 p.

(** [/^[a-zA-Z0-9_.]+$/] *)
Definition re_valid_path : regex := seq [Bol; plus is_path_char; Eol].

(** [/^[\w.]+$/] *)
Definition re_simple_path : regex :=
  seq [Bol; plus (fun c => is_word c || is_char "." c); Eol].

(** The quoted-literal pattern: [^], a quote (single or double), a group of
    any number of [.], a quote, [$]. *)
Definition re_quoted : regex :=
  seq [Bol; Cls is_quote; Grp 1 (star is_dot); Cls is_quote; Eol].

(** [/^-?\d+(\.\d+)?$/] *)
Definition re_number : regex :=
  seq [Bol; Opt (Cls (is_char "-")); plus is_digit;
       Opt (Grp 1 (Cat (Cls (is_char ".")) (plus is_digit))); Eol].

(** [/^\s*(.+?)\s*\?\s*(.+?)\s*:\s*(.+?)\s*$/] *)
Definition re_ternary : regex :=
  seq [Bol; star is_space; Grp 1 (lazy_plus is_dot); star is_space;
       Cls (is_char "?"); star is_space; Grp 2 (lazy_plus is_dot); star is_space;
       Cls (is_char ":"); star is_space; Grp 3 (lazy_plus is_dot); star is_space;
       Eol].

(** The shape shared by the two placeholder patterns: a dollar, an opening
    brace, a group of one or more characters of a class, a closing brace. *)
Definition placeholder_of (p : ascii -> bool) : regex :=
  seq [Cls (is_char "$"); Cls (is_char "{"); Grp 1 (plus p); Cls (is_char "}")].

Definition not_dollar (c : ascii) : bool := negb (is_char "$" c).
Definition not_brace (c : ascii) : bool := negb (is_char "}" c).
Definition word_or_dot (c : ascii) : bool := is_word c || is_char "." c.

(** [/\${([^}]+)}/] (used with the [g] flag by [replace]) *)
Definition re_placeholder : regex := placeholder_of not_brace.

(** A match moved [d] indices to the right. *)
Definition shift_match (d : nat) (m : nat * captures) : nat * captures :=
  (d + fst m, snd m).

(* ===================================================================== *)
(** * Values *)
(* ===================================================================== *)

(** The Number type of the host (IEEE 754 binary64 in an engine), through
    the operations the program applies to it. The program does no
    arithmetic: it parses, prints, compares and tests numbers. *)
Class JSNumber : Type := {
  number : Type;
  num_of_nat : nat -> number;            (* an array length; 0 and 1 for booleans *)
  num_nan : number;                      (* NaN *)
  num_eqb : number -> number -> bool;    (* Number::equal *)
  num_ltb : number -> number -> bool;    (* Number::lessThan yields true *)
  num_is_finite : number -> bool;
  number_to_string : number -> string;   (* Number::toString, radix 10 *)
  string_to_number : string -> number    (* StringToNumber *)
}.

(** What a thrown exception carries. *)
Inductive exn : Type :=
| TypeError (msg : string)
| SyntaxError (msg : string)
| HTTPException (status : nat) (msg : string).

(** A computation that returns or throws. *)
Inductive result (A : Type) : Type :=
| Ok (a : A)
| Throw (e : exn).
Arguments Ok {A} a.
Arguments Throw {A} e.

Definition bind {A B : Type} (r : result A) (k : A -> result B) : result B :=
  match r with
  | Ok a => k a
  | Throw e => Throw e
  end.

Notation "'let*' x ':=' e 'in' k" := (bind e (fun x => k))
  (at level 10, x name, e at level 200, k at level 200).

Section Engine.
Context {num : JSNumber}.

(** A payload: the JSON values, and [undefined] for an absent result. An
    object lists its own properties in order; a parsed JSON object has each
    key once, and a lookup takes the first entry of a key. *)
Inductive value : Type :=
| VUndefined
| VNull
| VBool (b : bool)
| VNumber (n : number)
| VString (s : string)
| VArray (items : list value)
| VObject (props : list (string * value)).

(** Induction on values, through the items of arrays and the properties of
    objects. *)
Section ValueInduction.
Variable P : value -> Prop.
Hypothesis Hundefined : P VUndefined.
Hypothesis Hnull : P VNull.
Hypothesis Hbool : forall b, P (VBool b).
Hypothesis Hnumber : forall n, P (VNumber n).
Hypothesis Hstring : forall s, P (VString s).
Hypothesis Harray : forall items, List.Forall P items -> P (VArray items).
Hypothesis Hobject :
  forall props, List.Forall (fun kv => P (snd kv)) props -> P (VObject props).

Fixpoint value_induction (v : value) : P v :=
  match v with
  | VUndefined => Hundefined
  | VNull => Hnull
  | VBool b => Hbool b
  | VNumber n => Hnumber n
  | VString s => Hstring s
  | VArray items =>
      Harray items
        ((fix all (l : list value) : List.Forall P l :=
            match l with
            | [] => @List.Forall_nil _ P
            | x :: l' => @List.Forall_cons _ P x l' (value_induction x) (all l')
            end) items)
  | VObject props =>
      Hobject props
        ((fix all (l : list (string * value)) : List.Forall (fun kv => P (snd kv)) l :=
            match l with
            | [] => @List.Forall_nil _ _
            | kv :: l' =>
                @List.Forall_cons _ _ kv l' (value_induction (snd kv)) (all l')
            end) props)
  end.

End ValueInduction.

Definition num_is_nan (n : number) : bool := negb (num_eqb n n).

(** ToBoolean *)
Definition truthy (v : value) : bool :=
  match v with
  | VUndefined | VNull => false
  | VBool b => b
  | VNumber n => negb (num_eqb n (num_of_nat 0) || num_is_nan n)
  | VString s => negb (String.eqb s EmptyString)
  | VArray _ | VObject _ => true
  end.

(** [typeof v === 'object'] *)
Definition typeof_object (v : value) : bool :=
  match v with
  | VNull | VArray _ | VObject _ => true
  | _ => false
  end.

Definition is_object (v : value) : bool :=
  match v with
  | VArray _ | VObject _ => true
  | _ => false
  end.

Fixpoint digits_value (acc : nat) (s : string) : nat :=
  match s with
  | EmptyString => acc
  | String c s' => digits_value (10 * acc + (char_code c - 48)) s'
  end.

Fixpoint all_chars (p : ascii -> bool) (s : string) : bool :=
  match s with
  | EmptyString => true
  | String c s' => p c && all_chars p s'
  end.

(** A property key that is an array index: the canonical decimal numeral of
    a natural number ([0], or digits with no leading zero). *)
Definition array_index (key : string) : option nat :=
  match key with
  | EmptyString => None
  | String c rest =>
      if all_chars is_digit key
         && (negb (Ascii.eqb c "0") || String.eqb rest EmptyString)
      then Some (digits_value 0 key)
      else None
  end.

Fixpoint assoc (key : string) (props : list (string * value)) : option value :=
  match props with
  | [] => None
  | (k, v) :: rest => if String.eqb k key then Some v else assoc key rest
  end.

(** The own property [key] of [o], if it has one: the entries of an object;
    the elements and the [length] of an array; the characters and the
    [length] of a string. *)
Definition own_property (o : value) (key : string) : option value :=
  match o with
  | VObject props => assoc key props
  | VArray items =>
      if String.eqb key "length" then Some (VNumber (num_of_nat (List.length items)))
      else match array_index key with
           | Some i => nth_error items i
           | None => None
           end
  | VString s =>
      if String.eqb key "length" then Some (VNumber (num_of_nat (String.length s)))
      else match array_index key with
           | Some i =>
               match String.get i s with
               | Some c => Some (VString (String c EmptyString))
               | None => None
               end
           | None => None
           end
  | _ => None
  end.

(** [Object.prototype.hasOwnProperty.call(o, key)] *)
Definition hasOwnProperty (o : value) (key : string) : bool :=
  match own_property o key with Some _ => true | None => false end.

(** [o[key]] where [o] has [key] as an own property: a data property of a
    parsed payload, so the read returns its value. *)
Definition get_own (o : value) (key : string) : value :=
  match own_property o key with Some v => v | None => VUndefined end.

Fixpoint join (sep : string) (parts : list string) : string :=
  match parts with
  | [] => EmptyString
  | [p] => p
  | p :: rest => p +:+ sep +:+ join sep rest
  end.

Fixpoint sequence {A : Type} (rs : list (result A)) : result (list A) :=
  match rs with
  | [] => Ok []
  | r :: rest => let* a := r in let* l := sequence rest in Ok (a :: l)
  end.

Definition no_primitive : exn := TypeError "Cannot convert object to primitive value".

(** ToString. An object is converted through ToPrimitive: a payload object
    inherits [Object.prototype.toString] unless it has an own property
    [toString], which, being data, is not callable; [valueOf] then yields
    no primitive either and the conversion throws a TypeError. An array
    goes through [Array.prototype.join]. *)
Fixpoint to_string (v : value) : result string :=
  match v with
  | VUndefined => Ok "undefined"
  | VNull => Ok "null"
  | VBool true => Ok "true"
  | VBool false => Ok "false"
  | VNumber n => Ok (number_to_string n)
  | VString s => Ok s
  | VArray items =>
      let* parts := sequence (map (fun x => match x with
                                       | VUndefined | VNull => Ok EmptyString
                                       | _ => to_string x
                                       end) items) in
      Ok (join "," parts)
  | VObject props =>
      match assoc "toString" props with
      | Some _ => Throw no_primitive
      | None => Ok "[object Object]"
      end
  end.

(** A payload that can be printed: no object in it has an own property
    [toString]. *)
Fixpoint printable (v : value) : bool :=
  match v with
  | VArray items => forallb printable items
  | VObject props =>
      match assoc "toString" props with
      | Some _ => false
      | None => forallb (fun kv => printable (snd kv)) props
      end
  | _ => true
  end.

(** ToPrimitive, with either hint: an object or array becomes the string
    above, or the conversion throws. *)
Definition to_primitive (v : value) : result value :=
  match v with
  | VArray _ | VObject _ => let* s := to_string v in Ok (VString s)
  | _ => Ok v
  end.

(** ToNumber of a primitive. *)
Definition prim_to_number (v : value) : number :=
  match v with
  | VUndefined => num_nan
  | VNull => num_of_nat 0
  | VBool true => num_of_nat 1
  | VBool false => num_of_nat 0
  | VNumber n => n
  | VString s => string_to_number s
  | VArray _ | VObject _ => num_nan
  end.

(** An operand of a condition: its value, and the keys of the path that
    reached it in the payload when it was resolved from one. The payload is
    a tree, so two objects are the same object exactly when they were reached
    by the same keys. *)
Record operand : Type := { origin : option (list string); val : value }.

Definition same_reference (a b : operand) : bool :=
  match origin a, origin b with
  | Some ka, Some kb => bool_decide (ka = kb)
  | _, _ => false
  end.

(** IsStrictlyEqual, [a === b] *)
Definition strict_equal (a b : operand) : bool :=
  match val a, val b with
  | VUndefined, VUndefined => true
  | VNull, VNull => true
  | VBool x, VBool y => Bool.eqb x y
  | VNumber x, VNumber y => num_eqb x y
  | VString x, VString y => String.eqb x y
  | (VArray _ | VObject _), (VArray _ | VObject _) => same_reference a b
  | _, _ => false
  end.

(** IsLooselyEqual on primitives. *)
Definition loose_equal_prim (x y : value) : bool :=
  match x, y with
  | (VUndefined | VNull), (VUndefined | VNull) => true
  | (VUndefined | VNull), _ => false
  | _, (VUndefined | VNull) => false
  | VBool a, VBool b => Bool.eqb a b
  | VString a, VString b => String.eqb a b
  | _, _ => num_eqb (prim_to_number x) (prim_to_number y)
  end.

(** IsLooselyEqual, [a == b] *)
Definition loose_equal (a b : operand) : result bool :=
  match is_object (val a), is_object (val b) with
  | true, true => Ok (same_reference a b)
  | true, false =>
      match val b with
      | VUndefined | VNull => Ok false
      | _ => let* p := to_primitive (val a) in Ok (loose_equal_prim p (val b))
      end
  | false, true =>
      match val a with
      | VUndefined | VNull => Ok false
      | _ => let* p := to_primitive (val b) in Ok (loose_equal_prim (val a) p)
      end
  | false, false => Ok (loose_equal_prim (val a) (val b))
  end.

(** Code-unit order on strings: [x] is less than [y]. *)
Fixpoint string_ltb (x y : string) : bool :=
  match x, y with
  | _, EmptyString => false
  | EmptyString, String _ _ => true
  | String a x', String b y' =>
      if char_code a <? char_code b then true
      else if char_code b <? char_code a then false
      else string_ltb x' y'
  end.

(** IsLessThan: [Some true], [Some false], or [None] for undefined (a NaN
    operand). The left operand of the source expression is converted first. *)
Definition less_than_prim (px py : value) : option bool :=
  match px, py with
  | VString x, VString y => Some (string_ltb x y)
  | _, _ =>
      let nx := prim_to_number px in
      let ny := prim_to_number py in
      if num_is_nan nx || num_is_nan ny then None else Some (num_ltb nx ny)
  end.

Definition is_true (r : option bool) : bool :=
  match r with Some true => true | _ => false end.

Definition is_false (r : option bool) : bool :=
  match r with Some false => true | _ => false end.

(* ===================================================================== *)
(** * The path resolver: [getValueByPath] of [src/index.ts] *)
(* ===================================================================== *)

(** The keys the reducer refuses: [!key], [__proto__], [constructor],
    [prototype]. *)
Definition refused_key (key : string) : bool :=
  String.eqb key EmptyString || String.eqb key "__proto__"
  || String.eqb key "constructor" || String.eqb key "prototype".

(** The reducer of [keys.reduce((o, key) => ..., obj)]. *)
Definition path_step (o : value) (key : string) : value :=
  if refused_key key then VUndefined
  else if truthy o && typeof_object o && hasOwnProperty o key
       then get_own o key
       else VUndefined.

(** [path] is a string, so [typeof path !== 'string'] is false and [!path]
    holds of the empty string only. *)
Definition getValueByPath (obj : value) (path : string) : value :=
  if negb (truthy obj) || negb (typeof_object obj) || String.eqb path EmptyString
  then VUndefined
  else if negb (regex_test re_valid_path path) then VUndefined
  else fold_left path_step (split path ".") obj.

(** A value reached from [o] by reading own properties only, one per key. *)
Inductive own_path : value -> list string -> value -> Prop :=
| own_path_here (o : value) : own_path o [] o
| own_path_next (o x v : value) (key : string) (keys : list string) :
    is_object o = true ->
    own_property o key = Some x ->
    own_path x keys v ->
    own_path o (key :: keys) v.

(** A key the resolver can be asked for: not empty, of word characters,
    and none of the refused keys. *)
Definition plain_key (key : string) : Prop :=
  key <> EmptyString /\ all_chars is_word key = true /\ refused_key key = false.

(* ===================================================================== *)
(** * The expression evaluator: [evaluateExpression] *)
(* ===================================================================== *)

Definition op_fun : Type := operand -> operand -> result value.

Definition literal (v : value) : operand := {| origin := None; val := v |}.

(** A relational operator: both operands are made primitive, the left one
    first; [swapped] compares [b] with [a]; [read] turns the three-valued
    outcome of IsLessThan into the operator's boolean. *)
Definition relational (swapped : bool) (read : option bool -> bool) : op_fun :=
  fun a b =>
    let* pa := to_primitive (val a) in
    let* pb := to_primitive (val b) in
    Ok (VBool (read (if swapped then less_than_prim pb pa else less_than_prim pa pb))).

(** The [operators] table, in the order [Object.entries] lists it: the
    insertion order of the object literal. *)
Definition operators : list (string * op_fun) :=
  [ ("===", fun a b => Ok (VBool (strict_equal a b)));
    ("!==", fun a b => Ok (VBool (negb (strict_equal a b))));
    ("==", fun a b => let* r := loose_equal a b in Ok (VBool r));
    ("!=", fun a b => let* r := loose_equal a b in Ok (VBool (negb r)));
    (">", relational true is_true);
    ("<", relational false is_true);
    (">=", relational false is_false);
    ("<=", relational true is_false);
    ("&&", fun a b => Ok (if truthy (val a) then val b else val a));
    ("||", fun a b => Ok (if truthy (val a) then val a else val b)) ].

(** The operator tokens, in the order the loop tries them. *)
Definition operator_tokens : list string := map fst operators.

(** The table without its entries [>=] and [<=]. *)
Definition operators_reached : list (string * op_fun) :=
  List.filter (fun p => negb (String.eqb (fst p) ">=" || String.eqb (fst p) "<="))
    operators.

(** [part.substring(1, part.length - 1)] *)
Definition unquote (part : string) : string :=
  substring 1 (Z.of_nat (String.length part) - 1) part.

(** The callback of [condition.split(op).map(part => ...)]. *)
Definition parse_operand (data : value) (part : string) : operand :=
  let part := trim part in
  if regex_test re_simple_path part
  then {| origin := Some (split part "."); val := getValueByPath data part |}
  else if regex_test re_quoted part then literal (VString (unquote part))
  else if regex_test re_number part then literal (VNumber (string_to_number part))
  else if String.eqb part "true" then literal (VBool true)
  else if String.eqb part "false" then literal (VBool false)
  else literal (VString part).

(** The operands [[left, right]] destructured from the mapped pieces: the
    first two, [undefined] where a piece is missing. *)
Definition operands (data : value) (condition op : string) : operand * operand :=
  let parts := map (parse_operand data) (split condition op) in
  (nth 0 parts (literal VUndefined), nth 1 parts (literal VUndefined)).

(** The loop [for (const [op, func] of Object.entries(operators))]: the
    first operator the condition includes is applied, then [break];
    [conditionResult] stays [false] when none is included. *)
Fixpoint evaluate_condition (ops : list (string * op_fun)) (condition : string)
    (data : value) : result value :=
  match ops with
  | [] => Ok (VBool false)
  | (op, func) :: rest =>
      if includes condition op
      then let (left, right) := operands data condition op in func left right
      else evaluate_condition rest condition data
  end.

(** The operator the loop applies, if any. *)
Fixpoint detect_operator (ops : list (string * op_fun)) (condition : string)
    : option string :=
  match ops with
  | [] => None
  | (op, _) :: rest =>
      if includes condition op then Some op else detect_operator rest condition
  end.

(** The value of a branch: a quoted literal without its quotes, else the
    trimmed text resolved as a path. *)
Definition branch_value (data : value) (expr : string) : value :=
  if regex_test re_quoted expr then VString (unquote expr)
  else getValueByPath data (trim expr).

(** A literal: its text between two quote characters. *)
Definition quoted (q : ascii) (s : string) : string :=
  String q (s +:+ String q EmptyString).

(** A part of a conditional as the pattern cuts it: not empty, without
    white space at its ends, and within a line. *)
Definition trimmed_part (x : string) : Prop :=
  x <> EmptyString /\ trim x = x /\ all_chars is_dot x = true.

(** [expression.match(ternary)]: the three groups of a match. *)
Definition ternary_match (expression : string) : option (string * string * string) :=
  match regex_exec re_ternary expression with
  | Some (_, caps) =>
      match cap_get 1 caps, cap_get 2 caps, cap_get 3 caps with
      | Some condition, Some trueExpr, Some falseExpr =>
          Some (condition, trueExpr, falseExpr)
      | _, _, _ => None
      end
  | None => None
  end.

(** The body of the [try] block. *)
Definition evaluate_body (expression : string) (data : value) : result value :=
  match ternary_match expression with
  | Some (condition, trueExpr, falseExpr) =>
      let* conditionResult := evaluate_condition operators condition data in
      if truthy conditionResult
      then Ok (branch_value data trueExpr)
      else Ok (branch_value data falseExpr)
  | None => Ok (getValueByPath data (trim expression))
  end.

(** [try { ... } catch (error) { console.error(...); return "" }] *)
Definition evaluateExpression (expression : string) (data : value) : value :=
  match evaluate_body expression data with
  | Ok v => v
  | Throw _ => VString EmptyString
  end.

(* ===================================================================== *)
(** * The template renderer: [replaceTemplateVars] *)
(* ===================================================================== *)

(** [s.replace(re, callback)] for a global pattern [re] whose matches are
    never empty: scanning from the left, each match is replaced by the
    callback's string for its first group and the scan resumes after the
    match ([skip] counts the characters of the match still to step over).
    The replacement text is appended to the output and never scanned. *)
Fixpoint replace_go (r : regex) (callback : string -> result string) (pos : nat)
    (s : string) (skip : nat) : result string :=
  match s with
  | EmptyString => Ok EmptyString
  | String c s' =>
      match skip with
      | S n => replace_go r callback (S pos) s' n
      | O =>
          match match_at r pos s with
          | Some (past, caps) =>
              let* out := callback (default EmptyString (cap_get 1 caps)) in
              let* rest := replace_go r callback (S pos) s' (past - pos - 1) in
              Ok (out +:+ rest)
          | None =>
              let* rest := replace_go r callback (S pos) s' 0 in
              Ok (String c rest)
          end
      end
  end.

Definition replace_all (r : regex) (callback : string -> result string) (s : string)
    : result string :=
  replace_go r callback 0 s 0.

(** No match of [r] starts within [pre], the text [rest] following it:
    [pos] is the index at which [pre] starts. *)
Fixpoint no_match_within (r : regex) (pos : nat) (pre rest : string) : bool :=
  match pre with
  | EmptyString => true
  | String c pre' =>
      match match_at r pos (pre +:+ rest) with
      | Some _ => false
      | None => no_match_within r (S pos) pre' rest
      end
  end.

(** The callback of [replaceTemplateVars]: a simple path is resolved and
    printed ([''] when undefined); anything else is evaluated as an
    expression, a falsy outcome printing as ['']. *)
Definition substitute (data : value) (expression : string) : result string :=
  if regex_test re_simple_path expression then
    match getValueByPath data expression with
    | VUndefined => Ok EmptyString
    | v => to_string v
    end
  else
    let v := evaluateExpression expression data in
    if truthy v then to_string v else Ok EmptyString.

Definition replaceTemplateVars (template : string) (data : value) : result string :=
  replace_all re_placeholder (substitute data) template.

(* ===================================================================== *)
(** * The rule mapper: the parameters of [sendToBark] *)
(* ===================================================================== *)

Record Mapping : Type := {
  title : string;
  body : string;
  group : option string;
  icon : option string;
  url : option string;
  sound : option string
}.

Record WebhookRule : Type := {
  id : string;
  name : string;
  mapping : Mapping;
  barkUrl : string
}.

(** [field ? replaceTemplateVars(field, data) : undefined]: an absent field
    and the empty string are both falsy. *)
Definition render_optional (field : option string) (data : value)
    : result (option string) :=
  match field with
  | Some template =>
      if negb (String.eqb template EmptyString)
      then let* s := replaceTemplateVars template data in Ok (Some s)
      else Ok None
  | None => Ok None
  end.

(** The object literal [barkParams], its fields evaluated in order. *)
Definition barkParams_literal (rule : WebhookRule) (data : value)
    : result (list (string * option string)) :=
  let* t := replaceTemplateVars (title (mapping rule)) data in
  let* b := replaceTemplateVars (body (mapping rule)) data in
  let* g := render_optional (group (mapping rule)) data in
  let* i := render_optional (icon (mapping rule)) data in
  let* u := render_optional (url (mapping rule)) data in
  let* s := render_optional (sound (mapping rule)) data in
  Ok [("title", Some t); ("body", Some b); ("group", g); ("icon", i);
      ("url", u); ("sound", s)].

(** [Object.keys(barkParams).forEach(key => barkParams[key] === undefined
    && delete barkParams[key])] *)
Fixpoint delete_undefined (params : list (string * option string))
    : list (string * string) :=
  match params with
  | [] => []
  | (k, Some v) :: rest => (k, v) :: delete_undefined rest
  | (_, None) :: rest => delete_undefined rest
  end.

(** The parameters [sendToBark] sends: the rule mapper's output. *)
Definition barkParams (rule : WebhookRule) (data : value)
    : result (list (string * string)) :=
  let* params := barkParams_literal rule data in
  Ok (delete_undefined params).

(** The optional field [field] of the mapping is defined as a non-empty
    template. *)
Definition defined_template (field : option string) : Prop :=
  exists template, field = Some template /\ template <> EmptyString.

(** The optional field [field] of the mapping is a non-empty template that
    renders to [v] on [data]. *)
Definition renders_to (field : option string) (data : value) (v : string) : Prop :=
  exists template,
    field = Some template /\ template <> EmptyString
    /\ replaceTemplateVars template data = Ok v.

Fixpoint param (key : string) (params : list (string * string)) : option string :=
  match params with
  | [] => None
  | (k, v) :: rest => if String.eqb k key then Some v else param key rest
  end.

(** The key an optional field of the mapping contributes: its own when the
    field is a non-empty template, none otherwise. *)
Definition defined_key (key : string) (field : option string) : list string :=
  match field with
  | Some template => if String.eqb template EmptyString then [] else [key]
  | None => []
  end.

End Engine.

(* ===================================================================== *)
(** * The rule store and the [POST /rules] handler *)
(* ===================================================================== *)

(** The KV namespace [RULES_STORE]: keys to stored texts. *)
Abbreviation kv_store := (gmap string string).

Record response `{JSNumber} : Type := { status : nat; json : value }.

Section Rules.
Context {num : JSNumber}.

Definition hex4 (n : nat) : string :=
  let digit d := match String.get d "0123456789abcdef" with
                 | Some c => c
                 | None => "0"%char
                 end in
  String "0" (String "0" (String (digit (n / 16)) (String (digit (n mod 16)) EmptyString))).

(** QuoteJSONString, without the enclosing quotes. *)
Fixpoint json_escape (s : string) : string :=
  match s with
  | EmptyString => EmptyString
  | String c s' =>
      let n := char_code c in
      (if n =? 34 then String "\" (String dquote EmptyString)
       else if n =? 92 then "\\"
       else if n =? 8 then "\b"
       else if n =? 12 then "\f"
       else if n =? 10 then "\n"
       else if n =? 13 then "\r"
       else if n =? 9 then "\t"
       else if n <? 32 then "\u" +:+ hex4 n
       else String c EmptyString) +:+ json_escape s'
  end.

Definition json_quote (s : string) : string :=
  String dquote (json_escape s) +:+ String dquote EmptyString.

(** SerializeJSONProperty: [None] stands for [undefined], which an object
    leaves out and an array prints as [null]. A payload has no callable
    [toJSON]. *)
Fixpoint json_text (v : value) : option string :=
  match v with
  | VUndefined => None
  | VNull => Some "null"
  | VBool true => Some "true"
  | VBool false => Some "false"
  | VNumber n => Some (if num_is_finite n then number_to_string n else "null")
  | VString s => Some (json_quote s)
  | VArray items =>
      Some ("[" +:+ join "," (map (fun x => default "null" (json_text x)) items) +:+ "]")
  | VObject props =>
      Some ("{" +:+ join ","
              (omap (fun kv => match json_text (snd kv) with
                               | Some t => Some (json_quote (fst kv) +:+ ":" +:+ t)
                               | None => None
                               end) props) +:+ "}")
  end.

(** [JSON.stringify(v)] as the text handed to the store ([undefined] for an
    undefined [v], which [put] receives as that word). *)
Definition JSON_stringify (v : value) : string := default "undefined" (json_text v).

(** [v.key] for a key that no built-in prototype defines ([id], [name],
    [mapping], [barkUrl]): reading a property of [null] or [undefined]
    throws, any other value yields its own property or [undefined]. *)
Definition member (v : value) (key : string) : result value :=
  match v with
  | VUndefined =>
      Throw (TypeError ("Cannot read properties of undefined (reading '" +:+ key +:+ "')"))
  | VNull =>
      Throw (TypeError ("Cannot read properties of null (reading '" +:+ key +:+ "')"))
  | _ => Ok (get_own v key)
  end.

(** [saveRule]: [kv.put(`rule:${rule.id}`, JSON.stringify(rule))]. *)
Definition saveRule (kv : kv_store) (rule : value) : result kv_store :=
  let* rule_id := member rule "id" in
  let* key := to_string rule_id in
  Ok (<["rule:" +:+ key := JSON_stringify rule]> kv).

Definition missing_fields : exn := HTTPException 400 "Missing required fields".

(** The guard [!rule.id || !rule.name || !rule.mapping || !rule.barkUrl]. *)
Definition validate (rule : value) : result unit :=
  let* rule_id := member rule "id" in
  if negb (truthy rule_id) then Throw missing_fields else
  let* rule_name := member rule "name" in
  if negb (truthy rule_name) then Throw missing_fields else
  let* rule_mapping := member rule "mapping" in
  if negb (truthy rule_mapping) then Throw missing_fields else
  let* rule_barkUrl := member rule "barkUrl" in
  if negb (truthy rule_barkUrl) then Throw missing_fields else
  Ok tt.

Definition message_of (e : exn) : string :=
  match e with
  | TypeError m | SyntaxError m | HTTPException _ m => m
  end.

(** [app.post('/rules', ...)]: [request] is the parsed body, [None] when the
    body is not JSON and [c.req.json()] rejects. Returns the store after
    the request and the response. *)
Definition post_rules (kv : kv_store) (request : option value) : kv_store * response :=
  let attempt :=
    let* rule := match request with
                 | Some v => Ok v
                 | None => Throw (SyntaxError "Unexpected token")
                 end in
    let* _ := validate rule in
    let* kv' := saveRule kv rule in
    let* rule_id := member rule "id" in
    Ok (kv', {| status := 200;
                json := VObject [("message", VString "Rule saved successfully");
                                 ("id", rule_id)] |}) in
  match attempt with
  | Ok r => r
  | Throw error =>
      (kv, {| status := 400; json := VObject [("error", VString (message_of error))] |})
  end.

End Rules.

(* ===================================================================== *)
(** * The rule store: reading and deleting rules *)
(* ===================================================================== *)

(** The store is the finite map of its entries, as in [saveRule] above: the
    limits the platform puts on the size of a key and of a value, and the
    delay with which a write becomes visible, are outside the model. *)

Section Store.
Context {num : JSNumber}.

(** [JSON.parse], which [kv.get(key, 'json')] applies to a stored text. The
    handlers are modelled for every parser: what is proved of them holds
    whatever a text parses to. *)
Variable JSON_parse : string -> result value.

(** [getRuleById]: [kv.get(`rule:${id}`, 'json')], [null] for an absent key.
    The identifier is any value at run time (the body's [ruleId] in
    [POST /push]); the template literal converts it to a string. *)
Definition getRuleById (kv : kv_store) (id : value) : result value :=
  let* key := to_string id in
  match kv !! ("rule:" +:+ key) with
  | Some text => JSON_parse text
  | None => Ok VNull
  end.

(** [deleteRule]: [!exists] holds of an absent key and of an empty text. *)
Definition deleteRule (kv : kv_store) (id : string) : kv_store * bool :=
  match kv !! ("rule:" +:+ id) with
  | Some text =>
      if String.eqb text EmptyString then (kv, false)
      else (delete ("rule:" +:+ id) kv, true)
  | None => (kv, false)
  end.

Definition rule_not_found : response :=
  {| status := 404; json := VObject [("error", VString "Rule not found")] |}.

(** [app.get('/rules/:id', ...)]: the handler has no [try], so an error of
    the store's read is thrown to the framework. *)
Definition get_rule (kv : kv_store) (id : string) : result response :=
  let* rule := getRuleById kv (VString id) in
  if negb (truthy rule) then Ok rule_not_found
  else Ok {| status := 200; json := rule |}.

(** [app.delete('/rules/:id', ...)]: the store after the request and the
    response. *)
Definition delete_rule (kv : kv_store) (id : string) : kv_store * response :=
  let (kv', deleted) := deleteRule kv id in
  if negb deleted then (kv', rule_not_found)
  else (kv', {| status := 200;
                json := VObject [("message", VString "Rule deleted successfully")] |}).

End Store.

(* ===================================================================== *)
(** * The request to Bark: [sendToBark] *)
(* ===================================================================== *)

(** The characters the [application/x-www-form-urlencoded] serializer of
    [URLSearchParams] leaves as they are: the ASCII alphanumerics and
    [*], [-], [.], [_]. *)
Definition form_safe (c : ascii) : bool :=
  in_range "a" "z" c || in_range "A" "Z" c || in_range "0" "9" c
  || is_char "*" c || is_char "-" c || is_char "." c || is_char "_" c.

Definition hex_digit (n : nat) : ascii :=
  match String.get n "0123456789ABCDEF" with
  | Some c => c
  | None => "0"%char
  end.

(** [%XX] for a byte. *)
Definition percent_byte (byte : nat) : string :=
  String "%" (String (hex_digit (byte / 16)) (String (hex_digit (byte mod 16)) EmptyString)).

(** The UTF-8 bytes of a character of the alphabet: one byte below 128,
    two from 128 to 255. *)
Definition utf8 (c : ascii) : list nat :=
  let n := char_code c in
  if n <? 128 then [n] else [192 + n / 64; 128 + n mod 64].

Definition form_urlencode_char (c : ascii) : string :=
  if form_safe c then String c EmptyString
  else if is_char " " c then "+"
  else fold_right (fun byte rest => percent_byte byte +:+ rest) EmptyString (utf8 c).

(** The serializer on one name or value. *)
Fixpoint form_urlencode (s : string) : string :=
  match s with
  | EmptyString => EmptyString
  | String c s' => form_urlencode_char c +:+ form_urlencode s'
  end.

(** The characters of an encoded name or value: the safe ones, [+] and
    the characters of [%XX]. *)
Definition form_output (c : ascii) : bool :=
  form_safe c || is_char "+" c || is_char "%" c.

(** One [name=value] item of the query. *)
Definition query_item (p : string * string) : string :=
  form_urlencode (fst p) +:+ "=" +:+ form_urlencode (snd p).

(** [urlParams.toString()] after the [append]s of the parameters. *)
Definition URLSearchParams_toString (params : list (string * string)) : string :=
  join "&" (map query_item params).

(** [barkUrlWithParams]: the query is appended with [&] to a URL that has
    a question mark and with [?] to one that has none. *)
Definition barkUrlWithParams (url : string) (params : list (string * string)) : string :=
  if includes url "?"
  then url +:+ "&" +:+ URLSearchParams_toString params
  else url +:+ "?" +:+ URLSearchParams_toString params.

Section Request.
Context {num : JSNumber}.

(** The URL [sendToBark] fetches for a rule of the declared type. *)
Definition sendToBark_url (rule : WebhookRule) (data : value) : result string :=
  let* params := barkParams rule data in
  Ok (barkUrlWithParams (barkUrl rule) params).

End Request.

(* ===================================================================== *)
(** * The [POST /push] handler *)
(* ===================================================================== *)

(** What [fetch] resolves to, through the fields the handler reads. *)
Record fetch_response : Type := {
  ok : bool;
  response_status : nat;
  statusText : string
}.

Section Push.
Context {num : JSNumber}.
Variable JSON_parse : string -> result value.

(** [template.replace(...)] in [replaceTemplateVars] for the value a stored
    rule has as a template: a string has the method; reading it from
    [undefined] or [null] throws, and on any other parsed value the
    property is [undefined] or data, which cannot be called. *)
Definition replaceTemplateVars_of (template data : value) : result string :=
  match template with
  | VString t => replaceTemplateVars t data
  | VUndefined =>
      Throw (TypeError "Cannot read properties of undefined (reading 'replace')")
  | VNull => Throw (TypeError "Cannot read properties of null (reading 'replace')")
  | _ => Throw (TypeError "template.replace is not a function")
  end.

(** [replaceTemplateVars(rule.mapping.key, data)] *)
Definition render_field (rule data : value) (key : string) : result string :=
  let* rule_mapping := member rule "mapping" in
  let* template := member rule_mapping key in
  replaceTemplateVars_of template data.

(** [rule.mapping.key ? replaceTemplateVars(rule.mapping.key, data) : undefined] *)
Definition render_optional_field (rule data : value) (key : string)
    : result (option string) :=
  let* rule_mapping := member rule "mapping" in
  let* template := member rule_mapping key in
  if truthy template
  then let* s := replaceTemplateVars_of template data in Ok (Some s)
  else Ok None.

(** [rule.barkUrl.includes('?')]: the method of a string, or of an array
    (an element that is the string [?]); other values have no such
    method. *)
Definition barkUrl_includes (url : value) : result bool :=
  match url with
  | VString s => Ok (includes s "?")
  | VArray items =>
      Ok (existsb (fun item => match item with
                               | VString s => String.eqb s "?"
                               | _ => false
                               end) items)
  | VUndefined =>
      Throw (TypeError "Cannot read properties of undefined (reading 'includes')")
  | VNull => Throw (TypeError "Cannot read properties of null (reading 'includes')")
  | _ => Throw (TypeError "rule.barkUrl.includes is not a function")
  end.

(** [sendToBark] up to its [fetch], for the value a stored rule parses to:
    the URL it requests, or the error it throws before. *)
Definition sendToBark (rule data : value) : result string :=
  let* t := render_field rule data "title" in
  let* b := render_field rule data "body" in
  let* g := render_optional_field rule data "group" in
  let* i := render_optional_field rule data "icon" in
  let* u := render_optional_field rule data "url" in
  let* s := render_optional_field rule data "sound" in
  let params :=
    delete_undefined [("title", Some t); ("body", Some b); ("group", g);
                      ("icon", i); ("url", u); ("sound", s)] in
  let* rule_barkUrl := member rule "barkUrl" in
  let* has_query := barkUrl_includes rule_barkUrl in
  let* url := to_string rule_barkUrl in
  Ok (url +:+ (if has_query then "&" else "?") +:+ URLSearchParams_toString params).

Definition error_response (code : nat) (message : string) : response :=
  {| status := code; json := VObject [("error", VString message)] |}.

Definition failure_response (message : string) : response :=
  {| status := 500;
     json := VObject [("success", VBool false); ("message", VString message)] |}.

(** [requestData.ruleId || c.req.query('ruleId')]: the body's [ruleId] when
    it is truthy, else the query's, [undefined] when there is none. *)
Definition rule_id_of (body_id : value) (query : option string) : value :=
  if truthy body_id then body_id
  else match query with
       | Some s => VString s
       | None => VUndefined
       end.

(** [app.post('/push', ...)] up to the request it sends: the response when
    the handler answers without a request, or the URL it fetches. [body] is
    the parsed body ([None] when it is not JSON), [query] the [ruleId] of
    the query string. *)
Definition push_request (kv : kv_store) (body : option value) (query : option string)
    : response + string :=
  let attempt : result (response + string) :=
    let* requestData := match body with
                        | Some v => Ok v
                        | None => Throw (SyntaxError "Unexpected token")
                        end in
    let* body_id := member requestData "ruleId" in
    let ruleId := rule_id_of body_id query in
    if negb (truthy ruleId) then Ok (inl (error_response 400 "Rule ID is required"))
    else
      let* rule := getRuleById JSON_parse kv ruleId in
      if negb (truthy rule)
      then let* id_text := to_string ruleId in
           Ok (inl (error_response 404 ("Rule not found with ID: " +:+ id_text)))
      else
        let* body_payload := member requestData "payload" in
        let payload := if truthy body_payload then body_payload else requestData in
        match sendToBark rule payload with
        | Ok url => Ok (inr url)
        | Throw error => Ok (inl (failure_response (message_of error)))
        end in
  match attempt with
  | Ok r => r
  | Throw error => inl (error_response 400 (message_of error))
  end.

(** The rest of the handler, from the outcome of the [fetch]. *)
Definition push_response (outcome : result fetch_response) : response :=
  match outcome with
  | Ok r =>
      if negb (ok r)
      then failure_response
             ("Failed to send to Bark: "
                +:+ number_to_string (num_of_nat (response_status r))
                +:+ " " +:+ statusText r)
      else {| status := 200;
              json := VObject [("success", VBool true);
                               ("message", VString "Notification sent successfully")] |}
  | Throw error => failure_response (message_of error)
  end.

(** The handler, [fetch] being the network's answer to a URL. *)
Definition push (fetch : string -> result fetch_response) (kv : kv_store)
    (body : option value) (query : option string) : response :=
  match push_request kv body query with
  | inl answer => answer
  | inr url => push_response (fetch url)
  end.

End Push.

Section RuleValue.
Context {num : JSNumber}.

Definition optional_field (key : string) (field : option string)
    : list (string * value) :=
  match field with
  | Some template => [(key, VString template)]
  | None => []
  end.


Definition mapping_value (rule : WebhookRule) : value :=
  VObject ([("title", VString (title (mapping rule)));
            ("body", VString (body (mapping rule)))]
             ++ optional_field "group" (group (mapping rule))
             ++ optional_field "icon" (icon (mapping rule))
             ++ optional_field "url" (url (mapping rule))
             ++ optional_field "sound" (sound (mapping rule))).

(** The value a rule of the declared type is as parsed JSON: an optional
    field that the rule leaves out is an absent property. *)
Definition rule_value (rule : WebhookRule) : value :=
  VObject
    [("id", VString (id rule)); ("name", VString (name rule));
     ("mapping", mapping_value rule);
     ("barkUrl", VString (barkUrl rule))].

End RuleValue.

(* ===================================================================== *)
(** * The basic variant of the engine *)
(* ===================================================================== *)

(** A value of the basic variant's resolver: a payload value, or an object
    of the realm (a built-in function or prototype) reached by an inherited
    property. *)
Inductive jsval `{JSNumber} (B : Type) : Type :=
| Data (v : value)
| Builtin (b : B).
Arguments Data {_ B} v.
Arguments Builtin {_ B} b.

(** The realm in which the program runs, through the reads the basic
    variant performs on it: [proto_get v key] is [v[key]] for a [key] that
    is not an own property of [v] (the lookup along the prototype chain);
    [builtin_get] reads a property of a realm object; [builtin_to_string]
    is [String] of one. *)
Class Realm `{JSNumber} : Type := {
  builtin : Type;
  proto_get : value -> string -> result (jsval builtin);
  builtin_get : builtin -> string -> result (jsval builtin);
  builtin_to_string : builtin -> result string
}.

Module Basic.
Section Variant.
Context {num : JSNumber} {realm : Realm}.

Definition js_truthy (o : jsval builtin) : bool :=
  match o with
  | Data v => truthy v
  | Builtin _ => true
  end.

(** [o[key]] for a truthy [o]: the own property, else the inherited one. *)
Definition js_get (o : jsval builtin) (key : string) : result (jsval builtin) :=
  match o with
  | Data v =>
      match own_property v key with
      | Some x => Ok (Data x)
      | None => proto_get v key
      end
  | Builtin b => builtin_get b key
  end.

(** [(o, key) => (o && o[key] !== undefined) ? o[key] : undefined] *)
Definition path_step (o : jsval builtin) (key : string) : result (jsval builtin) :=
  if js_truthy o then
    let* v := js_get o key in
    match v with
    | Data VUndefined => Ok (Data VUndefined)
    | _ => Ok v
    end
  else Ok (Data VUndefined).

Fixpoint reduce (keys : list string) (o : jsval builtin) : result (jsval builtin) :=
  match keys with
  | [] => Ok o
  | key :: rest => let* o' := path_step o key in reduce rest o'
  end.

Definition getValueByPath (obj : value) (path : string) : result (jsval builtin) :=
  reduce (split path ".") (Data obj).

(** The basic placeholder pattern: a dollar, an opening brace, a group of
    one or more of [[\w.]], a closing brace. *)
Definition re_placeholder : regex := placeholder_of word_or_dot.

Definition js_to_string (v : jsval builtin) : result string :=
  match v with
  | Data x => to_string x
  | Builtin b => builtin_to_string b
  end.

Definition substitute (data : value) (path : string) : result string :=
  let* v := getValueByPath data path in
  match v with
  | Data VUndefined => Ok EmptyString
  | _ => js_to_string v
  end.

Definition replaceTemplateVars (template : string) (data : value) : result string :=
  replace_all re_placeholder (substitute data) template.

Definition render_optional (field : option string) (data : value)
    : result (option string) :=
  match field with
  | Some template =>
      if negb (String.eqb template EmptyString)
      then let* s := replaceTemplateVars template data in Ok (Some s)
      else Ok None
  | None => Ok None
  end.

Definition renders_to (field : option string) (data : value) (v : string) : Prop :=
  exists template,
    field = Some template /\ template <> EmptyString
    /\ replaceTemplateVars template data = Ok v.

(** The basic [sendToBark] passes [rule.mapping.sound] as it is. *)
Definition barkParams (rule : WebhookRule) (data : value)
    : result (list (string * string)) :=
  let* t := replaceTemplateVars (title (mapping rule)) data in
  let* b := replaceTemplateVars (body (mapping rule)) data in
  let* g := render_optional (group (mapping rule)) data in
  let* i := render_optional (icon (mapping rule)) data in
  let* u := render_optional (url (mapping rule)) data in
  Ok (delete_undefined
        [("title", Some t); ("body", Some b); ("group", g); ("icon", i);
         ("url", u); ("sound", sound (mapping rule))]).

End Variant.
End Basic.

(* ===================================================================== *)
(** * A number type for concrete runs: exact decimals *)
(* ===================================================================== *)

(** The statements below hold for every [JSNumber]. Concrete runs use this
    instance: a number is NaN, an infinity, or [(-1)^neg * m * 10^e] held
    exactly. It parses and prints by the rules of StringToNumber and
    Number::toString and orders by value; it coincides with binary64 on the
    numerals that binary64 holds exactly (the integers up to 2^53 among
    them). *)
Module Decimal.

Inductive dnum : Type :=
| DNaN
| DInf (neg : bool)
| DFin (neg : bool) (m : N) (e : Z).

Definition signed (neg : bool) (z : Z) : Z := if neg then (- z)%Z else z.

Definition fin_compare (n1 : bool) (m1 : N) (e1 : Z) (n2 : bool) (m2 : N) (e2 : Z)
    : comparison :=
  let e0 := Z.min e1 e2 in
  Z.compare (signed n1 (Z.of_N m1 * 10 ^ (e1 - e0)))
            (signed n2 (Z.of_N m2 * 10 ^ (e2 - e0))).

Definition eqb (x y : dnum) : bool :=
  match x, y with
  | DInf a, DInf b => Bool.eqb a b
  | DFin n1 m1 e1, DFin n2 m2 e2 =>
      match fin_compare n1 m1 e1 n2 m2 e2 with Eq => true | _ => false end
  | _, _ => false
  end.

Definition ltb (x y : dnum) : bool :=
  match x, y with
  | DNaN, _ | _, DNaN => false
  | DInf a, DInf b => a && negb b
  | DInf a, DFin _ _ _ => a
  | DFin _ _ _, DInf b => negb b
  | DFin n1 m1 e1, DFin n2 m2 e2 =>
      match fin_compare n1 m1 e1 n2 m2 e2 with Lt => true | _ => false end
  end.

Definition is_finite (x : dnum) : bool :=
  match x with DFin _ _ _ => true | _ => false end.

Definition digits_of (m : N) : string := NilZero.string_of_uint (N.to_uint m).

Fixpoint zeros (n : nat) : string :=
  match n with O => EmptyString | S n' => String "0" (zeros n') end.

(** The digits of [s] without its trailing zeros, and how many were cut. *)
Fixpoint strip_zeros (s : string) : string * nat :=
  match s with
  | EmptyString => (EmptyString, 0)
  | String c s' =>
      match strip_zeros s' with
      | (EmptyString, z) => if Ascii.eqb c "0" then (EmptyString, S z)
                            else (String c EmptyString, z)
      | (t, z) => (String c t, z)
      end
  end.

(** Number::toString: with [k] significant digits and the decimal point
    after the [n]-th of them. *)
Definition to_string (x : dnum) : string :=
  match x with
  | DNaN => "NaN"
  | DInf false => "Infinity"
  | DInf true => "-Infinity"
  | DFin neg m e =>
      if (m =? 0)%N then "0" else
      let (ds, z) := strip_zeros (digits_of m) in
      let k := Z.of_nat (String.length ds) in
      let n := (k + e + Z.of_nat z)%Z in
      let body :=
        if ((k <=? n) && (n <=? 21))%Z then ds +:+ zeros (Z.to_nat (n - k))
        else if ((0 <? n) && (n <=? 21))%Z
          then take (Z.to_nat n) ds +:+ "." +:+ drop (Z.to_nat n) ds
        else if ((-6 <? n) && (n <=? 0))%Z
          then "0." +:+ zeros (Z.to_nat (- n)) +:+ ds
        else
          let ex := (n - 1)%Z in
          let exs := (if (0 <=? ex)%Z then "e+" else "e-") +:+ digits_of (Z.abs_N ex) in
          if (k =? 1)%Z then ds +:+ exs
          else take 1 ds +:+ "." +:+ drop 1 ds +:+ exs in
      (if neg then "-" else "") +:+ body
  end.

Fixpoint span (p : ascii -> bool) (s : string) : string * string :=
  match s with
  | EmptyString => (EmptyString, EmptyString)
  | String c s' =>
      if p c then let (a, b) := span p s' in (String c a, b)
      else (EmptyString, s)
  end.

Definition digit_of (c : ascii) : N :=
  let n := N.of_nat (char_code c) in
  if is_digit c then (n - 48)%N
  else if in_range "a" "f" c then (n - 87)%N
  else if in_range "A" "F" c then (n - 55)%N
  else 0%N.

Fixpoint radix_value (radix acc : N) (s : string) : N :=
  match s with
  | EmptyString => acc
  | String c s' => radix_value radix (radix * acc + digit_of c)%N s'
  end.

Definition is_hex (c : ascii) : bool :=
  is_digit c || in_range "a" "f" c || in_range "A" "F" c.

Definition take_sign (s : string) : bool * string :=
  match s with
  | String "-" s' => (true, s')
  | String "+" s' => (false, s')
  | _ => (false, s)
  end.

(** [digits e? sign? digits] read as an exponent; [None] when malformed. *)
Definition exponent_part (s : string) : option Z :=
  match s with
  | EmptyString => Some 0%Z
  | String c s' =>
      if Ascii.eqb c "e" || Ascii.eqb c "E" then
        let (neg, ds) := take_sign s' in
        if negb (String.eqb ds EmptyString) && all_chars is_digit ds
        then Some (signed neg (Z.of_N (radix_value 10 0 ds)))
        else None
      else None
  end.

(** StringToNumber: blanks stripped; the empty string is 0; a radix-prefixed
    integer, [Infinity] with a sign, or a signed decimal literal; anything
    else is NaN. *)
Definition of_string (text : string) : dnum :=
  let s := trim text in
  match s with
  | EmptyString => DFin false 0 0
  | String "0" (String x ds) =>
      let radix :=
        if Ascii.eqb x "x" || Ascii.eqb x "X" then Some (16%N, is_hex)
        else if Ascii.eqb x "o" || Ascii.eqb x "O" then Some (8%N, in_range "0" "7")
        else if Ascii.eqb x "b" || Ascii.eqb x "B" then Some (2%N, in_range "0" "1")
        else None in
      match radix with
      | Some (r, p) =>
          if negb (String.eqb ds EmptyString) && all_chars p ds
          then DFin false (radix_value r 0 ds) 0 else DNaN
      | None =>
          let (ip, rest) := span is_digit s in
          let (fp, rest') :=
            match rest with
            | String "." r => span is_digit r
            | _ => (EmptyString, rest)
            end in
          match exponent_part rest' with
          | Some ex => DFin false (radix_value 10 0 (ip +:+ fp))
                         (ex - Z.of_nat (String.length fp))
          | None => DNaN
          end
      end
  | _ =>
      let (neg, body) := take_sign s in
      if String.eqb body "Infinity" then DInf neg else
      let (ip, rest) := span is_digit body in
      let (fp, rest') :=
        match rest with
        | String "." r => span is_digit r
        | _ => (EmptyString, rest)
        end in
      if String.eqb ip EmptyString && String.eqb fp EmptyString then DNaN else
      match exponent_part rest' with
      | Some ex => DFin neg (radix_value 10 0 (ip +:+ fp))
                     (ex - Z.of_nat (String.length fp))
      | None => DNaN
      end
  end.

End Decimal.

#[export] Instance decimal_number : JSNumber := {|
  number := Decimal.dnum;
  num_of_nat := fun n => Decimal.DFin false (N.of_nat n) 0;
  num_nan := Decimal.DNaN;
  num_eqb := Decimal.eqb;
  num_ltb := Decimal.ltb;
  num_is_finite := Decimal.is_finite;
  number_to_string := Decimal.to_string;
  string_to_number := Decimal.of_string
|}.

(** The number value of an integer. *)
Definition int (z : Z) : @value decimal_number :=
  VNumber (Decimal.DFin (z <? 0)%Z (Z.abs_N z) 0).

(** A fragment of the standard realm for concrete runs: the [Object]
    constructor, [Object.prototype] and the functions it holds. A payload
    object inherits the properties of [Object.prototype]. Arrays and
    primitives inherit through prototypes of their own, and functions
    through [Function.prototype]; the fragment tabulates neither, and no
    statement below reads them. *)
Inductive intrinsic : Type :=
| ObjectConstructor
| ObjectPrototype
| ObjectMethod (name : string).

Definition object_prototype_methods : list string :=
  [ "hasOwnProperty"; "isPrototypeOf"; "propertyIsEnumerable"; "toLocaleString";
    "toString"; "valueOf"; "__defineGetter__"; "__defineSetter__";
    "__lookupGetter__"; "__lookupSetter__" ].

(** [key] read on an object whose prototype is [Object.prototype] and which
    has no own property [key]. *)
Definition object_prototype_get (key : string)
    : result (@jsval decimal_number intrinsic) :=
  if String.eqb key "constructor" then Ok (Builtin ObjectConstructor)
  else if String.eqb key "__proto__" then Ok (Builtin ObjectPrototype)
  else if existsb (String.eqb key) object_prototype_methods
       then Ok (Builtin (ObjectMethod key))
       else Ok (Data VUndefined).

#[export] Instance object_realm : @Realm decimal_number := {|
  builtin := intrinsic;
  proto_get := fun v key =>
    match v with
    | VObject _ => object_prototype_get key
    | _ => Ok (Data VUndefined)
    end;
  builtin_get := fun b key =>
    match b with
    | ObjectPrototype =>
        if String.eqb key "__proto__" then Ok (Data VNull)
        else object_prototype_get key
    | ObjectConstructor =>
        if String.eqb key "prototype" then Ok (Builtin ObjectPrototype)
        else if String.eqb key "name" then Ok (Data (VString "Object"))
        else if String.eqb key "length" then Ok (Data (int 1))
        else Ok (Data VUndefined)
    | ObjectMethod name =>
        if String.eqb key "name" then Ok (Data (VString name))
        else Ok (Data VUndefined)
    end;
  builtin_to_string := fun b =>
    match b with
    | ObjectConstructor => Ok "function Object() { [native code] }"
    | ObjectPrototype => Ok "[object Object]"
    | ObjectMethod name => Ok ("function " +:+ name +:+ "() { [native code] }")
    end
|}.

(** The payloads and rules of the runs below, over [decimal_number]. *)
Definition payload_n1 : value := VObject [("a", VObject [("b", int 1)])].
Definition payload_flat : value := VObject [("a", int 1); ("b", int 1); ("c", int 2)].
Definition payload_nested_template : value :=
  VObject [("a", VString "${b}"); ("b", VString "x")].
Definition payload_unprintable : value :=
  VObject [("a", VObject [("toString", int 1)]); ("b", int 1)].

Definition rule_with (g : option string) : WebhookRule :=
  {| id := "r1"; name := "Rule";
     mapping := {| title := "Hi ${n}"; body := "B"; group := g;
                   icon := None; url := None; sound := None |};
     barkUrl := "https://x/y" |}.

Definition rule_with_sound : WebhookRule :=
  {| id := "r1"; name := "Rule";
     mapping := {| title := "T"; body := "B"; group := None; icon := None;
                   url := None; sound := Some "${n}" |};
     barkUrl := "https://x/y" |}.

(** The request body
    [{id: 'r1', name: 'Rule', mapping: {}, barkUrl: 'https://x/y'}]:
    a mapping with neither [title] nor [body]. *)
Definition rule_without_templates : value :=
  VObject [("id", VString "r1"); ("name", VString "Rule");
           ("mapping", VObject []); ("barkUrl", VString "https://x/y")].

(** A parser for the runs: the inverse of [JSON_stringify] on the values
    listed, a syntax error on every other text. *)
Fixpoint parse_known (known : list value) (text : string) : result value :=
  match known with
  | [] => Throw (SyntaxError "Unexpected token")
  | v :: rest =>
      if String.eqb (JSON_stringify v) text then Ok v else parse_known rest text
  end.

(** A store that holds the rule of section 8 under its id. *)
Definition store_with_rule : kv_store :=
  {[ "rule:r1" := JSON_stringify (rule_value (rule_with None)) ]}.

(** The body of a push for that rule, with a payload. *)
Definition push_body : value :=
  VObject [("ruleId", VString "r1"); ("payload", VObject [("n", int 42)])].


(** A network on which Bark answers every request with 200. *)
Definition bark_ok (url : string) : result fetch_response :=
  Ok {| ok := true; response_status := 200; statusText := "OK" |}.

(* ===================================================================== *)
(** * Properties *)
(* ===================================================================== *)

(** ** The matcher on the anchored class patterns *)

Section MatcherFacts.
Context {R : Type}.

(** A greedy quantified class followed by a continuation that only accepts
    the end of the input consumes the whole input or fails. *)
Lemma rep_greedy_to_end (p : ascii -> bool) (k : nat -> string -> option R) :
  (forall pos c s, k pos (String c s) = None) ->
  forall s min pos,
    rep false p min pos s k
    = if all_chars p s && (min <=? String.length s)
      then k (pos + String.length s) EmptyString
      else None.
Proof.
  intros Hk s. induction s as [|c s IH]; intros min pos.
  - destruct min; simpl; [|reflexivity].
    now rewrite Nat.add_0_r.
  - assert (Hpos : S pos + String.length s = pos + String.length (String c s))
      by (simpl; lia).
    destruct min as [|n]; cbn [rep all_chars].
    + destruct (p c); [|apply Hk].
      rewrite IH, Hpos. cbn [andb Nat.leb].
      destruct (all_chars p s); [|apply Hk].
      destruct (k (pos + String.length (String c s)) EmptyString); [reflexivity|apply Hk].
    + destruct (p c); [|reflexivity].
      rewrite IH, Hpos. reflexivity.
Qed.

End MatcherFacts.

(** A pattern that starts with [^] matches at index 0 only. *)
Lemma search_anchored (r : regex) (s : string) (pos : nat) :
  search (Cat Bol r) (S pos) s = None.
Proof.
  revert pos. induction s as [|c s IH]; intros pos; simpl; [reflexivity|].
  apply IH.
Qed.

Lemma regex_test_anchored (r : regex) (s : string) :
  regex_test (Cat Bol r) s
  = match match_at (Cat Bol r) 0 s with Some _ => true | None => false end.
Proof.
  unfold regex_test, regex_exec.
  destruct s as [|c s]; simpl.
  - destruct (match_at (Cat Bol r) 0 EmptyString); reflexivity.
  - destruct (match_at (Cat Bol r) 0 (String c s)); [reflexivity|].
    now rewrite search_anchored.
Qed.

(** The path format test accepts exactly the non-empty strings over
    [[a-zA-Z0-9_.]]. *)
Lemma valid_path_test (path : string) :
  regex_test re_valid_path path
  = all_chars is_path_char path && (1 <=? String.length path).
Proof.
  unfold re_valid_path. simpl seq. rewrite regex_test_anchored.
  unfold match_at. simpl rmatch.
  rewrite rep_greedy_to_end by reflexivity.
  destruct (all_chars is_path_char path && (1 <=? String.length path)); reflexivity.
Qed.

Section ResolverFacts.
Context {num : JSNumber}.

Lemma path_step_undefined (key : string) : path_step VUndefined key = VUndefined.
Proof. unfold path_step. destruct (refused_key key); reflexivity. Qed.

(** Once the reducer has produced [undefined], it stays [undefined]. *)
Lemma fold_path_step_undefined (keys : list string) :
  fold_left path_step keys VUndefined = VUndefined.
Proof.
  induction keys as [|k ks IH]; simpl; [reflexivity|].
  now rewrite path_step_undefined.
Qed.

Lemma fold_path_step_refused (keys : list string) (key : string) :
  In key keys -> refused_key key = true ->
  forall o, fold_left path_step keys o = VUndefined.
Proof.
  induction keys as [|k ks IH]; intros Hin Href o; [destruct Hin|].
  simpl. destruct Hin as [->|Hin].
  - unfold path_step at 2. rewrite Href. apply fold_path_step_undefined.
  - now apply IH.
Qed.

Lemma refused_key_spec (key : string) :
  refused_key key = true
  <-> key = EmptyString \/ key = "__proto__" \/ key = "constructor" \/ key = "prototype".
Proof.
  unfold refused_key. rewrite !orb_true_iff, !String.eqb_eq. tauto.
Qed.

(** A value that is truthy and of type object is an object or an array. *)
Lemma truthy_typeof_object (o : value) :
  truthy o && typeof_object o = is_object o.
Proof. destruct o; simpl; try reflexivity; apply andb_false_r. Qed.

End ResolverFacts.

(** Under the guard of the reducer, the read [o[key]] is the read of an own
    property in every realm: the general property read of the basic variant,
    which looks at own properties first, returns it. *)
Lemma guarded_read_is_own `{realm : Realm} (o : value) (key : string) :
  hasOwnProperty o key = true ->
  Basic.js_get (Data o) key = Ok (Data (get_own o key)).
Proof.
  unfold hasOwnProperty, get_own, Basic.js_get.
  now destruct (own_property o key).
Qed.

(** ** The path resolver *)


Section PathResolver.
Context {num : JSNumber}.

Lemma fold_path_step_own (keys : list string) (o : value) :
  fold_left path_step keys o = VUndefined
  \/ own_path o keys (fold_left path_step keys o).
Proof.
  revert o. induction keys as [|key keys IH]; intros o; simpl.
  - right. constructor.
  - unfold path_step at 2 4.
    destruct (refused_key key); [left; apply fold_path_step_undefined|].
    rewrite truthy_typeof_object.
    destruct (is_object o) eqn:Hobj; simpl; [|left; apply fold_path_step_undefined].
    unfold hasOwnProperty, get_own.
    destruct (own_property o key) as [x|] eqn:Hown;
      [|left; apply fold_path_step_undefined].
    destruct (IH x) as [Hu|Hp]; [now left|].
    right. econstructor; eassumption.
Qed.

(** C10. In [src/index.ts], a root that is not a non-null object (null,
    undefined, a number, a string or a boolean) resolves to [undefined]
    for every path: the first guard returns before the path is split. *)
Theorem getValueByPath_non_object_root (obj : value) (path : string) :
  is_object obj = false ->
  getValueByPath obj path = VUndefined.
Proof.
  intros Hobj. unfold getValueByPath.
  rewrite <- truthy_typeof_object in Hobj.
  destruct (truthy obj), (typeof_object obj); simpl in *;
    first [discriminate | reflexivity].
Qed.

(** C5, as amended. In [src/index.ts], a path with a character outside
    [[A-Za-z0-9_.]], with an empty segment, or with a segment equal to
    [__proto__], [constructor] or [prototype] resolves to [undefined] on
    every root. The resolver is a total function to values: none of its
    steps can throw. *)
Theorem getValueByPath_malformed_path (obj : value) (path : string) :
  all_chars is_path_char path = false
  \/ (exists key, In key (split path ".")
        /\ (key = EmptyString \/ key = "__proto__"
            \/ key = "constructor" \/ key = "prototype")) ->
  getValueByPath obj path = VUndefined.
Proof.
  intros H. unfold getValueByPath.
  destruct (negb (truthy obj) || negb (typeof_object obj) || String.eqb path EmptyString);
    [reflexivity|].
  rewrite valid_path_test.
  destruct H as [Hchars|(key & Hin & Hkey)].
  - now rewrite Hchars.
  - destruct (negb _); [reflexivity|].
    apply fold_path_step_refused with key; [assumption|].
    now apply refused_key_spec.
Qed.

(** C4, as amended. In [src/index.ts], the resolver returns [undefined] or a
    value reached from the root through own properties only, one per
    segment of the path: nothing is read through the prototype chain. In
    particular [constructor] resolves to [undefined] on the empty object. *)
Theorem getValueByPath_own_properties_only :
  (forall (obj : value) (path : string),
      getValueByPath obj path = VUndefined
      \/ own_path obj (split path ".") (getValueByPath obj path))
  /\ getValueByPath (VObject []) "constructor" = VUndefined.
Proof.
  split; [|reflexivity].
  intros obj path. unfold getValueByPath.
  destruct (negb (truthy obj) || negb (typeof_object obj) || String.eqb path EmptyString);
    [now left|].
  destruct (negb (regex_test re_valid_path path)); [now left|].
  apply fold_path_step_own.
Qed.

End PathResolver.

(** ** Strings: occurrences and [split] *)

Lemma append_empty_r (s : string) : s +:+ EmptyString = s.
Proof. induction s as [|c s IH]; simpl; [reflexivity|now rewrite IH]. Qed.

Lemma append_assoc (a b c : string) : (a +:+ b) +:+ c = a +:+ (b +:+ c).
Proof. induction a as [|x a IH]; simpl; [reflexivity|now rewrite IH]. Qed.

Lemma append_length (a b : string) :
  String.length (a +:+ b) = String.length a + String.length b.
Proof. induction a as [|x a IH]; simpl; [reflexivity|now rewrite IH]. Qed.

Lemma take_drop (n : nat) (s : string) : take n s +:+ drop n s = s.
Proof.
  revert s. induction n as [|n IH]; intros [|c s]; simpl; try reflexivity.
  now rewrite IH.
Qed.

Lemma prefix_append (a s : string) : String.prefix a (a +:+ s) = true.
Proof.
  induction a as [|x a IH]; simpl; [now destruct s|].
  destruct (ascii_dec x x); [assumption|contradiction].
Qed.

Lemma prefix_drop (a s : string) :
  String.prefix a s = true -> s = a +:+ drop (String.length a) s.
Proof.
  revert s. induction a as [|x a IH]; intros s H; simpl; [reflexivity|].
  destruct s as [|c s]; simpl in H; [discriminate|].
  destruct (ascii_dec x c) as [->|]; [|discriminate].
  now rewrite <- IH.
Qed.

(** A string that starts with [a +:+ b] starts with [a]. *)
Lemma prefix_shorter (a b s : string) :
  String.prefix (a +:+ b) s = true -> String.prefix a s = true.
Proof.
  revert s. induction a as [|x a IH]; intros s H; [now destruct s|].
  destruct s as [|c s]; simpl in *; [discriminate|].
  destruct (ascii_dec x c); [now apply IH|discriminate].
Qed.

(** A string that includes [a +:+ b] includes [a]. *)
Lemma includes_shorter (a b s : string) :
  includes s (a +:+ b) = true -> includes s a = true.
Proof.
  induction s as [|c s IH]; cbn [includes]; rewrite !orb_true_iff; intros [H|H].
  - left. now apply prefix_shorter with b.
  - discriminate.
  - left. now apply prefix_shorter with b.
  - right. now apply IH.
Qed.

Lemma first_index_includes (sub s : string) :
  includes s sub = match first_index sub s with Some _ => true | None => false end.
Proof.
  induction s as [|c s IH]; cbn [includes first_index].
  - destruct (String.prefix sub EmptyString); reflexivity.
  - destruct (String.prefix sub (String c s)); [reflexivity|].
    cbn [orb]. rewrite IH. destruct (first_index sub s); reflexivity.
Qed.

(** The first occurrence is an occurrence: [s] is the text before it, [sub],
    and the text after it. *)
Lemma first_index_occurrence (sub s : string) (i : nat) :
  first_index sub s = Some i ->
  s = take i s +:+ sub +:+ drop (i + String.length sub) s.
Proof.
  revert i. induction s as [|c s IH]; intros i; cbn [first_index].
  - destruct (String.prefix sub EmptyString) eqn:Hp; [|discriminate].
    intros [= <-]. now apply prefix_drop.
  - destruct (String.prefix sub (String c s)) eqn:Hp.
    + intros [= <-]. now apply prefix_drop.
    + destruct (first_index sub s) as [j|]; [|discriminate].
      intros [= <-]. cbn [take drop Nat.add String.append]. now rewrite <- IH.
Qed.

Section SplitFacts.
Variable sep : string.

Lemma split_go_skip (x s cur : string) :
  split_go sep (x +:+ s) (String.length x) cur = split_go sep s 0 cur.
Proof. induction x as [|c x IH]; simpl; [now destruct s|assumption]. Qed.

(** At an occurrence of the separator the current piece is closed and the
    scan resumes after the separator. *)
Lemma split_go_at_separator (s cur : string) :
  sep <> EmptyString -> String.prefix sep s = true ->
  split_go sep s 0 cur
  = cur :: split_go sep (drop (String.length sep) s) 0 EmptyString.
Proof.
  intros Hne Hp. pose proof (prefix_drop _ _ Hp) as Hs.
  destruct s as [|c s'].
  { destruct sep; [contradiction|discriminate]. }
  cbn [split_go]. rewrite Hp. f_equal.
  destruct sep as [|c0 sep'] eqn:Hsep; [contradiction|].
  cbn [String.length drop Nat.sub]. cbn [String.append] in Hs.
  injection Hs as _ Hs.
  rewrite Nat.sub_0_r. rewrite Hs at 1. rewrite <- Hsep. apply split_go_skip.
Qed.

(** [split] cuts at the first occurrence of the separator. *)
Lemma split_go_first (s : string) :
  sep <> EmptyString ->
  forall (i : nat) (cur : string),
    first_index sep s = Some i ->
    split_go sep s 0 cur
    = (cur +:+ take i s)
        :: split_go sep (drop (i + String.length sep) s) 0 EmptyString.
Proof.
  intros Hne. induction s as [|c s IH]; intros i cur; cbn [first_index].
  - destruct (String.prefix sep EmptyString) eqn:Hp; [|discriminate].
    destruct sep; [contradiction|discriminate].
  - destruct (String.prefix sep (String c s)) eqn:Hp.
    + intros [= <-]. rewrite split_go_at_separator by assumption.
      simpl take. now rewrite append_empty_r.
    + destruct (first_index sep s) as [j|] eqn:Hj; [|discriminate].
      intros [= <-]. cbn [split_go]. rewrite Hp.
      rewrite (IH j) by reflexivity.
      cbn [take drop Nat.add]. now rewrite append_assoc.
Qed.

Lemma split_go_none (s cur : string) :
  first_index sep s = None -> split_go sep s 0 cur = [cur +:+ s].
Proof.
  revert cur. induction s as [|c s IH]; intros cur; cbn [first_index].
  - intros _. simpl. now rewrite append_empty_r.
  - destruct (String.prefix sep (String c s)) eqn:Hp; [discriminate|].
    destruct (first_index sep s) eqn:Hj; [discriminate|].
    intros _. cbn [split_go]. rewrite Hp, IH by reflexivity.
    now rewrite append_assoc.
Qed.

End SplitFacts.

(** ** The expression evaluator *)

Section Evaluator.
Context {num : JSNumber}.

Lemma operator_tokens_list :
  operator_tokens = ["==="; "!=="; "=="; "!="; ">"; "<"; ">="; "<="; "&&"; "||"].
Proof. reflexivity. Qed.

(** The loop applies the operator that [detect_operator] names, to the
    operands cut from the condition at that operator. *)
Lemma evaluate_condition_detected (ops : list (string * op_fun))
    (condition : string) (data : value) :
  match detect_operator ops condition with
  | Some op =>
      exists func, In (op, func) ops
        /\ evaluate_condition ops condition data
           = func (fst (operands data condition op)) (snd (operands data condition op))
  | None => evaluate_condition ops condition data = Ok (VBool false)
  end.
Proof.
  induction ops as [|[op func] ops IH]; simpl; [reflexivity|].
  destruct (includes condition op).
  - exists func. split; [now left|]. now destruct (operands data condition op).
  - destruct (detect_operator ops condition); [|assumption].
    destruct IH as (f & Hin & Heq). exists f. split; [now right|assumption].
Qed.

(** The operator detected is the first of the list that the condition
    includes. *)
Lemma detect_operator_first (ops : list (string * op_fun)) (condition op : string) :
  detect_operator ops condition = Some op ->
  exists before func after,
    ops = before ++ (op, func) :: after
    /\ includes condition op = true
    /\ Forall (fun p => includes condition (fst p) = false) before.
Proof.
  induction ops as [|[op' func] ops IH]; simpl; [discriminate|].
  destruct (includes condition op') eqn:Hinc.
  - intros [= <-]. exists [], func, ops. repeat split; [assumption|constructor].
  - intros H. destruct (IH H) as (before & f & after & -> & Hop & Hbefore).
    exists ((op', func) :: before), f, after.
    repeat split; [assumption|]. now constructor.
Qed.


(** [>=] and [<=] stand after [>] and [<] in the table, and a condition that
    includes one of them includes the shorter token: they are never the
    operator detected. *)
Lemma ge_le_never_detected (condition : string) :
  detect_operator operators condition <> Some ">="
  /\ detect_operator operators condition <> Some "<=".
Proof.
  assert (Hge : includes condition ">=" = true -> includes condition ">" = true)
    by apply (includes_shorter ">" "=").
  assert (Hle : includes condition "<=" = true -> includes condition "<" = true)
    by apply (includes_shorter "<" "=").
  unfold operators. cbn [detect_operator].
  destruct (includes condition "==="); [split; discriminate|].
  destruct (includes condition "!=="); [split; discriminate|].
  destruct (includes condition "=="); [split; discriminate|].
  destruct (includes condition "!="); [split; discriminate|].
  destruct (includes condition ">"); [split; discriminate|].
  destruct (includes condition "<"); [split; discriminate|].
  destruct (includes condition ">="); [now specialize (Hge eq_refl)|].
  destruct (includes condition "<="); [now specialize (Hle eq_refl)|].
  destruct (includes condition "&&"); [split; discriminate|].
  destruct (includes condition "||"); split; discriminate.
Qed.

Lemma sequence_throw {A : Type} (rs : list (result A)) (e : exn) :
  sequence rs = Throw e -> In (Throw e) rs.
Proof.
  induction rs as [|r rs IH]; simpl; [discriminate|].
  destruct r as [a|e']; simpl.
  - destruct (sequence rs); simpl; [discriminate|].
    intros [= <-]. right. now apply IH.
  - intros [= <-]. now left.
Qed.

(** The only error of a conversion to a string or a primitive is the
    TypeError of an object without a usable [toString]. *)
Lemma to_string_error (v : value) (e : exn) :
  to_string v = Throw e -> e = no_primitive.
Proof.
  revert e. induction v as [| |b|n|s|items IH|props _] using value_induction;
    intros e; simpl; try discriminate.
  - destruct b; discriminate.
  - intros H. destruct (sequence _) eqn:Hs in H; simpl in H; [discriminate|].
    injection H as <-. apply sequence_throw in Hs.
    induction IH as [|x items Hx _ IHitems]; simpl in Hs; [contradiction|].
    destruct Hs as [Hs|Hs]; [|now apply IHitems].
    destruct x; try discriminate; now apply Hx.
  - destruct (assoc "toString" props); [now intros [= <-]|discriminate].
Qed.

Lemma to_primitive_error (v : value) (e : exn) :
  to_primitive v = Throw e -> e = no_primitive.
Proof.
  destruct v as [| |b|n|s|items|props]; try discriminate; unfold to_primitive.
  - destruct (to_string (VArray items)) eqn:Hs; simpl; [discriminate|].
    intros [= <-]. now apply to_string_error in Hs.
  - destruct (to_string (VObject props)) eqn:Hs; simpl; [discriminate|].
    intros [= <-]. now apply to_string_error in Hs.
Qed.

Lemma loose_equal_error (a b : operand) (e : exn) :
  loose_equal a b = Throw e -> e = no_primitive.
Proof.
  unfold loose_equal.
  destruct (is_object (val a)), (is_object (val b)); try discriminate.
  - destruct (val b); try discriminate;
      (destruct (to_primitive (val a)) eqn:Hp; simpl; [discriminate|];
       intros [= <-]; now apply to_primitive_error in Hp).
  - destruct (val a); try discriminate;
      (destruct (to_primitive (val b)) eqn:Hp; simpl; [discriminate|];
       intros [= <-]; now apply to_primitive_error in Hp).
Qed.

Lemma relational_error (swapped : bool) (read : option bool -> bool)
    (a b : operand) (e : exn) :
  relational swapped read a b = Throw e -> e = no_primitive.
Proof.
  unfold relational.
  destruct (to_primitive (val a)) eqn:Ha; simpl.
  - destruct (to_primitive (val b)) eqn:Hb; simpl; [discriminate|].
    intros [= <-]. now apply to_primitive_error in Hb.
  - intros [= <-]. now apply to_primitive_error in Ha.
Qed.

Lemma operators_error (op : string) (func : op_fun) (a b : operand) (e : exn) :
  In (op, func) operators -> func a b = Throw e -> e = no_primitive.
Proof.
  unfold operators. simpl.
  intros [H|[H|[H|[H|[H|[H|[H|[H|[H|[H|[]]]]]]]]]]]; injection H as _ <-;
    try discriminate;
    first [ apply relational_error
          | destruct (loose_equal a b) eqn:Hl; simpl; [discriminate|];
            intros [= <-]; now apply loose_equal_error in Hl ].
Qed.

(** The errors that can arise inside the [try] block of
    [evaluateExpression] are the TypeErrors of an operator converting an
    operand to a primitive. *)
Lemma evaluate_body_error (expression : string) (data : value) (e : exn) :
  evaluate_body expression data = Throw e -> e = no_primitive.
Proof.
  unfold evaluate_body.
  destruct (ternary_match expression) as [[[condition trueExpr] falseExpr]|];
    [|discriminate].
  pose proof (evaluate_condition_detected operators condition data) as Hc.
  destruct (evaluate_condition operators condition data) as [v|e'] eqn:He; simpl.
  - destruct (truthy v); discriminate.
  - intros [= <-].
    destruct (detect_operator operators condition); [|discriminate].
    destruct Hc as (func & Hin & Hf). symmetry in Hf.
    now apply (operators_error _ _ _ _ _ Hin Hf).
Qed.


(** C8. [evaluateExpression] is a total function to values, and whenever
    the body of its [try] block throws, whatever the error, it returns the
    empty string. *)
Theorem evaluateExpression_catches (expression : string) (data : value) (error : exn) :
  evaluate_body expression data = Throw error ->
  evaluateExpression expression data = VString EmptyString.
Proof. intros H. unfold evaluateExpression. now rewrite H. Qed.

(** C6, as amended. For a non-empty operator token that occurs in the
    condition, the left operand is read from the text before the first
    occurrence, and the right operand from the text between the first
    occurrence and the next one; it is the whole remainder only when the
    token does not occur again. *)
Theorem operands_between_occurrences (data : value) (condition op : string) (i : nat) :
  op <> EmptyString ->
  first_index op condition = Some i ->
  operands data condition op
  = (parse_operand data (take i condition),
     parse_operand data
       (match first_index op (drop (i + String.length op) condition) with
        | Some j => take j (drop (i + String.length op) condition)
        | None => drop (i + String.length op) condition
        end)).
Proof.
  intros Hne Hi. unfold operands, split.
  rewrite (split_go_first op condition Hne i EmptyString Hi).
  cbn [map nth String.append]. f_equal.
  destruct (first_index op (drop (i + String.length op) condition)) as [j|] eqn:Hj.
  - now rewrite (split_go_first op _ Hne j EmptyString Hj).
  - now rewrite (split_go_none op _ EmptyString Hj).
Qed.

End Evaluator.

(** ** The template renderer *)


Lemma take_append (a b : string) : take (String.length a) (a +:+ b) = a.
Proof. induction a as [|x a IH]; simpl; [now destruct b|now rewrite IH]. Qed.

Section QuantifierFacts.
Context {R : Type}.

(** A greedy quantified class takes every character of [body] when the
    input goes on with a character outside the class (or ends) and the rest
    of the pattern matches from there. *)
Lemma rep_greedy_stop (p : ascii -> bool) (k : nat -> string -> option R)
    (rest : string) (x : R) :
  match rest with EmptyString => true | String c _ => negb (p c) end = true ->
  forall body min pos,
    all_chars p body = true ->
    min <= String.length body ->
    k (pos + String.length body) rest = Some x ->
    rep false p min pos (body +:+ rest) k = Some x.
Proof.
  intros Hrest body. induction body as [|b body IH]; intros min pos Hall Hmin Hk.
  - simpl in Hmin. assert (min = 0) as -> by lia.
    simpl in Hk. rewrite Nat.add_0_r in Hk. simpl.
    destruct rest as [|c rest]; simpl; [assumption|].
    now destruct (p c).
  - simpl in Hall. apply andb_true_iff in Hall as [Hb Hall].
    assert (Hpos : S pos + String.length body = pos + String.length (String b body))
      by (simpl; lia).
    destruct min as [|n]; cbn [String.append rep]; rewrite Hb.
    + rewrite (IH 0 (S pos)); [reflexivity|assumption|lia|now rewrite Hpos].
    + apply IH; [assumption|simpl in Hmin; lia|now rewrite Hpos].
Qed.

(** The index a quantified class starts from only shifts the indices its
    continuation sees. *)
Lemma rep_shift (lazy : bool) (p : ascii -> bool) (d : nat)
    (k : nat -> string -> option R) (s : string) :
  forall min pos,
    rep lazy p min (d + pos) s k
    = rep lazy p min pos s (fun pos' s' => k (d + pos') s').
Proof.
  induction s as [|c s IH]; intros min pos.
  - destruct min, lazy; reflexivity.
  - destruct min as [|n]; cbn [rep].
    + destruct lazy.
      * destruct (k (d + pos) (String c s)); [reflexivity|].
        destruct (p c); [|reflexivity].
        now rewrite <- IH, Nat.add_succ_r.
      * destruct (p c); [|reflexivity].
        now rewrite <- IH, Nat.add_succ_r.
    + destruct (p c); [|reflexivity].
      now rewrite <- IH, Nat.add_succ_r.
Qed.

Lemma rep_ext (lazy : bool) (p : ascii -> bool) (k k' : nat -> string -> option R) :
  (forall pos s, k pos s = k' pos s) ->
  forall s min pos, rep lazy p min pos s k = rep lazy p min pos s k'.
Proof.
  intros Hk s. induction s as [|c s IH]; intros min pos.
  - destruct min, lazy; simpl; now rewrite ?Hk.
  - destruct min as [|n]; cbn [rep]; rewrite ?Hk, ?IH; reflexivity.
Qed.

End QuantifierFacts.

(** What the rest of the pattern returns can be post-processed before or
    after the quantifier. *)
Lemma rep_map {A B : Type} (f : A -> B) (lazy : bool) (p : ascii -> bool)
    (k : nat -> string -> option A) (s : string) :
  forall min pos,
    rep lazy p min pos s (fun pos' s' => option_map f (k pos' s'))
    = option_map f (rep lazy p min pos s k).
Proof.
  induction s as [|c s IH]; intros min pos.
  - destruct min, lazy; try reflexivity.
    simpl. destruct (k pos EmptyString); reflexivity.
  - destruct min as [|n]; cbn [rep].
    + destruct lazy.
      * destruct (k pos (String c s)); [reflexivity|]. simpl.
        destruct (p c); [apply IH|reflexivity].
      * destruct (p c); [|reflexivity].
        rewrite IH. destruct (rep false p 0 (S pos) s k); reflexivity.
    + destruct (p c); [apply IH|reflexivity].
Qed.


(** A placeholder pattern has no anchor: its matches do not depend on the
    index they start at. *)
Lemma placeholder_shift (p : ascii -> bool) (d pos : nat) (s : string) :
  match_at (placeholder_of p) (d + pos) s
  = option_map (shift_match d) (match_at (placeholder_of p) pos s).
Proof.
  unfold match_at, placeholder_of. cbn [seq rmatch plus].
  destruct s as [|c1 [|c2 s]]; try reflexivity.
  - destruct (is_char "$" c1); reflexivity.
  - destruct (is_char "$" c1); [|reflexivity].
    destruct (is_char "{" c2); [|reflexivity].
    replace (S (S (d + pos))) with (d + S (S pos)) by lia.
    rewrite rep_shift, <- rep_map. apply rep_ext.
    intros pos' [|c3 s3]; [reflexivity|].
    destruct (is_char "}" c3); [|reflexivity].
    cbn [option_map]. unfold shift_match. cbn [fst snd].
    replace (d + pos' - (d + S (S pos))) with (pos' - S (S pos)) by lia.
    now rewrite Nat.add_succ_r.
Qed.

(** A placeholder pattern matches a placeholder whose body is in its class:
    it ends after the closing brace and captures the body. *)
Lemma placeholder_match (p : ascii -> bool) (body post : string) :
  p "}"%char = false ->
  body <> EmptyString ->
  all_chars p body = true ->
  match_at (placeholder_of p) 0 ("${" +:+ body +:+ "}" +:+ post)
  = Some (String.length body + 3, [(1, body)]).
Proof.
  intros Hbrace Hne Hall.
  unfold match_at, placeholder_of. cbn [seq rmatch plus String.append].
  change (is_char "$" "$") with true. change (is_char "{" "{") with true.
  cbn match.
  apply rep_greedy_stop.
  - cbn [String.append]. now rewrite Hbrace.
  - assumption.
  - destruct body; [contradiction|simpl; lia].
  - cbn [String.append]. change (is_char "}" "}") with true. cbn match.
    replace (2 + String.length body - 2) with (String.length body) by lia.
    rewrite take_append. do 2 f_equal. lia.
Qed.

(** It matches nowhere on a character that is not a dollar. *)
Lemma placeholder_no_match (p : ascii -> bool) (pos : nat) (c : ascii) (s : string) :
  is_char "$" c = false -> match_at (placeholder_of p) pos (String c s) = None.
Proof.
  intros Hc. unfold match_at, placeholder_of. cbn [seq rmatch]. now rewrite Hc.
Qed.

Section ReplaceFacts.
Variable p : ascii -> bool.
Variable callback : string -> result string.

Lemma replace_go_shift (s : string) :
  forall skip d pos,
    replace_go (placeholder_of p) callback (d + pos) s skip
    = replace_go (placeholder_of p) callback pos s skip.
Proof.
  induction s as [|c s IH]; intros skip d pos; [reflexivity|].
  cbn [replace_go]. destruct skip as [|n].
  - rewrite placeholder_shift.
    destruct (match_at (placeholder_of p) pos (String c s)) as [[past caps]|];
      cbn [option_map shift_match fst snd].
    + replace (d + past - (d + pos) - 1) with (past - pos - 1) by lia.
      now rewrite <- Nat.add_succ_r, IH.
    + now rewrite <- Nat.add_succ_r, IH.
  - now rewrite <- Nat.add_succ_r, IH.
Qed.

Lemma replace_go_from_start (s : string) (skip pos : nat) :
  replace_go (placeholder_of p) callback pos s skip
  = replace_go (placeholder_of p) callback 0 s skip.
Proof. rewrite <- (Nat.add_0_r pos). apply replace_go_shift. Qed.

Lemma replace_go_step (r : regex) (pos : nat) (c : ascii) (s : string) :
  replace_go r callback pos (String c s) 0
  = match match_at r pos (String c s) with
    | Some (past, caps) =>
        let* out := callback (default EmptyString (cap_get 1 caps)) in
        let* rest := replace_go r callback (S pos) s (past - pos - 1) in
        Ok (out +:+ rest)
    | None =>
        let* rest := replace_go r callback (S pos) s 0 in
        Ok (String c rest)
    end.
Proof. reflexivity. Qed.

(** Stepping over the characters of a match. *)
Lemma replace_go_skip (x s : string) :
  forall pos,
    replace_go (placeholder_of p) callback pos (x +:+ s) (String.length x)
    = replace_go (placeholder_of p) callback 0 s 0.
Proof.
  induction x as [|c x IH]; intros pos; simpl.
  - apply replace_go_from_start.
  - apply IH.
Qed.

(** Text without a dollar is copied. *)
Lemma replace_go_literal (pre s : string) :
  all_chars not_dollar pre = true ->
  forall pos,
    replace_go (placeholder_of p) callback pos (pre +:+ s) 0
    = let* rest := replace_go (placeholder_of p) callback 0 s 0 in
      Ok (pre +:+ rest).
Proof.
  induction pre as [|c pre IH]; intros Hpre pos.
  - simpl. rewrite replace_go_from_start.
    now destruct (replace_go (placeholder_of p) callback 0 s 0).
  - simpl in Hpre. apply andb_true_iff in Hpre as [Hc Hpre].
    cbn [String.append replace_go].
    rewrite placeholder_no_match
      by (unfold not_dollar in Hc; now destruct (is_char "$" c)).
    rewrite (IH Hpre).
    now destruct (replace_go (placeholder_of p) callback 0 s 0).
Qed.

(** A placeholder is replaced by the callback's text for its body, and the
    scan resumes after the closing brace: the text put in is not scanned. *)
Lemma replace_go_placeholder (body post : string) (pos : nat) :
  p "}"%char = false ->
  body <> EmptyString ->
  all_chars p body = true ->
  replace_go (placeholder_of p) callback pos ("${" +:+ body +:+ "}" +:+ post) 0
  = let* out := callback body in
    let* rest := replace_go (placeholder_of p) callback 0 post 0 in
    Ok (out +:+ rest).
Proof.
  intros Hbrace Hne Hall. rewrite replace_go_from_start.
  pose proof (placeholder_match p body post Hbrace Hne Hall) as Hm.
  change ("${" +:+ body +:+ "}" +:+ post)
    with (String "$" (String "{" (body +:+ String "}" post))) in *.
  rewrite replace_go_step, Hm.
  change (default EmptyString (cap_get 1 [(1, body)])) with body.
  destruct (callback body) as [out|e]; [|reflexivity]. cbn [bind].
  replace (String.length body + 3 - 0 - 1)
    with (String.length (String "{" (body +:+ "}"))) 
    by (cbn [String.length]; rewrite append_length; simpl; lia).
  replace (String "{" (body +:+ String "}" post))
    with (String "{" (body +:+ "}") +:+ post)
    by (cbn [String.append]; now rewrite append_assoc).
  now rewrite replace_go_skip.
Qed.

End ReplaceFacts.

Section Unmatched.
Variable r : regex.
Variable callback : string -> result string.

(** Text in which no match starts is copied. *)
Lemma replace_go_unmatched (pre rest : string) :
  forall pos,
    no_match_within r pos pre rest = true ->
    replace_go r callback pos (pre +:+ rest) 0
    = let* out := replace_go r callback (pos + String.length pre) rest 0 in
      Ok (pre +:+ out).
Proof.
  induction pre as [|c pre IH]; intros pos Hpre.
  - cbn [String.append String.length]. rewrite Nat.add_0_r.
    now destruct (replace_go r callback pos rest 0).
  - cbn [no_match_within] in Hpre.
    destruct (match_at r pos (String c pre +:+ rest)) eqn:Hm; [discriminate|].
    change (String c pre +:+ rest) with (String c (pre +:+ rest)) in *.
    rewrite replace_go_step, Hm, (IH (S pos) Hpre).
    cbn [String.length Nat.add]. rewrite Nat.add_succ_r.
    now destruct (replace_go r callback (S (pos + String.length pre)) rest 0).
Qed.

Lemma replace_all_unmatched (template : string) :
  no_match_within r 0 template EmptyString = true ->
  replace_all r callback template = Ok template.
Proof.
  intros H. unfold replace_all.
  rewrite <- (append_empty_r template) at 1.
  rewrite (replace_go_unmatched template EmptyString 0 H).
  cbn [replace_go bind]. now rewrite append_empty_r.
Qed.

End Unmatched.

Section GreedyInversion.
Context {R : Type}.

(** A greedy quantified class that matches has taken characters of its
    class, at least [min], and left the rest to the continuation. *)
Lemma rep_greedy_inv (p : ascii -> bool) (k : nat -> string -> option R) (x : R) :
  forall s min pos,
    rep false p min pos s k = Some x ->
    exists body rest,
      s = body +:+ rest /\ all_chars p body = true
      /\ min <= String.length body
      /\ k (pos + String.length body) rest = Some x.
Proof.
  intros s. induction s as [|c s IH]; intros min pos H.
  - destruct min; [|discriminate]. cbn [rep] in H.
    exists EmptyString, EmptyString. cbn. now rewrite Nat.add_0_r.
  - assert (Hhere : k pos (String c s) = Some x ->
                    min = 0 ->
                    exists body rest,
                      String c s = body +:+ rest /\ all_chars p body = true
                      /\ min <= String.length body
                      /\ k (pos + String.length body) rest = Some x).
    { intros Hk ->. exists EmptyString, (String c s). cbn. now rewrite Nat.add_0_r. }
    assert (Hnext : forall n, rep false p n (S pos) s k = Some x -> p c = true ->
                    exists body rest,
                      String c s = body +:+ rest /\ all_chars p body = true
                      /\ S n <= String.length body
                      /\ k (pos + String.length body) rest = Some x).
    { intros n Hrep Hc. destruct (IH n (S pos) Hrep) as (body & rest & -> & Hall & Hlen & Hk).
      exists (String c body), rest. cbn [String.append all_chars String.length].
      rewrite Hc, Hall, Nat.add_succ_r. repeat split; [lia|assumption]. }
    destruct min as [|n]; cbn [rep] in H.
    + destruct (p c) eqn:Hc; [|now apply Hhere].
      destruct (rep false p 0 (S pos) s k) as [y|] eqn:Hrep.
      * injection H as ->.
        destruct (Hnext 0 Hrep eq_refl) as (body & rest & E & Hall & Hlen & Hk).
        exists body, rest. repeat split; try assumption. lia.
      * now apply Hhere.
    + destruct (p c) eqn:Hc; [|discriminate]. now apply Hnext.
Qed.

End GreedyInversion.

(** A match of a placeholder pattern is a placeholder: a dollar, a brace,
    a non-empty body in the class, a closing brace. *)
Lemma placeholder_match_inv (p : ascii -> bool) (pos : nat) (s : string)
    (m : nat * captures) :
  match_at (placeholder_of p) pos s = Some m ->
  exists body post,
    s = "${" +:+ body +:+ "}" +:+ post
    /\ body <> EmptyString /\ all_chars p body = true.
Proof.
  unfold match_at, placeholder_of. cbn [seq rmatch plus].
  destruct s as [|c1 [|c2 s]]; try discriminate.
  { now destruct (is_char "$" c1). }
  destruct (is_char "$" c1) eqn:H1; [|discriminate].
  destruct (is_char "{" c2) eqn:H2; [|discriminate].
  apply Ascii.eqb_eq in H1, H2. subst c1 c2.
  intros H. apply rep_greedy_inv in H as (body & rest & -> & Hall & Hlen & Hk).
  destruct rest as [|c post]; [discriminate|].
  destruct (is_char "}" c) eqn:H3; [|discriminate].
  apply Ascii.eqb_eq in H3. subst c.
  exists body, post. split; [reflexivity|]. split; [|assumption].
  destruct body; [simpl in Hlen; lia|discriminate].
Qed.

(** Every text is free of matches or has a first placeholder. *)
Lemma first_placeholder (p : ascii -> bool) (template : string) :
  forall pos,
    no_match_within (placeholder_of p) pos template EmptyString = true
    \/ exists pre body post,
         template = pre +:+ "${" +:+ body +:+ "}" +:+ post
         /\ no_match_within (placeholder_of p) pos pre ("${" +:+ body +:+ "}" +:+ post)
            = true
         /\ body <> EmptyString /\ all_chars p body = true.
Proof.
  induction template as [|c template IH]; intros pos; [now left|].
  destruct (match_at (placeholder_of p) pos (String c template)) as [m|] eqn:Hm.
  - right. destruct (placeholder_match_inv p pos _ m Hm) as (body & post & E & Hne & Hall).
    exists EmptyString, body, post. now rewrite E.
  - destruct (IH (S pos)) as [Hfree|(pre & body & post & E & Hpre & Hne & Hall)].
    + left. cbn [no_match_within String.append].
      now rewrite append_empty_r, Hm.
    + right. exists (String c pre), body, post. split; [now rewrite E|].
      split; [|now split].
      cbn [no_match_within].
      change (String c pre +:+ "${" +:+ body +:+ "}" +:+ post)
        with (String c (pre +:+ "${" +:+ body +:+ "}" +:+ post)).
      now rewrite <- E, Hm.
Qed.

Lemma not_dollar_no_match (p : ascii -> bool) (pre rest : string) :
  all_chars not_dollar pre = true ->
  forall pos, no_match_within (placeholder_of p) pos pre rest = true.
Proof.
  induction pre as [|c pre IH]; intros Hpre pos; [reflexivity|].
  simpl in Hpre. apply andb_true_iff in Hpre as [Hc Hpre].
  cbn [no_match_within String.append].
  rewrite placeholder_no_match
    by (unfold not_dollar in Hc; now destruct (is_char "$" c)).
  now apply IH.
Qed.

Section FirstPlaceholder.
Variable p : ascii -> bool.
Variable callback : string -> result string.

Lemma replace_all_first_placeholder (pre body post text rest : string) :
  p "}"%char = false ->
  no_match_within (placeholder_of p) 0 pre ("${" +:+ body +:+ "}" +:+ post) = true ->
  body <> EmptyString ->
  all_chars p body = true ->
  callback body = Ok text ->
  replace_all (placeholder_of p) callback post = Ok rest ->
  replace_all (placeholder_of p) callback (pre +:+ "${" +:+ body +:+ "}" +:+ post)
  = Ok (pre +:+ text +:+ rest).
Proof.
  intros Hbrace Hpre Hne Hall Hcb Hpost. unfold replace_all in *.
  rewrite (replace_go_unmatched _ callback pre _ 0 Hpre).
  rewrite (replace_go_placeholder p callback body post _ Hbrace Hne Hall).
  now rewrite Hcb, Hpost.
Qed.

End FirstPlaceholder.

Section Renderer.
Context {num : JSNumber} {realm : Realm}.

(** C9. Rendering is a single pass, for every template. Where a template
    is a text in which no match of the placeholder pattern starts, a
    placeholder and a remainder, the output is that text, then the text
    substituted for the placeholder exactly as the substitution returned
    it, then the rendering of the remainder: what is substituted is never
    scanned for placeholders. A template in which no match starts is
    rendered as itself, and every template is of one of these two forms.
    This holds of [replaceTemplateVars] in [src/index.ts] (a body without a
    closing brace) and of the basic variant (a body over [[\w.]]). *)
Theorem template_single_pass (data : value) :
  (forall pre body post text rest,
      body <> EmptyString ->
      (no_match_within re_placeholder 0 pre ("${" +:+ body +:+ "}" +:+ post) = true ->
       all_chars not_brace body = true ->
       substitute data body = Ok text ->
       replaceTemplateVars post data = Ok rest ->
       replaceTemplateVars (pre +:+ "${" +:+ body +:+ "}" +:+ post) data
       = Ok (pre +:+ text +:+ rest))
      /\ (no_match_within Basic.re_placeholder 0 pre ("${" +:+ body +:+ "}" +:+ post)
          = true ->
          all_chars word_or_dot body = true ->
          Basic.substitute data body = Ok text ->
          Basic.replaceTemplateVars post data = Ok rest ->
          Basic.replaceTemplateVars (pre +:+ "${" +:+ body +:+ "}" +:+ post) data
          = Ok (pre +:+ text +:+ rest)))
  /\ (forall template,
         (no_match_within re_placeholder 0 template EmptyString = true ->
          replaceTemplateVars template data = Ok template)
         /\ (no_match_within Basic.re_placeholder 0 template EmptyString = true ->
             Basic.replaceTemplateVars template data = Ok template))
  /\ (forall template,
         (no_match_within re_placeholder 0 template EmptyString = true
          \/ exists pre body post,
               template = pre +:+ "${" +:+ body +:+ "}" +:+ post
               /\ no_match_within re_placeholder 0 pre
                    ("${" +:+ body +:+ "}" +:+ post) = true
               /\ body <> EmptyString /\ all_chars not_brace body = true)
         /\ (no_match_within Basic.re_placeholder 0 template EmptyString = true
             \/ exists pre body post,
                  template = pre +:+ "${" +:+ body +:+ "}" +:+ post
                  /\ no_match_within Basic.re_placeholder 0 pre
                       ("${" +:+ body +:+ "}" +:+ post) = true
                  /\ body <> EmptyString /\ all_chars word_or_dot body = true)).
Proof.
  split; [|split].
  - intros pre body post text rest Hne. split; intros Hpre Hall Hsub Hpost.
    + now apply (replace_all_first_placeholder not_brace).
    + now apply (replace_all_first_placeholder word_or_dot).
  - intros template. split; intros Hfree.
    + now apply replace_all_unmatched.
    + now apply replace_all_unmatched.
  - intros template. split.
    + apply (first_placeholder not_brace).
    + apply (first_placeholder word_or_dot).
Qed.

End Renderer.

(** ** The rule mapper *)

Section Mapper.
Context {num : JSNumber} {realm : Realm}.


Lemma render_optional_spec (field : option string) (data : value) (o : option string) :
  render_optional field data = Ok o ->
  forall v, o = Some v <-> renders_to field data v.
Proof.
  unfold render_optional, renders_to. destruct field as [template|].
  - destruct (String.eqb template EmptyString) eqn:He; simpl.
    + apply String.eqb_eq in He. intros [= <-] v. split; [discriminate|].
      intros (t & [= <-] & Hne & _). contradiction.
    + apply String.eqb_neq in He.
      destruct (replaceTemplateVars template data) as [s|e] eqn:Hr; simpl;
        [|discriminate].
      intros [= <-] v. split.
      * intros [= <-]. now exists template.
      * intros (t & [= <-] & _ & Hv). congruence.
  - intros [= <-] v. split; [discriminate|]. intros (t & Ht & _). discriminate.
Qed.

Lemma param_of_literal (t b : string) (g i u s : option string) :
  let params :=
    delete_undefined [("title", Some t); ("body", Some b); ("group", g);
                      ("icon", i); ("url", u); ("sound", s)] in
  param "group" params = g /\ param "icon" params = i
  /\ param "url" params = u /\ param "sound" params = s.
Proof. destruct g, i, u, s; repeat split; reflexivity. Qed.

Lemma basic_render_optional_spec (field : option string) (data : value)
    (o : option string) :
  Basic.render_optional field data = Ok o ->
  forall v, o = Some v <-> Basic.renders_to field data v.
Proof.
  unfold Basic.render_optional, Basic.renders_to. destruct field as [template|].
  - destruct (String.eqb template EmptyString) eqn:He; simpl.
    + apply String.eqb_eq in He. intros [= <-] v. split; [discriminate|].
      intros (t & [= <-] & Hne & _). contradiction.
    + apply String.eqb_neq in He.
      destruct (Basic.replaceTemplateVars template data) as [s|e] eqn:Hr; simpl;
        [|discriminate].
      intros [= <-] v. split.
      * intros [= <-]. now exists template.
      * intros (t & [= <-] & _ & Hv). congruence.
  - intros [= <-] v. split; [discriminate|]. intros (t & Ht & _). discriminate.
Qed.

Lemma render_optional_defined (field : option string) (data : value) (o : option string) :
  render_optional field data = Ok o ->
  (exists v, o = Some v) <-> defined_template field.
Proof.
  unfold render_optional, defined_template. destruct field as [template|].
  - destruct (String.eqb template EmptyString) eqn:He; simpl.
    + apply String.eqb_eq in He. intros [= <-]. split; [now intros [v Hv]|].
      intros (t & [= <-] & Hne). contradiction.
    + apply String.eqb_neq in He.
      destruct (replaceTemplateVars template data) as [s|e]; simpl; [|discriminate].
      intros [= <-]. split; [now exists template|now exists s].
  - intros [= <-]. split; [now intros [v Hv]|]. now intros (t & Ht & _).
Qed.

Lemma basic_render_optional_defined (field : option string) (data : value)
    (o : option string) :
  Basic.render_optional field data = Ok o ->
  (exists v, o = Some v) <-> defined_template field.
Proof.
  unfold Basic.render_optional, defined_template. destruct field as [template|].
  - destruct (String.eqb template EmptyString) eqn:He; simpl.
    + apply String.eqb_eq in He. intros [= <-]. split; [now intros [v Hv]|].
      intros (t & [= <-] & Hne). contradiction.
    + apply String.eqb_neq in He.
      destruct (Basic.replaceTemplateVars template data) as [s|e]; simpl; [|discriminate].
      intros [= <-]. split; [now exists template|now exists s].
  - intros [= <-]. split; [now intros [v Hv]|]. now intros (t & Ht & _).
Qed.

(** The keys of the object literal after the deletion of its undefined
    entries: an optional key is there exactly when its entry is defined. *)
Lemma keys_of_literal (t b : string) (g i u s : option string) :
  let params :=
    delete_undefined [("title", Some t); ("body", Some b); ("group", g);
                      ("icon", i); ("url", u); ("sound", s)] in
  (In "group" (map fst params) <-> exists v, g = Some v)
  /\ (In "icon" (map fst params) <-> exists v, i = Some v)
  /\ (In "url" (map fst params) <-> exists v, u = Some v)
  /\ (In "sound" (map fst params) <-> exists v, s = Some v).
Proof.
  assert (Hnone : forall A (P : Prop), (exists v : A, @None A = Some v) -> P)
    by (intros A P [v Hv]; discriminate).
  destruct g, i, u, s; cbn; repeat split;
    try (intros _; eexists; reflexivity);
    try (intros _; tauto);
    try (apply Hnone);
    intros H; repeat (destruct H as [H|H]; [discriminate H|]); destruct H.
Qed.

(** C3, as amended. When the rule mapper of [src/index.ts] returns its
    parameters, each of the keys [group], [icon], [url] and [sound] is
    among them exactly when the rule's mapping defines that field as a
    non-empty template, and its value is then the template renderer's
    output for that template on the payload, the empty string included; a
    field defined as the empty string is left out like an absent one. The
    basic variant does the same for [group], [icon] and [url]. *)
Theorem barkParams_optional_keys (rule : WebhookRule) (data : value) :
  (forall params,
      barkParams rule data = Ok params ->
      forall key field,
        In (key, field) [("group", group (mapping rule)); ("icon", icon (mapping rule));
                         ("url", url (mapping rule)); ("sound", sound (mapping rule))] ->
        (In key (map fst params) <-> defined_template field)
        /\ (forall v, param key params = Some v <-> renders_to field data v))
  /\ (forall params,
        Basic.barkParams rule data = Ok params ->
        forall key field,
          In (key, field) [("group", group (mapping rule)); ("icon", icon (mapping rule));
                           ("url", url (mapping rule))] ->
          (In key (map fst params) <-> defined_template field)
          /\ (forall v, param key params = Some v <-> Basic.renders_to field data v)).
Proof.
  split; intros params.
  - unfold barkParams, barkParams_literal.
    destruct (replaceTemplateVars (title (mapping rule)) data) as [t|]; [|discriminate].
    destruct (replaceTemplateVars (body (mapping rule)) data) as [b|]; [|discriminate].
    cbn [bind].
    destruct (render_optional (group (mapping rule)) data) as [g|] eqn:Hg; [|discriminate].
    destruct (render_optional (icon (mapping rule)) data) as [i|] eqn:Hi; [|discriminate].
    destruct (render_optional (url (mapping rule)) data) as [u|] eqn:Hu; [|discriminate].
    destruct (render_optional (sound (mapping rule)) data) as [s|] eqn:Hs; [|discriminate].
    cbn [bind]. intros Hparams.
    assert (params
            = delete_undefined [("title", Some t); ("body", Some b); ("group", g);
                                ("icon", i); ("url", u); ("sound", s)]) as ->
      by (now injection Hparams).
    pose proof (param_of_literal t b g i u s) as (Pg & Pi & Pu & Ps).
    pose proof (keys_of_literal t b g i u s) as (Kg & Ki & Ku & Ks).
    cbv zeta in *.
    intros key field [[= <- <-]|[[= <- <-]|[[= <- <-]|[[= <- <-]|[]]]]].
    + rewrite Kg, Pg. split; [now apply render_optional_defined with data|].
      now apply render_optional_spec.
    + rewrite Ki, Pi. split; [now apply render_optional_defined with data|].
      now apply render_optional_spec.
    + rewrite Ku, Pu. split; [now apply render_optional_defined with data|].
      now apply render_optional_spec.
    + rewrite Ks, Ps. split; [now apply render_optional_defined with data|].
      now apply render_optional_spec.
  - unfold Basic.barkParams.
    destruct (Basic.replaceTemplateVars (title (mapping rule)) data) as [t|];
      [|discriminate].
    destruct (Basic.replaceTemplateVars (body (mapping rule)) data) as [b|];
      [|discriminate].
    cbn [bind].
    destruct (Basic.render_optional (group (mapping rule)) data) as [g|] eqn:Hg;
      [|discriminate].
    destruct (Basic.render_optional (icon (mapping rule)) data) as [i|] eqn:Hi;
      [|discriminate].
    destruct (Basic.render_optional (url (mapping rule)) data) as [u|] eqn:Hu;
      [|discriminate].
    cbn [bind]. intros Hparams.
    assert (params
            = delete_undefined [("title", Some t); ("body", Some b); ("group", g);
                                ("icon", i); ("url", u);
                                ("sound", sound (mapping rule))]) as ->
      by (now injection Hparams).
    pose proof (param_of_literal t b g i u (sound (mapping rule))) as (Pg & Pi & Pu & _).
    pose proof (keys_of_literal t b g i u (sound (mapping rule))) as (Kg & Ki & Ku & _).
    cbv zeta in *.
    intros key field [[= <- <-]|[[= <- <-]|[[= <- <-]|[]]]].
    + rewrite Kg, Pg. split; [now apply basic_render_optional_defined with data|].
      now apply basic_render_optional_spec.
    + rewrite Ki, Pi. split; [now apply basic_render_optional_defined with data|].
      now apply basic_render_optional_spec.
    + rewrite Ku, Pu. split; [now apply basic_render_optional_defined with data|].
      now apply basic_render_optional_spec.
Qed.

End Mapper.

(** ** The [POST /rules] handler *)

Section Handler.
Context {num : JSNumber}.

(** A request answered with status 400 leaves the store as it was. *)
Lemma post_rules_rejection_keeps_store (kv : kv_store) (request : option value) :
  status (snd (post_rules kv request)) = 400 ->
  fst (post_rules kv request) = kv.
Proof.
  unfold post_rules. destruct request as [rule|]; cbn [bind]; [|reflexivity].
  destruct (validate rule); cbn [bind]; [|reflexivity].
  destruct (saveRule kv rule); cbn [bind]; [|reflexivity].
  destruct (member rule "id"); cbn [bind]; [|reflexivity].
  simpl. discriminate.
Qed.

(** The guard rejects a rule whose [id], [name], [mapping] or [barkUrl] is
    absent or falsy. *)
Lemma validate_rejects (rule : value) (key : string) :
  In key ["id"; "name"; "mapping"; "barkUrl"] ->
  truthy (get_own rule key) = false ->
  exists error, validate rule = Throw error.
Proof.
  intros Hkey Hfalsy.
  destruct (member rule "id") as [v|e] eqn:Hm.
  2: { exists e. unfold validate. now rewrite Hm. }
  assert (Hget : forall k, member rule k = Ok (get_own rule k)).
  { intros k. destruct rule; try reflexivity; discriminate. }
  clear Hm. unfold validate. rewrite !Hget. cbn [bind].
  destruct (truthy (get_own rule "id")) eqn:H1; [|now eexists].
  destruct (truthy (get_own rule "name")) eqn:H2; [|now eexists].
  destruct (truthy (get_own rule "mapping")) eqn:H3; [|now eexists].
  destruct (truthy (get_own rule "barkUrl")) eqn:H4; [|now eexists].
  simpl in Hkey. destruct Hkey as [<-|[<-|[<-|[<-|[]]]]]; congruence.
Qed.

Lemma post_rules_missing_field (kv : kv_store) (rule : value) (key : string) :
  In key ["id"; "name"; "mapping"; "barkUrl"] ->
  truthy (get_own rule key) = false ->
  fst (post_rules kv (Some rule)) = kv
  /\ status (snd (post_rules kv (Some rule))) = 400.
Proof.
  intros Hkey Hfalsy.
  destruct (validate_rejects rule key Hkey Hfalsy) as [e He].
  unfold post_rules. cbn [bind]. rewrite He. now split.
Qed.

End Handler.

(** ** The resolver: composition, completeness and the two variants *)


Lemma all_chars_append (p : ascii -> bool) (a b : string) :
  all_chars p (a +:+ b) = all_chars p a && all_chars p b.
Proof.
  induction a as [|c a IH]; simpl; [reflexivity|].
  now rewrite IH, andb_assoc.
Qed.

(** The simple-path test accepts exactly the non-empty strings over
    [[\w.]]. *)
Lemma simple_path_test (s : string) :
  regex_test re_simple_path s = all_chars word_or_dot s && (1 <=? String.length s).
Proof.
  unfold re_simple_path. simpl seq. rewrite regex_test_anchored.
  unfold match_at. simpl rmatch.
  rewrite rep_greedy_to_end by reflexivity.
  change (fun c : ascii => is_word c || is_char "." c) with word_or_dot.
  destruct (all_chars word_or_dot s && (1 <=? String.length s)); reflexivity.
Qed.

Lemma prefix_char (a c : ascii) (s : string) :
  String.prefix (String a EmptyString) (String c s) = is_char a c.
Proof.
  unfold is_char. cbn [String.prefix]. destruct (ascii_dec a c) as [<-|Hne].
  - rewrite Ascii.eqb_refl. now destruct s.
  - symmetry. apply Ascii.eqb_neq. congruence.
Qed.

(** Splitting at a one-character separator distributes over the
    separator. *)
Lemma split_go_char_append (a : ascii) (x y : string) :
  forall cur,
    split_go (String a EmptyString) (x +:+ String a y) 0 cur
    = split_go (String a EmptyString) x 0 cur
        ++ split_go (String a EmptyString) y 0 EmptyString.
Proof.
  induction x as [|c x IH]; intros cur.
  - cbn [String.append split_go]. rewrite prefix_char.
    unfold is_char. rewrite Ascii.eqb_refl. reflexivity.
  - cbn [String.append split_go]. rewrite !prefix_char.
    destruct (is_char a c); cbn [String.length Nat.sub]; rewrite IH; reflexivity.
Qed.

Lemma split_char_append (a : ascii) (x y : string) :
  split (x +:+ String a EmptyString +:+ y) (String a EmptyString)
  = split x (String a EmptyString) ++ split y (String a EmptyString).
Proof. unfold split. apply split_go_char_append. Qed.

Lemma split_go_not_nil (sep s : string) :
  forall skip cur, split_go sep s skip cur <> [].
Proof.
  induction s as [|c s IH]; intros skip cur; cbn [split_go]; [easy|].
  destruct skip; [|apply IH].
  destruct (String.prefix sep (String c s)); [easy|apply IH].
Qed.

(** A string without the separator is one piece. *)
Lemma split_go_no_char (a : ascii) (s : string) :
  all_chars (is_not a) s = true ->
  forall cur, split_go (String a EmptyString) s 0 cur = [cur +:+ s].
Proof.
  induction s as [|c s IH]; intros Hs cur.
  - simpl. now rewrite append_empty_r.
  - simpl in Hs. apply andb_true_iff in Hs as [Hc Hs].
    cbn [split_go]. rewrite prefix_char.
    unfold is_not in Hc. destruct (is_char a c); [discriminate|].
    rewrite (IH Hs). now rewrite append_assoc.
Qed.

Lemma word_is_not_dot (c : ascii) : is_word c = true -> is_not "." c = true.
Proof.
  unfold is_not, is_char. destruct (Ascii.eqb_spec c ".") as [->|]; [discriminate|reflexivity].
Qed.

Lemma word_is_path_char (c : ascii) : is_word c = true -> is_path_char c = true.
Proof. unfold is_word, is_path_char. intros ->. reflexivity. Qed.

Lemma all_chars_impl (p q : ascii -> bool) (s : string) :
  (forall c, p c = true -> q c = true) ->
  all_chars p s = true -> all_chars q s = true.
Proof.
  intros Hpq. induction s as [|c s IH]; simpl; [reflexivity|].
  rewrite !andb_true_iff. intros [Hc Hs]. split; [now apply Hpq|now apply IH].
Qed.

Section ResolverLaws.
Context {num : JSNumber}.

(** A step from a value that is not an object or array yields
    [undefined]. *)
Lemma path_step_non_object (o : value) (key : string) :
  is_object o = false -> path_step o key = VUndefined.
Proof.
  intros Ho. unfold path_step. destruct (refused_key key); [reflexivity|].
  now rewrite truthy_typeof_object, Ho.
Qed.

Lemma fold_path_step_non_object (keys : list string) (o : value) :
  keys <> [] -> is_object o = false -> fold_left path_step keys o = VUndefined.
Proof.
  destruct keys as [|k ks]; [contradiction|]. intros _ Ho. simpl.
  rewrite path_step_non_object by assumption. apply fold_path_step_undefined.
Qed.

(** What the resolver computes once its guards are passed. *)
Lemma getValueByPath_valid (obj : value) (path : string) :
  path <> EmptyString ->
  all_chars is_path_char path = true ->
  getValueByPath obj path = fold_left path_step (split path ".") obj.
Proof.
  intros Hne Hchars. unfold getValueByPath.
  rewrite valid_path_test, Hchars.
  assert (Hlen : (1 <=? String.length path) = true)
    by (destruct path; [contradiction|reflexivity]).
  rewrite Hlen. cbn [andb negb].
  assert (String.eqb path EmptyString = false) as -> by now apply String.eqb_neq.
  rewrite orb_false_r, <- negb_andb, truthy_typeof_object.
  destruct (is_object obj) eqn:Ho; [reflexivity|].
  symmetry. apply fold_path_step_non_object; [apply split_go_not_nil|assumption].
Qed.

(** X1. Resolution composes: resolving the path [p1.p2] is resolving [p1]
    and then resolving [p2] from the value found, for any two well-formed
    paths and any root. *)
Theorem getValueByPath_compose (obj : value) (p1 p2 : string) :
  p1 <> EmptyString -> all_chars is_path_char p1 = true ->
  p2 <> EmptyString -> all_chars is_path_char p2 = true ->
  getValueByPath obj (p1 +:+ "." +:+ p2)
  = getValueByPath (getValueByPath obj p1) p2.
Proof.
  intros Hne1 Hc1 Hne2 Hc2.
  rewrite (getValueByPath_valid obj (p1 +:+ "." +:+ p2)).
  - rewrite (split_char_append "."), fold_left_app.
    rewrite <- (getValueByPath_valid obj p1) by assumption.
    now rewrite <- getValueByPath_valid.
  - destruct p1; [contradiction|discriminate].
  - rewrite !all_chars_append, Hc1, Hc2. reflexivity.
Qed.

Lemma fold_path_step_own_path (keys : list string) (o v : value) :
  Forall (fun k => refused_key k = false) keys ->
  own_path o keys v ->
  fold_left path_step keys o = v.
Proof.
  intros Hkeys Hpath. induction Hpath as [o|o x v key keys Ho Hown Hpath IH].
  - reflexivity.
  - inversion Hkeys as [|? ? Hk Hks]; subst. simpl.
    unfold path_step at 2. rewrite Hk, truthy_typeof_object, Ho.
    unfold hasOwnProperty, get_own. rewrite Hown. now apply IH.
Qed.

Lemma join_plain_keys (keys : list string) :
  keys <> [] ->
  Forall plain_key keys ->
  join "." keys <> EmptyString
  /\ all_chars is_path_char (join "." keys) = true
  /\ split (join "." keys) "." = keys.
Proof.
  induction keys as [|k keys IH]; [contradiction|]. intros _ Hkeys.
  inversion Hkeys as [|? ? (Hne & Hw & _) Hrest]; subst.
  assert (Hkp : all_chars is_path_char k = true)
    by (eapply all_chars_impl; [apply word_is_path_char|assumption]).
  assert (Hks : split k "." = [k]).
  { unfold split. rewrite (split_go_no_char "."); [reflexivity|].
    eapply all_chars_impl; [apply word_is_not_dot|assumption]. }
  destruct keys as [|k2 keys].
  - simpl. repeat split; assumption.
  - destruct (IH ltac:(discriminate) Hrest) as (Hjne & Hjc & Hjs).
    change (join "." (k :: k2 :: keys)) with (k +:+ "." +:+ join "." (k2 :: keys)).
    repeat split.
    + destruct k; [contradiction|discriminate].
    + rewrite !all_chars_append, Hkp, Hjc. reflexivity.
    + now rewrite (split_char_append "."), Hks, Hjs.
Qed.

(** X2. The resolver finds every value that own properties lead to: for
    keys of word characters, none of them empty or refused, the dotted
    path of the keys resolves to the value they reach. *)
Theorem getValueByPath_finds_own_path (obj v : value) (keys : list string) :
  keys <> [] ->
  Forall plain_key keys ->
  own_path obj keys v ->
  getValueByPath obj (join "." keys) = v.
Proof.
  intros Hne Hkeys Hpath.
  destruct (join_plain_keys keys Hne Hkeys) as (Hjne & Hjc & Hjs).
  rewrite getValueByPath_valid by assumption. rewrite Hjs.
  apply fold_path_step_own_path; [|assumption].
  revert Hkeys. apply List.Forall_impl. now intros k (_ & _ & Hk).
Qed.

End ResolverLaws.

Section ResolverVariants.
Context {num : JSNumber} {realm : Realm}.

Lemma basic_reduce_agrees (keys : list string) :
  forall o v,
    fold_left path_step keys o = v -> v <> VUndefined ->
    Basic.reduce keys (Data o) = Ok (Data v).
Proof.
  induction keys as [|key keys IH]; intros o v Hfold Hv.
  - simpl in Hfold. now subst.
  - cbn [fold_left] in Hfold. cbn [Basic.reduce].
    destruct (path_step o key) as [| |b|n|s|items|props] eqn:Hstep;
      try (rewrite fold_path_step_undefined in Hfold; congruence).
    all: unfold path_step in Hstep;
      destruct (refused_key key); [discriminate|];
      destruct (truthy o) eqn:Ho; [|discriminate];
      destruct (typeof_object o); [|discriminate];
      unfold hasOwnProperty, get_own in Hstep;
      destruct (own_property o key) as [x|] eqn:Hown; [|discriminate];
      cbn [andb] in Hstep; subst x;
      unfold Basic.path_step, Basic.js_truthy, Basic.js_get;
      rewrite Ho, Hown; cbn [bind];
      now apply IH.
Qed.

(** X3. The guards of the richer resolver only remove results: every
    value it finds, the basic resolver finds at the same path. *)
Theorem basic_resolver_finds_what_the_richer_finds (obj v : value) (path : string) :
  getValueByPath obj path = v -> v <> VUndefined ->
  Basic.getValueByPath obj path = Ok (Data v).
Proof.
  unfold getValueByPath, Basic.getValueByPath. intros Hget Hv.
  destruct (negb (truthy obj) || negb (typeof_object obj)
            || String.eqb path EmptyString); [congruence|].
  destruct (negb (regex_test re_valid_path path)); [congruence|].
  now apply basic_reduce_agrees.
Qed.

End ResolverVariants.

(** ** The evaluator: operator selection and operand classes *)

Section EvaluatorLaws.
Context {num : JSNumber}.

(** X4. The entries [>=] and [<=] of the table are never applied: the
    loop gives every condition the value it gives it with the two entries
    removed from the table. *)
Theorem ge_le_entries_are_dead (condition : string) (data : value) :
  evaluate_condition operators condition data
  = evaluate_condition operators_reached condition data.
Proof.
  assert (Hge : includes condition ">=" = true -> includes condition ">" = true)
    by apply (includes_shorter ">" "=").
  assert (Hle : includes condition "<=" = true -> includes condition "<" = true)
    by apply (includes_shorter "<" "=").
  unfold operators_reached, operators. simpl.
  destruct (includes condition "==="); [reflexivity|].
  destruct (includes condition "!=="); [reflexivity|].
  destruct (includes condition "=="); [reflexivity|].
  destruct (includes condition "!="); [reflexivity|].
  destruct (includes condition ">"); [reflexivity|].
  destruct (includes condition "<"); [reflexivity|].
  destruct (includes condition ">="); [now specialize (Hge eq_refl)|].
  destruct (includes condition "<="); [now specialize (Hle eq_refl)|].
  reflexivity.
Qed.

(** X5. An operand made of word characters and dots is resolved as a
    path: the path test comes first, so a numeral such as [10], and [true]
    and [false], are looked up in the payload. *)
Theorem word_operand_is_a_path (data : value) (part : string) :
  trim part <> EmptyString ->
  all_chars word_or_dot (trim part) = true ->
  parse_operand data part
  = {| origin := Some (split (trim part) ".");
       val := getValueByPath data (trim part) |}.
Proof.
  intros Hne Hw. unfold parse_operand. cbv zeta.
  rewrite simple_path_test, Hw.
  destruct (trim part); [contradiction|reflexivity].
Qed.

(** X6. No operand is ever a boolean literal: [true] and [false] pass the
    path test before the comparison with the two words is reached. *)
Theorem operand_is_never_a_boolean_literal (data : value) (part : string) (b : bool) :
  parse_operand data part <> literal (VBool b).
Proof.
  unfold parse_operand, literal. cbv zeta.
  destruct (regex_test re_simple_path (trim part)) eqn:Hpath; [discriminate|].
  destruct (regex_test re_quoted (trim part)); [discriminate|].
  destruct (regex_test re_number (trim part)); [discriminate|].
  destruct (String.eqb_spec (trim part) "true") as [Ht|_].
  { rewrite Ht in Hpath. discriminate. }
  destruct (String.eqb_spec (trim part) "false") as [Hf|_].
  { rewrite Hf in Hpath. discriminate. }
  discriminate.
Qed.

End EvaluatorLaws.

(** ** The evaluator: expressions that are not conditionals *)

Section FailingContinuations.
Context {R : Type}.
Variable Q : string -> Prop.

(** A quantified class fails when the rest of the pattern fails wherever
    the quantifier can stop. *)
Lemma rep_fails (lazy : bool) (p : ascii -> bool) (k : nat -> string -> option R) :
  (forall c s, Q (String c s) -> p c = true -> Q s) ->
  (forall pos s, Q s -> k pos s = None) ->
  forall s min pos, Q s -> rep lazy p min pos s k = None.
Proof.
  intros Hstep Hk s. induction s as [|c s IH]; intros min pos Hs.
  - destruct min, lazy; simpl; try reflexivity; now rewrite Hk.
  - destruct min as [|n]; cbn [rep].
    + destruct lazy.
      * rewrite (Hk pos _ Hs). destruct (p c) eqn:Hc; [|reflexivity].
        apply IH. now apply (Hstep c).
      * destruct (p c) eqn:Hc; [|now apply Hk].
        rewrite IH by now apply (Hstep c). now apply Hk.
    + destruct (p c) eqn:Hc; [|reflexivity].
      apply IH. now apply (Hstep c).
Qed.

Hypothesis Qtail : forall c s, Q (String c s) -> Q s.

(** A pattern fails when the rest of the pattern fails on every input left
    to it. *)
Lemma rmatch_fails (r : regex) :
  forall k : nat -> string -> captures -> option R,
    (forall pos s caps, Q s -> k pos s caps = None) ->
    forall pos s caps, Q s -> rmatch r pos s caps k = None.
Proof.
  induction r as [| |p|r1 IH1 r2 IH2|lazy min p|r IH|i r IH];
    intros k Hk pos s caps Hs; cbn [rmatch].
  - destruct (pos =? 0); [now apply Hk|reflexivity].
  - destruct s; [now apply Hk|reflexivity].
  - destruct s as [|c s]; [reflexivity|].
    destruct (p c); [|reflexivity]. apply Hk. now apply (Qtail c).
  - apply IH1; [|assumption]. intros pos' s' caps' Hs'. now apply IH2.
  - apply rep_fails; [|intros; now apply Hk|assumption].
    intros c s' Hcs _. now apply (Qtail c).
  - rewrite IH by assumption. now apply Hk.
  - apply IH; [|assumption]. intros pos' s' caps' Hs'. now apply Hk.
Qed.

Lemma rmatch_cat_fails (r1 r2 : regex) (k : nat -> string -> captures -> option R) :
  (forall pos s caps, Q s -> rmatch r2 pos s caps k = None) ->
  forall pos s caps, Q s -> rmatch (Cat r1 r2) pos s caps k = None.
Proof.
  intros H2 pos s caps Hs. cbn [rmatch]. now apply rmatch_fails.
Qed.

End FailingContinuations.


(** A pattern that asks for the character [a] fails on an input
    without it. *)
Lemma rmatch_needs_char {R : Type} (a : ascii) (r : regex)
    (k : nat -> string -> captures -> option R) (pos : nat) (s : string)
    (caps : captures) :
  all_chars (is_not a) s = true ->
  rmatch (Cat (Cls (is_char a)) r) pos s caps k = None.
Proof.
  intros Hs. cbn [rmatch]. destruct s as [|c s]; [reflexivity|].
  simpl in Hs. apply andb_true_iff in Hs as [Hc _].
  unfold is_not in Hc. now destruct (is_char a c).
Qed.

Lemma all_chars_tail (p : ascii -> bool) (c : ascii) (s : string) :
  all_chars p (String c s) = true -> all_chars p s = true.
Proof. simpl. now intros [_ H]%andb_true_iff. Qed.

Lemma search_anchored_at_start (r : regex) (s : string) :
  search (Cat Bol r) 0 s = match_at (Cat Bol r) 0 s.
Proof.
  destruct s as [|c s]; simpl.
  - now destruct (match_at (Cat Bol r) 0 EmptyString).
  - destruct (match_at (Cat Bol r) 0 (String c s)); [reflexivity|].
    apply search_anchored.
Qed.

(** The conditional pattern matches no text without a question mark, and
    none without a colon. *)
Lemma ternary_needs_question_mark (expression : string) :
  all_chars (is_not "?") expression = true ->
  ternary_match expression = None.
Proof.
  intros Hs. unfold ternary_match, regex_exec, re_ternary. cbn [seq].
  rewrite search_anchored_at_start. unfold match_at.
  set (Q := fun s => all_chars (is_not "?") s = true).
  assert (Qtail : forall c s, Q (String c s) -> Q s)
    by (intros c s; apply all_chars_tail).
  rewrite (rmatch_cat_fails Q Qtail); [reflexivity| |exact Hs].
  do 3 (apply (rmatch_cat_fails Q Qtail)).
  intros pos s caps Hq. now apply rmatch_needs_char.
Qed.

Lemma ternary_needs_colon (expression : string) :
  all_chars (is_not ":") expression = true ->
  ternary_match expression = None.
Proof.
  intros Hs. unfold ternary_match, regex_exec, re_ternary. cbn [seq].
  rewrite search_anchored_at_start. unfold match_at.
  set (Q := fun s => all_chars (is_not ":") s = true).
  assert (Qtail : forall c s, Q (String c s) -> Q s)
    by (intros c s; apply all_chars_tail).
  rewrite (rmatch_cat_fails Q Qtail); [reflexivity| |exact Hs].
  do 7 (apply (rmatch_cat_fails Q Qtail)).
  intros pos s caps Hq. now apply rmatch_needs_char.
Qed.

Section FallbackLaws.
Context {num : JSNumber}.

(** X7. An expression without a question mark, or without a colon, is
    not a conditional: it is trimmed and resolved as a path. *)
Theorem expression_without_conditional_is_a_path (expression : string) (data : value) :
  all_chars (is_not "?") expression = true
  \/ all_chars (is_not ":") expression = true ->
  evaluateExpression expression data = getValueByPath data (trim expression).
Proof.
  intros H. unfold evaluateExpression, evaluate_body.
  assert (ternary_match expression = None) as ->
    by (destruct H; [now apply ternary_needs_question_mark|now apply ternary_needs_colon]).
  reflexivity.
Qed.

End FallbackLaws.

(** ** The evaluator: how a conditional is cut *)

Lemma trim_start_length (s : string) : String.length (trim_start s) <= String.length s.
Proof.
  induction s as [|c s IH]; simpl; [lia|].
  destruct (is_space c); simpl; lia.
Qed.

Lemma trim_end_length (s : string) : String.length (trim_end s) <= String.length s.
Proof.
  induction s as [|c s IH]; simpl; [lia|].
  destruct (trim_end s); [destruct (is_space c)|]; simpl in *; lia.
Qed.

(** A trimmed, non-empty text starts and ends with a character that is not
    white space. *)
Lemma trimmed_head (x : string) :
  x <> EmptyString -> trim x = x ->
  exists a x', x = String a x' /\ is_space a = false.
Proof.
  destruct x as [|a x']; [contradiction|]. intros _ Htrim.
  exists a, x'. split; [reflexivity|].
  destruct (is_space a) eqn:Ha; [|reflexivity].
  exfalso. unfold trim in Htrim. cbn [trim_start] in Htrim. rewrite Ha in Htrim.
  pose proof (trim_end_length (trim_start x')) as H1.
  pose proof (trim_start_length x') as H2.
  rewrite Htrim in H1. simpl in H1. lia.
Qed.

Lemma trim_end_fixed (x : string) :
  x <> EmptyString -> trim_end x = x ->
  exists u z, x = u +:+ String z EmptyString /\ is_space z = false.
Proof.
  induction x as [|c x IH]; [contradiction|]. intros _ Hfix.
  cbn [trim_end] in Hfix. destruct (trim_end x) as [|b t] eqn:Ht.
  - destruct (is_space c) eqn:Hc; [discriminate|].
    injection Hfix as <-. exists EmptyString, c. now split.
  - injection Hfix as Hx. destruct IH as (u & z & -> & Hz).
    + rewrite <- Hx. discriminate.
    + now symmetry.
    + exists (String c u), z. now split.
Qed.

Lemma trimmed_last (x : string) :
  x <> EmptyString -> trim x = x ->
  exists u z, x = u +:+ String z EmptyString /\ is_space z = false.
Proof.
  intros Hne Htrim.
  destruct (trimmed_head x Hne Htrim) as (a & x' & -> & Ha).
  apply trim_end_fixed; [assumption|].
  unfold trim in Htrim. cbn [trim_start] in Htrim. now rewrite Ha in Htrim.
Qed.

Lemma drop_append (a b : string) (n : nat) :
  n <= String.length a -> drop n (a +:+ b) = drop n a +:+ b.
Proof.
  revert n. induction a as [|c a IH]; intros n Hn.
  - simpl in Hn. assert (n = 0) as -> by lia. now destruct b.
  - destruct n as [|n]; [reflexivity|]. simpl. apply IH. simpl in Hn. lia.
Qed.

Lemma all_chars_drop (p : ascii -> bool) (s : string) (n : nat) :
  all_chars p s = true -> all_chars p (drop n s) = true.
Proof.
  revert n. induction s as [|c s IH]; intros n Hs; [now destruct n|].
  destruct n as [|n]; [assumption|]. simpl. apply IH.
  simpl in Hs. now apply andb_true_iff in Hs as [_ Hs].
Qed.

Section LazyQuantifier.
Context {R : Type}.

(** A lazy quantified class stops at the first length from which the rest
    of the pattern matches. *)
Lemma rep_lazy_stop (p : ascii -> bool) (k : nat -> string -> option R)
    (rest : string) (x : R) :
  forall body min pos,
    all_chars p body = true ->
    min <= String.length body ->
    (forall n, min <= n < String.length body ->
               k (pos + n) (drop n body +:+ rest) = None) ->
    k (pos + String.length body) rest = Some x ->
    rep true p min pos (body +:+ rest) k = Some x.
Proof.
  intros body. induction body as [|b body IH]; intros min pos Hall Hmin Hfail Hk.
  - simpl in Hmin. assert (min = 0) as -> by lia.
    simpl in Hk. rewrite Nat.add_0_r in Hk.
    destruct rest; simpl; now rewrite Hk.
  - simpl in Hall. apply andb_true_iff in Hall as [Hb Hall].
    assert (Hpos : S pos + String.length body = pos + String.length (String b body))
      by (simpl; lia).
    destruct min as [|m]; cbn [String.append rep].
    + pose proof (Hfail 0 ltac:(simpl; lia)) as H0.
      rewrite Nat.add_0_r in H0. cbn [drop String.append] in H0.
      rewrite H0, Hb. apply IH; [assumption|lia| |now rewrite Hpos].
      intros n Hn. specialize (Hfail (S n) ltac:(simpl; lia)).
      now rewrite Nat.add_succ_r in Hfail.
    + rewrite Hb. apply IH; [assumption|simpl in Hmin; lia| |now rewrite Hpos].
      intros n Hn. specialize (Hfail (S n) ltac:(simpl; lia)).
      now rewrite Nat.add_succ_r in Hfail.
Qed.

(** White space followed by a character that is not white space: a greedy
    [\s*] cannot pass that character, so the rest of the pattern fails
    when it fails on every text that ends with it. *)
Lemma guarded_space_fails (q : ascii -> bool) (z : ascii) (tail : string)
    (k : nat -> string -> option R) :
  is_space z = false ->
  (forall pos u, all_chars q u = true -> k pos (u +:+ String z tail) = None) ->
  forall u pos,
    all_chars q u = true ->
    rep false is_space 0 pos (u +:+ String z tail) k = None.
Proof.
  intros Hz Hk u pos Hu.
  apply (rep_fails (fun s => exists u, s = u +:+ String z tail /\ all_chars q u = true)).
  - intros c s (u' & Heq & Hq) Hc. destruct u' as [|c' u'].
    + simpl in Heq. injection Heq as -> _. congruence.
    + cbn [String.append] in Heq. injection Heq as -> ->.
      exists u'. split; [reflexivity|]. now apply all_chars_tail in Hq.
  - intros pos' s (u' & -> & Hq). now apply Hk.
  - now exists u.
Qed.

End LazyQuantifier.

Lemma head_is_not (a : ascii) (u : string) (z : ascii) (tail : string) :
  all_chars (is_not a) u = true -> is_not a z = true ->
  match u +:+ String z tail with
  | String c _ => is_char a c = false
  | EmptyString => False
  end.
Proof.
  intros Hu Hz. destruct u as [|c u]; cbn [String.append].
  - unfold is_not in Hz. now destruct (is_char a z).
  - simpl in Hu. apply andb_true_iff in Hu as [Hc _].
    unfold is_not in Hc. now destruct (is_char a c).
Qed.

Section TernaryParts.
Variables w3 w4 w5 : string.
Variables t f : string.
Hypothesis Hw3 : all_chars is_space w3 = true.
Hypothesis Hw4 : all_chars is_space w4 = true.
Hypothesis Hw5 : all_chars is_space w5 = true.
Hypothesis Ht : trimmed_part t.
Hypothesis Hf : trimmed_part f.
Hypothesis Hcolon : all_chars (is_not ":") t = true.

Local Abbreviation final :=
  (fun (pos' : nat) (_ : string) (caps : captures) => Some (pos', caps)).

(** The last group: white space, the false branch, white space, the end. *)
Lemma match_false_part (pos : nat) (caps : captures) :
  rmatch (seq [star is_space; Grp 3 (lazy_plus is_dot); star is_space; Eol])
    pos (w4 +:+ f +:+ w5) caps final
  = Some (pos + String.length w4 + String.length f + String.length w5,
          (3, f) :: caps).
Proof.
  destruct Hf as (Hne & Htrim & Hdot).
  destruct (trimmed_head f Hne Htrim) as (a & f' & Hhead & Ha).
  destruct (trimmed_last f Hne Htrim) as (u & z & Hlast & Hz).
  cbn [seq rmatch star lazy_plus].
  apply rep_greedy_stop; [|assumption|lia|].
  { rewrite Hhead. cbn [String.append]. now rewrite Ha. }
  apply rep_lazy_stop; [assumption|rewrite Hhead; simpl; lia| |].
  - intros n Hn.
    assert (Hlen : String.length f = S (String.length u))
      by (rewrite Hlast, append_length; simpl; lia).
    rewrite Hlast, drop_append, append_assoc by lia. cbn [String.append].
    apply (guarded_space_fails (fun _ => true)); [assumption| |].
    + intros pos' u' _. now destruct u'.
    + clear. induction (drop n u); [reflexivity|assumption].
  - rewrite <- (append_empty_r w5) at 1.
    apply rep_greedy_stop; [reflexivity|assumption|lia|].
    do 2 f_equal.
    replace (pos + String.length w4 + String.length f - (pos + String.length w4))
      with (String.length f) by lia.
    now rewrite take_append.
Qed.

(** From the true branch on: white space, the true branch up to the first
    colon, and the last group. *)
Lemma match_true_part (w2 : string) (pos : nat) (caps : captures) :
  all_chars is_space w2 = true ->
  rmatch (seq [star is_space; Grp 2 (lazy_plus is_dot); star is_space;
               Cls (is_char ":"); star is_space; Grp 3 (lazy_plus is_dot);
               star is_space; Eol])
    pos (w2 +:+ t +:+ w3 +:+ ":" +:+ w4 +:+ f +:+ w5) caps final
  = Some (pos + String.length w2 + String.length t + String.length w3 + 1
            + String.length w4 + String.length f + String.length w5,
          (3, f) :: (2, t) :: caps).
Proof.
  intros Hw2.
  destruct Ht as (Hne & Htrim & Hdot).
  destruct (trimmed_head t Hne Htrim) as (a & t' & Hhead & Ha).
  destruct (trimmed_last t Hne Htrim) as (u & z & Hlast & Hz).
  change (seq [star is_space; Grp 2 (lazy_plus is_dot); star is_space;
               Cls (is_char ":"); star is_space; Grp 3 (lazy_plus is_dot);
               star is_space; Eol])
    with (Cat (star is_space) (Cat (Grp 2 (lazy_plus is_dot)) (Cat (star is_space)
           (Cat (Cls (is_char ":"))
              (seq [star is_space; Grp 3 (lazy_plus is_dot); star is_space; Eol]))))).
  cbn [rmatch star lazy_plus].
  apply rep_greedy_stop; [|assumption|lia|].
  { rewrite Hhead. cbn [String.append]. now rewrite Ha. }
  apply rep_lazy_stop; [assumption|rewrite Hhead; simpl; lia| |].
  - intros n Hn.
    assert (Hlen : String.length t = S (String.length u))
      by (rewrite Hlast, append_length; simpl; lia).
    assert (Hu : all_chars (is_not ":") u = true /\ is_not ":" z = true).
    { rewrite Hlast, all_chars_append in Hcolon. simpl in Hcolon.
      rewrite andb_true_r in Hcolon. now apply andb_true_iff in Hcolon. }
    rewrite Hlast, drop_append, append_assoc by lia. cbn [String.append].
    apply (guarded_space_fails (is_not ":")); [assumption| |].
    + intros pos' u' Hu'.
      pose proof (head_is_not ":" u' z (w3 +:+ String ":" (w4 +:+ f +:+ w5)) Hu' (proj2 Hu)) as Hh.
      destruct (u' +:+ String z (w3 +:+ String ":" (w4 +:+ f +:+ w5))); [reflexivity|].
      now rewrite Hh.
    + apply all_chars_drop, Hu.
  - apply rep_greedy_stop; [reflexivity|assumption|lia|].
    cbn [String.append]. change (is_char ":" ":") with true. cbn match.
    rewrite match_false_part. do 2 f_equal; [lia|].
    do 2 f_equal.
    replace (pos + String.length w2 + String.length t - (pos + String.length w2))
      with (String.length t) by lia.
    now rewrite take_append.
Qed.

End TernaryParts.

Lemma ternary_match_parts (w0 c w1 w2 t w3 w4 f w5 : string) :
  all_chars is_space w0 = true -> all_chars is_space w1 = true ->
  all_chars is_space w2 = true -> all_chars is_space w3 = true ->
  all_chars is_space w4 = true -> all_chars is_space w5 = true ->
  trimmed_part c -> trimmed_part t -> trimmed_part f ->
  all_chars (is_not "?") c = true ->
  all_chars (is_not ":") t = true ->
  ternary_match
    (w0 +:+ c +:+ w1 +:+ "?" +:+ w2 +:+ t +:+ w3 +:+ ":" +:+ w4 +:+ f +:+ w5)
  = Some (c, t, f).
Proof.
  intros Hw0 Hw1 Hw2 Hw3 Hw4 Hw5 Hc Ht Hf Hq Hcolon.
  destruct Hc as (Hne & Htrim & Hdot).
  destruct (trimmed_head c Hne Htrim) as (a & c' & Hhead & Ha).
  destruct (trimmed_last c Hne Htrim) as (u & z & Hlast & Hz).
  unfold ternary_match, regex_exec, re_ternary.
  change (seq [Bol; star is_space; Grp 1 (lazy_plus is_dot); star is_space;
               Cls (is_char "?"); star is_space; Grp 2 (lazy_plus is_dot);
               star is_space; Cls (is_char ":"); star is_space;
               Grp 3 (lazy_plus is_dot); star is_space; Eol])
    with (Cat Bol (Cat (star is_space) (Cat (Grp 1 (lazy_plus is_dot))
           (Cat (star is_space) (Cat (Cls (is_char "?"))
              (seq [star is_space; Grp 2 (lazy_plus is_dot); star is_space;
                    Cls (is_char ":"); star is_space; Grp 3 (lazy_plus is_dot);
                    star is_space; Eol])))))).
  rewrite search_anchored_at_start. unfold match_at.
  match goal with
  | |- match ?m with _ => _ end = _ =>
      assert (m = Some (String.length w0 + String.length c + String.length w1 + 1
                          + String.length w2 + String.length t + String.length w3 + 1
                          + String.length w4 + String.length f + String.length w5,
                        [(3, f); (2, t); (1, c)])) as ->; [|reflexivity]
  end.
  cbn [rmatch star lazy_plus Nat.eqb].
  apply rep_greedy_stop; [|assumption|lia|].
  { rewrite Hhead. cbn [String.append]. now rewrite Ha. }
  apply rep_lazy_stop; [assumption|rewrite Hhead; simpl; lia| |].
  - intros n Hn.
    assert (Hlen : String.length c = S (String.length u))
      by (rewrite Hlast, append_length; simpl; lia).
    assert (Hu : all_chars (is_not "?") u = true /\ is_not "?" z = true).
    { rewrite Hlast, all_chars_append in Hq. simpl in Hq.
      rewrite andb_true_r in Hq. now apply andb_true_iff in Hq. }
    rewrite Hlast, drop_append, append_assoc by lia. cbn [String.append].
    apply (guarded_space_fails (is_not "?")); [assumption| |].
    + intros pos' u' Hu'.
      match goal with
      | |- match u' +:+ String z ?tail with _ => _ end = None =>
          pose proof (head_is_not "?" u' z tail Hu' (proj2 Hu)) as Hh;
          destruct (u' +:+ String z tail); [reflexivity|now rewrite Hh]
      end.
    + apply all_chars_drop, Hu.
  - apply rep_greedy_stop; [reflexivity|assumption|lia|].
    cbn [String.append]. change (is_char "?" "?") with true. cbn match.
    pose proof (match_true_part w3 w4 w5 t f Hw3 Hw4 Hw5 Ht Hf Hcolon w2) as Hm.
    rewrite Hm by assumption.
    do 2 f_equal; [lia|]. do 3 f_equal.
    replace (0 + String.length w0 + String.length c - (0 + String.length w0))
      with (String.length c) by lia.
    now rewrite take_append.
Qed.

(** X8. The conditional pattern cuts an expression at its first question
    mark and at the first colon after it: the condition is the text before
    the question mark, the true branch the text up to that colon, the
    false branch all the rest (further question marks and colons
    included), each without the white space around it. *)
Theorem ternary_cut_at_first_marks (w0 c w1 w2 t w3 w4 f w5 : string) :
  all_chars is_space w0 = true -> all_chars is_space w1 = true ->
  all_chars is_space w2 = true -> all_chars is_space w3 = true ->
  all_chars is_space w4 = true -> all_chars is_space w5 = true ->
  trimmed_part c -> trimmed_part t -> trimmed_part f ->
  all_chars (is_not "?") c = true ->
  all_chars (is_not ":") t = true ->
  ternary_match
    (w0 +:+ c +:+ w1 +:+ "?" +:+ w2 +:+ t +:+ w3 +:+ ":" +:+ w4 +:+ f +:+ w5)
  = Some (c, t, f).
Proof. apply ternary_match_parts. Qed.

(** ** The evaluator: the equality conditional *)

Lemma trim_start_spaces (w s : string) :
  all_chars is_space w = true -> trim_start (w +:+ s) = trim_start s.
Proof.
  induction w as [|c w IH]; simpl; [reflexivity|].
  intros [Hc Hw]%andb_true_iff. rewrite Hc. now apply IH.
Qed.

Lemma trim_end_spaces (w : string) :
  all_chars is_space w = true -> trim_end w = EmptyString.
Proof.
  induction w as [|c w IH]; simpl; [reflexivity|].
  intros [Hc Hw]%andb_true_iff. now rewrite (IH Hw), Hc.
Qed.

Lemma trim_end_last (u w : string) (z : ascii) :
  is_space z = false -> all_chars is_space w = true ->
  trim_end (u +:+ String z w) = u +:+ String z EmptyString.
Proof.
  intros Hz Hw. induction u as [|c u IH]; cbn [String.append trim_end].
  - now rewrite (trim_end_spaces w Hw), Hz.
  - rewrite IH. now destruct u.
Qed.

(** White space around a text that starts and ends with other characters
    is what [trim] removes. *)
Lemma trim_shape (w w' x' u : string) (a z : ascii) :
  all_chars is_space w = true -> all_chars is_space w' = true ->
  is_space a = false -> is_space z = false ->
  String a x' = u +:+ String z EmptyString ->
  trim (w +:+ String a x' +:+ w') = String a x'.
Proof.
  intros Hw Hw' Ha Hz Hx. unfold trim.
  rewrite trim_start_spaces by assumption.
  cbn [String.append trim_start]. rewrite Ha.
  change (String a (x' +:+ w')) with (String a x' +:+ w').
  rewrite Hx, append_assoc. cbn [String.append].
  now apply trim_end_last.
Qed.

Lemma word_or_dot_not_space (c : ascii) : word_or_dot c = true -> is_space c = false.
Proof. destruct c as [[] [] [] [] [] [] [] []]; try reflexivity; discriminate. Qed.

Lemma word_or_dot_is_dot (c : ascii) : word_or_dot c = true -> is_dot c = true.
Proof. destruct c as [[] [] [] [] [] [] [] []]; try reflexivity; discriminate. Qed.

Lemma quote_not_space (q : ascii) : is_quote q = true -> is_space q = false.
Proof. destruct q as [[] [] [] [] [] [] [] []]; try reflexivity; discriminate. Qed.

Lemma quote_is_dot (q : ascii) : is_quote q = true -> is_dot q = true.
Proof. destruct q as [[] [] [] [] [] [] [] []]; try reflexivity; discriminate. Qed.

Lemma quote_not_word (q : ascii) : is_quote q = true -> word_or_dot q = false.
Proof. destruct q as [[] [] [] [] [] [] [] []]; try reflexivity; discriminate. Qed.

Lemma quote_is_not (a q : ascii) :
  is_quote a = false -> is_quote q = true -> is_not a q = true.
Proof.
  intros Ha Hq. unfold is_not, is_char.
  destruct (Ascii.eqb_spec q a) as [->|]; [congruence|reflexivity].
Qed.

Lemma substring_start (a b : string) :
  String.substring 0 (String.length a) (a +:+ b) = a.
Proof.
  induction a as [|c a IH]; simpl; [now destruct b|now rewrite IH].
Qed.

Lemma unquote_quoted (q : ascii) (s : string) : unquote (quoted q s) = s.
Proof.
  unfold unquote, quoted, substring. cbn [String.length].
  rewrite append_length. cbn [String.length].
  set (n := String.length s).
  replace (Z.min (Z.max 1 0) (Z.of_nat (S (n + 1)))) with 1%Z by lia.
  replace (Z.min (Z.max (Z.of_nat (S (n + 1)) - 1) 0) (Z.of_nat (S (n + 1))))
    with (Z.of_nat (S n)) by lia.
  replace (Z.min 1 (Z.of_nat (S n))) with 1%Z by lia.
  replace (Z.max 1 (Z.of_nat (S n))) with (Z.of_nat (S n)) by lia.
  replace (Z.to_nat (Z.of_nat (S n) - 1)) with n by lia.
  change (Z.to_nat 1) with 1. cbn [String.substring].
  apply substring_start.
Qed.

Section GreedyBacktrack.
Context {R : Type}.

(** A greedy quantified class gives back the last character when the rest
    of the pattern needs it. *)
Lemma rep_greedy_last (p : ascii -> bool) (k : nat -> string -> option R)
    (z : ascii) (x : R) :
  (forall pos, k pos EmptyString = None) ->
  forall body pos,
    all_chars p body = true ->
    k (pos + String.length body) (String z EmptyString) = Some x ->
    rep false p 0 pos (body +:+ String z EmptyString) k = Some x.
Proof.
  intros Hend body. induction body as [|b body IH]; intros pos Hall Hk.
  - simpl in Hk. rewrite Nat.add_0_r in Hk. cbn [String.append rep].
    rewrite Hend. now destruct (p z).
  - simpl in Hall. apply andb_true_iff in Hall as [Hb Hall].
    cbn [String.append rep]. rewrite Hb.
    rewrite (IH (S pos)); [reflexivity|assumption|].
    now replace (S pos + String.length body)
      with (pos + String.length (String b body)) by (simpl; lia).
Qed.

End GreedyBacktrack.

(** The literal test accepts a text between two quotes. *)
Lemma quoted_test (q : ascii) (s : string) :
  is_quote q = true -> all_chars is_dot s = true ->
  regex_test re_quoted (quoted q s) = true.
Proof.
  intros Hq Hs. unfold re_quoted. cbn [seq]. rewrite regex_test_anchored.
  unfold match_at, quoted. cbn [rmatch star Nat.eqb]. rewrite Hq.
  erewrite rep_greedy_last; [reflexivity|reflexivity|assumption|].
  cbn. now rewrite Hq.
Qed.

Lemma quoted_not_path (q : ascii) (s : string) :
  is_quote q = true -> regex_test re_simple_path (quoted q s) = false.
Proof.
  intros Hq. rewrite simple_path_test. unfold quoted. cbn [all_chars].
  now rewrite (quote_not_word q Hq).
Qed.

Lemma quoted_trimmed (q : ascii) (s : string) :
  is_quote q = true -> all_chars is_dot s = true -> trimmed_part (quoted q s).
Proof.
  intros Hq Hs. unfold trimmed_part, quoted. split; [discriminate|]. split.
  - rewrite <- (append_empty_r (String q (s +:+ String q EmptyString))) at 1.
    apply (trim_shape EmptyString EmptyString _ (String q s) q q);
      try reflexivity; now apply quote_not_space.
  - cbn [all_chars]. rewrite all_chars_append. cbn [all_chars].
    rewrite Hs, (quote_is_dot q Hq). reflexivity.
Qed.

Lemma quoted_all_chars (p : ascii -> bool) (q : ascii) (s : string) :
  p q = true -> all_chars p s = true -> all_chars p (quoted q s) = true.
Proof.
  intros Hq Hs. unfold quoted. cbn [all_chars]. rewrite all_chars_append.
  cbn [all_chars]. rewrite Hs, Hq. reflexivity.
Qed.

(** A non-empty text ends with a character, which is in every class the
    text is in. *)
Lemma last_char (p : ascii -> bool) (s : string) :
  s <> EmptyString -> all_chars p s = true ->
  exists u z, s = u +:+ String z EmptyString /\ p z = true.
Proof.
  induction s as [|c s IH]; [contradiction|]. intros _ Hs.
  simpl in Hs. apply andb_true_iff in Hs as [Hc Hs].
  destruct s as [|c' s'].
  - exists EmptyString, c. now split.
  - destruct (IH ltac:(discriminate) Hs) as (u & z & -> & Hz).
    exists (String c u), z. now split.
Qed.

Lemma first_index_cons (sub : string) (c : ascii) (s : string) :
  first_index sub (String c s)
  = if String.prefix sub (String c s) then Some 0
    else option_map S (first_index sub s).
Proof. reflexivity. Qed.

Lemma prefix_other_head (h c : ascii) (sep' s : string) :
  is_not h c = true -> String.prefix (String h sep') (String c s) = false.
Proof.
  intros Hc. cbn [String.prefix]. destruct (ascii_dec h c) as [<-|_]; [|reflexivity].
  unfold is_not, is_char in Hc. now rewrite Ascii.eqb_refl in Hc.
Qed.

(** The first occurrence of a separator after a text without the
    separator's first character. *)
Lemma first_index_after (h : ascii) (sep' a b : string) :
  all_chars (is_not h) a = true ->
  first_index (String h sep') (a +:+ String h sep' +:+ b) = Some (String.length a).
Proof.
  induction a as [|c a IH]; intros Ha.
  - cbn [String.append]. rewrite first_index_cons.
    change (String h (sep' +:+ b)) with (String h sep' +:+ b).
    now rewrite prefix_append.
  - simpl in Ha. apply andb_true_iff in Ha as [Hc Ha].
    change (String c a +:+ String h sep' +:+ b)
      with (String c (a +:+ String h sep' +:+ b)).
    rewrite first_index_cons, prefix_other_head by assumption.
    now rewrite (IH Ha).
Qed.

Lemma first_index_absent (h : ascii) (sep' s : string) :
  all_chars (is_not h) s = true -> first_index (String h sep') s = None.
Proof.
  induction s as [|c s IH]; intros Hs; [reflexivity|].
  simpl in Hs. apply andb_true_iff in Hs as [Hc Hs].
  rewrite first_index_cons, prefix_other_head by assumption.
  now rewrite (IH Hs).
Qed.

Lemma drop_length_append (a b : string) : drop (String.length a) (a +:+ b) = b.
Proof. induction a as [|c a IH]; simpl; [now destruct b|assumption]. Qed.

Section EqualityConditional.
Context {num : JSNumber}.

(** [path === 'lit'] as a condition. *)
Lemma equality_condition (data : value) (path lit : string) (q : ascii) :
  path <> EmptyString -> all_chars word_or_dot path = true ->
  is_quote q = true -> all_chars literal_text lit = true ->
  evaluate_condition operators (path +:+ " === " +:+ quoted q lit) data
  = Ok (VBool match getValueByPath data path with
              | VString s => String.eqb s lit
              | _ => false
              end).
Proof.
  intros Hne Hpath Hq Hlit.
  assert (Hword : forall c, word_or_dot c = true -> is_not "=" c = true).
  { intros c. destruct c as [[] [] [] [] [] [] [] []]; try reflexivity; discriminate. }
  assert (Hleft : all_chars (is_not "=") (path +:+ " ") = true).
  { rewrite all_chars_append. rewrite (all_chars_impl _ _ _ Hword Hpath). reflexivity. }
  assert (Hright : all_chars (is_not "=") (" " +:+ quoted q lit) = true).
  { cbn [String.append all_chars]. change (is_not "=" " ") with true. cbn [andb].
    apply quoted_all_chars.
    - apply quote_is_not; [reflexivity|assumption].
    - eapply all_chars_impl; [|exact Hlit].
      intros c. unfold literal_text. now intros [_ H]%andb_true_iff. }
  assert (Hcond : path +:+ " === " +:+ quoted q lit
                  = (path +:+ " ") +:+ "===" +:+ (" " +:+ quoted q lit)).
  { rewrite append_assoc. reflexivity. }
  assert (Hidx : first_index "===" (path +:+ " === " +:+ quoted q lit)
                 = Some (String.length (path +:+ " "))).
  { rewrite Hcond. now apply first_index_after. }
  assert (Hsplit : split (path +:+ " === " +:+ quoted q lit) "==="
                   = [path +:+ " "; " " +:+ quoted q lit]).
  { unfold split.
    rewrite (split_go_first "===" _ ltac:(discriminate) _ EmptyString Hidx).
    rewrite Hcond, take_append.
    replace (String.length (path +:+ " ") + String.length "===")
      with (String.length ((path +:+ " ") +:+ "===")) by now rewrite append_length.
    rewrite <- (append_assoc (path +:+ " ") "===" (" " +:+ quoted q lit)).
    rewrite drop_length_append.
    now rewrite (split_go_none "===" _ _ (first_index_absent "=" "==" _ Hright)). }
  unfold operators. cbn [evaluate_condition].
  rewrite first_index_includes, Hidx.
  unfold operands. rewrite Hsplit. cbn [map nth String.append].
  destruct path as [|a path'] eqn:Hp; [contradiction|]. rewrite <- Hp in *.
  assert (Htl : trim (path +:+ " ") = path).
  { destruct (last_char word_or_dot path Hne Hpath) as (u & z & Hu & Hz).
    rewrite Hp in Hu, Hpath |- *.
    simpl in Hpath. apply andb_true_iff in Hpath as [Ha _].
    apply (trim_shape EmptyString " " path' u a z); try reflexivity; try assumption;
      now apply word_or_dot_not_space. }
  assert (Htr : trim (String " " (quoted q lit)) = quoted q lit).
  { unfold quoted.
    rewrite <- (append_empty_r (String q (lit +:+ String q EmptyString))) at 1.
    apply (trim_shape " " EmptyString _ (String q lit) q q);
      try reflexivity; now apply quote_not_space. }
  unfold parse_operand. cbv zeta. rewrite Htl, Htr.
  rewrite simple_path_test, Hpath.
  assert ((1 <=? String.length path) = true) as -> by (rewrite Hp; reflexivity).
  cbn [andb]. rewrite quoted_not_path by assumption.
  rewrite quoted_test; [|assumption|].
  2:{ eapply all_chars_impl; [|exact Hlit]. intros c. unfold literal_text.
      now intros [[H _]%andb_true_iff _]%andb_true_iff. }
  rewrite unquote_quoted. cbn [fst snd]. unfold strict_equal, literal. cbn [val].
  now destruct (getValueByPath data path).
Qed.

End EqualityConditional.

Section EqualityConditionalTheorem.
Context {num : JSNumber}.

Lemma branch_value_quoted (data : value) (q : ascii) (s : string) :
  is_quote q = true -> all_chars is_dot s = true ->
  branch_value data (quoted q s) = VString s.
Proof.
  intros Hq Hs. unfold branch_value.
  now rewrite quoted_test, unquote_quoted.
Qed.

Lemma equality_condition_trimmed (path lit : string) (q : ascii) :
  path <> EmptyString -> all_chars word_or_dot path = true ->
  is_quote q = true -> all_chars literal_text lit = true ->
  trimmed_part (path +:+ " === " +:+ quoted q lit)
  /\ all_chars (is_not "?") (path +:+ " === " +:+ quoted q lit) = true.
Proof.
  intros Hne Hpath Hq Hlit.
  assert (Hdot : all_chars is_dot lit = true).
  { eapply all_chars_impl; [|exact Hlit]. intros c. unfold literal_text.
    now intros [[H _]%andb_true_iff _]%andb_true_iff. }
  assert (Hnq : all_chars (is_not "?") lit = true).
  { eapply all_chars_impl; [|exact Hlit]. intros c. unfold literal_text.
    now intros [[_ H]%andb_true_iff _]%andb_true_iff. }
  assert (Hword : forall c, word_or_dot c = true -> is_not "?" c = true).
  { intros c. destruct c as [[] [] [] [] [] [] [] []]; try reflexivity; discriminate. }
  split; [split; [|split]|].
  - destruct path; [contradiction|discriminate].
  - destruct path as [|a path']; [contradiction|].
    simpl in Hpath. apply andb_true_iff in Hpath as [Ha _].
    cbn [String.append].
    rewrite <- (append_empty_r (String a (path' +:+ " === " +:+ quoted q lit))) at 1.
    apply (trim_shape EmptyString EmptyString _
             (String a path' +:+ " === " +:+ String q lit) a q);
      try reflexivity.
    + now apply word_or_dot_not_space.
    + now apply quote_not_space.
    + unfold quoted. cbn [String.append]. f_equal.
      rewrite !append_assoc. reflexivity.
  - rewrite !all_chars_append.
    rewrite (all_chars_impl _ _ _ word_or_dot_is_dot Hpath).
    rewrite (quoted_all_chars is_dot q lit (quote_is_dot q Hq) Hdot). reflexivity.
  - rewrite !all_chars_append.
    rewrite (all_chars_impl _ _ _ Hword Hpath).
    rewrite (quoted_all_chars (is_not "?") q lit); [reflexivity| |assumption].
    apply quote_is_not; [reflexivity|assumption].
Qed.

(** X9. The documented conditional. For a path, a literal and two branch
    literals, [path === 'lit' ? 'yes' : 'no'] is [yes] when the payload
    holds the string [lit] at the path and [no] otherwise, provided the
    literal has no question mark and no equals sign and the true branch
    has no colon. *)
Theorem equality_conditional (data : value) (path lit yes no : string)
    (ql qy qn : ascii) :
  path <> EmptyString -> all_chars word_or_dot path = true ->
  is_quote ql = true -> is_quote qy = true -> is_quote qn = true ->
  all_chars literal_text lit = true ->
  all_chars branch_text yes = true ->
  all_chars is_dot no = true ->
  evaluateExpression
    (path +:+ " === " +:+ quoted ql lit +:+ " ? " +:+ quoted qy yes
       +:+ " : " +:+ quoted qn no) data
  = VString (if match getValueByPath data path with
                | VString s => String.eqb s lit
                | _ => false
                end
             then yes else no).
Proof.
  intros Hne Hpath Hql Hqy Hqn Hlit Hyes Hno.
  destruct (equality_condition_trimmed path lit ql Hne Hpath Hql Hlit) as [Hc Hcq].
  assert (Hydot : all_chars is_dot yes = true).
  { eapply all_chars_impl; [|exact Hyes]. intros c. unfold branch_text.
    now intros [H _]%andb_true_iff. }
  assert (Hycolon : all_chars (is_not ":") (quoted qy yes) = true).
  { apply quoted_all_chars; [apply quote_is_not; [reflexivity|assumption]|].
    eapply all_chars_impl; [|exact Hyes]. intros c. unfold branch_text.
    now intros [_ H]%andb_true_iff. }
  assert (Hexpr : path +:+ " === " +:+ quoted ql lit +:+ " ? " +:+ quoted qy yes
                    +:+ " : " +:+ quoted qn no
                  = EmptyString +:+ (path +:+ " === " +:+ quoted ql lit) +:+ " " +:+ "?"
                      +:+ " " +:+ quoted qy yes +:+ " " +:+ ":" +:+ " "
                      +:+ quoted qn no +:+ EmptyString).
  { rewrite !append_assoc, append_empty_r. reflexivity. }
  unfold evaluateExpression, evaluate_body.
  rewrite Hexpr, ternary_match_parts;
    try reflexivity; try assumption; try (now apply quoted_trimmed).
  rewrite equality_condition by assumption. cbn [bind truthy].
  rewrite !branch_value_quoted by assumption.
  now destruct (match getValueByPath data path with
                | VString s => String.eqb s lit
                | _ => false
                end).
Qed.

End EqualityConditionalTheorem.

(** ** The evaluator: a colon inside a branch literal *)

Ltac normalize_append :=
  repeat first [ rewrite append_assoc | rewrite append_empty_r
               | progress cbn [String.append] ].

Section ColonInBranch.
Context {num : JSNumber}.

Lemma not_quoted_head (c : ascii) (s : string) :
  is_quote c = false -> regex_test re_quoted (String c s) = false.
Proof.
  intros Hc. unfold re_quoted. cbn [seq]. rewrite regex_test_anchored.
  unfold match_at. cbn [rmatch Nat.eqb]. now rewrite Hc.
Qed.

Lemma not_quoted_without_quote (q : ascii) (s : string) :
  all_chars (fun c => negb (is_quote c)) s = true ->
  regex_test re_quoted (String q s) = false.
Proof.
  intros Hs. unfold re_quoted. cbn [seq]. rewrite regex_test_anchored.
  unfold match_at. cbn [rmatch star Nat.eqb].
  destruct (is_quote q); [|reflexivity].
  rewrite (rep_fails (fun s => all_chars (fun c => negb (is_quote c)) s = true));
    [reflexivity| | |assumption].
  - intros c s' Hcs _. now apply all_chars_tail in Hcs.
  - intros pos [|c s'] Hq; [reflexivity|].
    simpl in Hq. apply andb_true_iff in Hq as [Hc _].
    now destruct (is_quote c).
Qed.

(** A text with a character outside the path alphabet resolves to
    nothing. *)
Lemma getValueByPath_not_a_path (data : value) (path : string) :
  all_chars is_path_char path = false -> getValueByPath data path = VUndefined.
Proof.
  intros Hp. unfold getValueByPath. rewrite valid_path_test, Hp. cbn [andb negb].
  now destruct (negb (truthy data) || negb (typeof_object data)
                || String.eqb path EmptyString).
Qed.

(** X10. A branch literal that holds a URL is cut at the colon of the
    URL. In [path === 'lit' ? 'scheme://rest' : 'no'] the true branch is
    the text up to the colon and the false branch starts after it, neither
    is a literal or a path, and the conditional evaluates to [undefined]
    whatever the payload. *)
Theorem url_literal_in_true_branch (data : value) (path lit scheme rest no : string)
    (ql qy qn : ascii) :
  path <> EmptyString -> all_chars word_or_dot path = true ->
  is_quote ql = true -> is_quote qy = true -> is_quote qn = true ->
  all_chars literal_text lit = true ->
  scheme <> EmptyString -> all_chars is_word scheme = true ->
  all_chars url_text rest = true ->
  all_chars is_dot no = true ->
  evaluateExpression
    (path +:+ " === " +:+ quoted ql lit +:+ " ? "
       +:+ quoted qy (scheme +:+ "://" +:+ rest) +:+ " : " +:+ quoted qn no) data
  = VUndefined.
Proof.
  intros Hne Hpath Hql Hqy Hqn Hlit Hsne Hscheme Hrest Hno.
  destruct (equality_condition_trimmed path lit ql Hne Hpath Hql Hlit) as [Hc Hcq].
  set (t := String qy scheme).
  set (f := "//" +:+ rest +:+ String qy (" : " +:+ quoted qn no)).
  assert (Hrdot : all_chars is_dot rest = true).
  { eapply all_chars_impl; [|exact Hrest]. intros c. unfold url_text.
    now intros [H _]%andb_true_iff. }
  assert (Hsw : all_chars word_or_dot scheme = true).
  { eapply all_chars_impl; [|exact Hscheme]. intros c Hc'. unfold word_or_dot.
    now rewrite Hc'. }
  assert (Hexpr : path +:+ " === " +:+ quoted ql lit +:+ " ? "
                    +:+ quoted qy (scheme +:+ "://" +:+ rest) +:+ " : " +:+ quoted qn no
                  = EmptyString +:+ (path +:+ " === " +:+ quoted ql lit) +:+ " " +:+ "?"
                      +:+ " " +:+ t +:+ EmptyString +:+ ":" +:+ EmptyString
                      +:+ f +:+ EmptyString).
  { unfold t, f, quoted. now normalize_append. }
  assert (Ht : trimmed_part t).
  { destruct (last_char word_or_dot scheme Hsne Hsw) as (u & z & Hu & Hz).
    unfold trimmed_part, t. split; [discriminate|]. split.
    - rewrite <- (append_empty_r (String qy scheme)) at 1.
      apply (trim_shape EmptyString EmptyString _ (String qy u) qy z);
        try reflexivity.
      + now apply quote_not_space.
      + now apply word_or_dot_not_space.
      + now rewrite Hu.
    - cbn [all_chars]. rewrite (quote_is_dot qy Hqy).
      now rewrite (all_chars_impl _ _ _ word_or_dot_is_dot Hsw). }
  assert (Htcolon : all_chars (is_not ":") t = true).
  { unfold t. cbn [all_chars].
    rewrite (quote_is_not ":" qy eq_refl Hqy). cbn [andb].
    eapply all_chars_impl; [|exact Hsw].
    intros c. destruct c as [[] [] [] [] [] [] [] []]; try reflexivity; discriminate. }
  assert (Hf : trimmed_part f).
  { unfold trimmed_part, f. split; [discriminate|]. split.
    - cbn [String.append].
      rewrite <- (append_empty_r (String "/" (String "/" _))) at 1.
      apply (trim_shape EmptyString EmptyString _
               ("//" +:+ rest +:+ String qy (" : " +:+ String qn no)) "/" qn);
        try reflexivity.
      + now apply quote_not_space.
      + unfold quoted. now normalize_append.
    - rewrite !all_chars_append. cbn [all_chars String.append].
      rewrite Hrdot, (quote_is_dot qy Hqy).
      now rewrite (quoted_all_chars is_dot qn no (quote_is_dot qn Hqn) Hno). }
  unfold evaluateExpression, evaluate_body.
  rewrite Hexpr, ternary_match_parts; try reflexivity; try assumption.
  rewrite equality_condition by assumption. cbn [bind truthy].
  assert (Htv : branch_value data t = VUndefined).
  { unfold branch_value. destruct Ht as (_ & Htt & _). rewrite Htt. unfold t.
    rewrite not_quoted_without_quote.
    - apply getValueByPath_not_a_path. cbn [all_chars].
      destruct qy as [[] [] [] [] [] [] [] []]; try discriminate Hqy; reflexivity.
    - eapply all_chars_impl; [|exact Hscheme].
      intros c. destruct c as [[] [] [] [] [] [] [] []]; try reflexivity; discriminate. }
  assert (Hfv : branch_value data f = VUndefined).
  { unfold branch_value. destruct Hf as (_ & Hftrim & _). rewrite Hftrim.
    unfold f. cbn [String.append]. rewrite not_quoted_head by reflexivity.
    now apply getValueByPath_not_a_path. }
  rewrite Htv, Hfv.
  now destruct (match getValueByPath data path with
                | VString s => String.eqb s lit
                | _ => false
                end).
Qed.

End ColonInBranch.

(** ** The renderer: plain text, unresolved paths and errors *)

Section ReplaceLaws.
Variable p : ascii -> bool.
Variable callback : string -> result string.

(** A template without a dollar is returned as it is. *)
Lemma replace_all_plain (s : string) :
  all_chars not_dollar s = true ->
  replace_all (placeholder_of p) callback s = Ok s.
Proof.
  intros Hs. unfold replace_all.
  rewrite <- (append_empty_r s) at 1.
  rewrite (replace_go_literal p callback s EmptyString Hs).
  simpl. now rewrite append_empty_r.
Qed.

(** The rendering of text, a placeholder and a remainder, errors included:
    the callback runs on the body before the remainder is rendered. *)
Lemma replace_all_placeholder_eq (pre body post : string) :
  p "}"%char = false ->
  all_chars not_dollar pre = true ->
  body <> EmptyString ->
  all_chars p body = true ->
  replace_all (placeholder_of p) callback (pre +:+ "${" +:+ body +:+ "}" +:+ post)
  = let* out := callback body in
    let* rest := replace_all (placeholder_of p) callback post in
    Ok (pre +:+ out +:+ rest).
Proof.
  intros Hbrace Hpre Hne Hall. unfold replace_all.
  rewrite (replace_go_literal p callback pre _ Hpre).
  rewrite (replace_go_placeholder p callback body post 0 Hbrace Hne Hall).
  destruct (callback body); [|reflexivity]. simpl.
  destruct (replace_go (placeholder_of p) callback 0 post 0); reflexivity.
Qed.

End ReplaceLaws.

Section RendererLaws.
Context {num : JSNumber} {realm : Realm}.

(** X11. Text without a dollar renders as itself, on every payload and
    in both variants. *)
Theorem plain_template_is_unchanged (template : string) (data : value) :
  all_chars not_dollar template = true ->
  replaceTemplateVars template data = Ok template
  /\ Basic.replaceTemplateVars template data = Ok template.
Proof.
  intros Hs. split.
  - now apply (replace_all_plain not_brace).
  - now apply (replace_all_plain word_or_dot).
Qed.

(** X12. A placeholder whose path resolves to nothing leaves no text:
    the output is the text before it and the rendering of what
    follows. *)
Theorem unresolved_placeholder_renders_empty (data : value) (pre path post rest : string) :
  all_chars not_dollar pre = true ->
  path <> EmptyString ->
  all_chars word_or_dot path = true ->
  getValueByPath data path = VUndefined ->
  replaceTemplateVars post data = Ok rest ->
  replaceTemplateVars (pre +:+ "${" +:+ path +:+ "}" +:+ post) data
  = Ok (pre +:+ rest).
Proof.
  intros Hpre Hne Hall Hundef Hpost. unfold replaceTemplateVars in *.
  change re_placeholder with (placeholder_of not_brace) in *.
  rewrite replace_all_placeholder_eq; try reflexivity; try assumption.
  - rewrite Hpost. unfold substitute. rewrite simple_path_test, Hall.
    assert ((1 <=? String.length path) = true) as ->
      by (destruct path; [contradiction|reflexivity]).
    cbn [andb]. rewrite Hundef. reflexivity.
  - eapply all_chars_impl; [|exact Hall].
    intros c Hc. unfold not_brace, word_or_dot, is_char, is_word in *.
    destruct (Ascii.eqb_spec c "}") as [->|]; [discriminate|reflexivity].
Qed.

(** X13. A placeholder body that is not a bare path (a padded path, say)
    and has no question mark prints the value at the trimmed path only
    when it is truthy: [0], [false] and [null] print as nothing, where the
    bare path prints them. *)
Theorem padded_path_prints_truthy_values_only (data : value) (expression : string) :
  all_chars word_or_dot expression = false ->
  all_chars (is_not "?") expression = true ->
  substitute data expression
  = if truthy (getValueByPath data (trim expression))
    then to_string (getValueByPath data (trim expression))
    else Ok EmptyString.
Proof.
  intros Hnot Hq. unfold substitute.
  rewrite simple_path_test, Hnot. cbn [andb].
  unfold evaluateExpression, evaluate_body.
  now rewrite ternary_needs_question_mark.
Qed.


End RendererLaws.

Section Printable.
Context {num : JSNumber}.

Lemma sequence_ok {A : Type} (rs : list (result A)) :
  Forall (fun r => exists a, r = Ok a) rs -> exists l, sequence rs = Ok l.
Proof.
  induction 1 as [|r rs [a ->] _ [l IH]]; [now exists []|].
  exists (a :: l). cbn [sequence bind]. now rewrite IH.
Qed.

(** A printable value has a string. *)
Lemma to_string_printable (v : value) :
  printable v = true -> exists s, to_string v = Ok s.
Proof.
  induction v as [| |b|n|s|items IH|props IH] using value_induction; intros Hp;
    try (eexists; reflexivity).
  - destruct b; eexists; reflexivity.
  - cbn [printable] in Hp. cbn [to_string].
    destruct (sequence_ok (map (fun x => match x with
                                         | VUndefined | VNull => Ok EmptyString
                                         | _ => to_string x
                                         end) items)) as [parts Hparts].
    + apply Forall_map. rewrite forallb_forall in Hp.
      rewrite List.Forall_forall in IH |- *. intros x Hx.
      destruct (IH x Hx (Hp x Hx)) as [s Hs].
      destruct x; try (now exists s); now exists EmptyString.
    + rewrite Hparts. eexists; reflexivity.
  - cbn [printable] in Hp. cbn [to_string].
    destruct (assoc "toString" props); [discriminate|]. eexists; reflexivity.
Qed.

Lemma assoc_in (key : string) (props : list (string * value)) (x : value) :
  assoc key props = Some x -> exists k, In (k, x) props.
Proof.
  induction props as [|[k v] props IH]; [discriminate|]. cbn [assoc].
  destruct (String.eqb k key).
  - intros [= ->]. exists k. now left.
  - intros H. destruct (IH H) as [k' Hk']. exists k'. now right.
Qed.

(** The own properties of a printable value are printable. *)
Lemma own_property_printable (o x : value) (key : string) :
  printable o = true -> own_property o key = Some x -> printable x = true.
Proof.
  intros Hp. destruct o as [| |b|n|s|items|props]; cbn [own_property];
    try discriminate.
  - destruct (String.eqb key "length"); [now intros [= <-]|].
    destruct (array_index key) as [i|]; [|discriminate].
    destruct (String.get i s); [now intros [= <-]|discriminate].
  - destruct (String.eqb key "length"); [now intros [= <-]|].
    destruct (array_index key) as [i|]; [|discriminate].
    intros Hnth. cbn [printable] in Hp. rewrite forallb_forall in Hp.
    apply Hp. now apply nth_error_In with i.
  - intros Hassoc. cbn [printable] in Hp.
    destruct (assoc "toString" props); [discriminate|].
    rewrite forallb_forall in Hp.
    destruct (assoc_in key props x Hassoc) as [k Hk].
    apply (Hp (k, x) Hk).
Qed.

Lemma path_step_printable (o : value) (key : string) :
  printable o = true -> printable (path_step o key) = true.
Proof.
  intros Hp. unfold path_step. destruct (refused_key key); [reflexivity|].
  unfold hasOwnProperty, get_own.
  destruct (own_property o key) as [x|] eqn:Hown.
  - destruct (truthy o && typeof_object o && true); [|reflexivity].
    now apply (own_property_printable o x key).
  - now rewrite andb_false_r.
Qed.

Lemma getValueByPath_printable (data : value) (path : string) :
  printable data = true -> printable (getValueByPath data path) = true.
Proof.
  intros Hp. unfold getValueByPath.
  destruct (negb (truthy data) || negb (typeof_object data)
            || String.eqb path EmptyString); [reflexivity|].
  destruct (negb (regex_test re_valid_path path)); [reflexivity|].
  revert data Hp. induction (split path ".") as [|key keys IH]; intros data Hp;
    [assumption|].
  cbn [fold_left]. apply IH. now apply path_step_printable.
Qed.

Lemma evaluateExpression_printable (expression : string) (data : value) :
  printable data = true -> printable (evaluateExpression expression data) = true.
Proof.
  intros Hp. unfold evaluateExpression, evaluate_body.
  destruct (ternary_match expression) as [[[condition trueExpr] falseExpr]|].
  - destruct (evaluate_condition operators condition data) as [r|e]; cbn [bind];
      [|reflexivity].
    destruct (truthy r); unfold branch_value;
      match goal with
      | |- context [regex_test re_quoted ?x] => destruct (regex_test re_quoted x)
      end; try reflexivity; now apply getValueByPath_printable.
  - now apply getValueByPath_printable.
Qed.

(** On a printable payload every substitution yields a text. *)
Lemma substitute_printable (data : value) (expression : string) :
  printable data = true -> exists text, substitute data expression = Ok text.
Proof.
  intros Hp. unfold substitute.
  destruct (regex_test re_simple_path expression).
  - pose proof (getValueByPath_printable data expression Hp) as Hv.
    destruct (to_string_printable _ Hv) as [s Hs].
    destruct (getValueByPath data expression); try (now exists s).
    now exists EmptyString.
  - destruct (truthy (evaluateExpression expression data));
      [|now exists EmptyString].
    apply to_string_printable. now apply evaluateExpression_printable.
Qed.

(** A replacement whose callback always yields a text yields a text. *)
Lemma replace_go_ok (r : regex) (callback : string -> result string) :
  (forall body, exists text, callback body = Ok text) ->
  forall s pos skip, exists out, replace_go r callback pos s skip = Ok out.
Proof.
  intros Hcb s. induction s as [|c s IH]; intros pos skip; [now exists EmptyString|].
  cbn [replace_go]. destruct skip as [|n]; [|apply IH].
  destruct (match_at r pos (String c s)) as [[past caps]|].
  - destruct (Hcb (default EmptyString (cap_get 1 caps))) as [text ->].
    destruct (IH (S pos) (past - pos - 1)) as [rest ->].
    now exists (text +:+ rest).
  - destruct (IH (S pos) 0) as [rest ->]. now exists (String c rest).
Qed.

Lemma replaceTemplateVars_printable (template : string) (data : value) :
  printable data = true -> exists text, replaceTemplateVars template data = Ok text.
Proof.
  intros Hp. apply replace_go_ok. intros body. now apply substitute_printable.
Qed.

Lemma render_optional_printable (field : option string) (data : value) :
  printable data = true -> exists o, render_optional field data = Ok o.
Proof.
  intros Hp. unfold render_optional. destruct field as [template|]; [|now exists None].
  destruct (negb (String.eqb template EmptyString)); [|now exists None].
  destruct (replaceTemplateVars_printable template data Hp) as [s ->].
  now exists (Some s).
Qed.

(** X15. Rendering can throw only on a payload that has a property named
    [toString]: when no object of the payload has one, every template
    renders to a text and [sendToBark] builds its URL for every rule. *)
Theorem rendering_succeeds_on_printable_payload (data : value) :
  printable data = true ->
  (forall template, exists text, replaceTemplateVars template data = Ok text)
  /\ (forall rule, exists url, sendToBark_url rule data = Ok url).
Proof.
  intros Hp. split.
  - intros template. now apply replaceTemplateVars_printable.
  - intros rule. unfold sendToBark_url, barkParams, barkParams_literal.
    destruct (replaceTemplateVars_printable (title (mapping rule)) data Hp) as [t ->].
    destruct (replaceTemplateVars_printable (body (mapping rule)) data Hp) as [b ->].
    destruct (render_optional_printable (group (mapping rule)) data Hp) as [g ->].
    destruct (render_optional_printable (icon (mapping rule)) data Hp) as [i ->].
    destruct (render_optional_printable (url (mapping rule)) data Hp) as [u ->].
    destruct (render_optional_printable (sound (mapping rule)) data Hp) as [s ->].
    cbn [bind]. eexists; reflexivity.
Qed.

End Printable.

Section BasicRenderer.
Context {num : JSNumber} {realm : Realm}.



End BasicRenderer.

(** ** The rule mapper and the request to Bark *)

Section MapperLaws.
Context {num : JSNumber}.

Lemma render_optional_key (key : string) (field : option string) (data : value)
    (o : option string) :
  render_optional field data = Ok o ->
  map fst (delete_undefined [(key, o)]) = defined_key key field.
Proof.
  unfold render_optional, defined_key. destruct field as [template|].
  - destruct (String.eqb template EmptyString); simpl.
    + now intros [= <-].
    + destruct (replaceTemplateVars template data); simpl; [|discriminate].
      now intros [= <-].
  - now intros [= <-].
Qed.

Lemma delete_undefined_app (a b : list (string * option string)) :
  delete_undefined (a ++ b) = delete_undefined a ++ delete_undefined b.
Proof.
  induction a as [|[k [v|]] a IH]; simpl; [reflexivity| |assumption].
  now rewrite IH.
Qed.

Lemma barkParams_keys (rule : WebhookRule) (data : value)
    (params : list (string * string)) :
  barkParams rule data = Ok params ->
  map fst params
  = ["title"; "body"]
      ++ defined_key "group" (group (mapping rule))
      ++ defined_key "icon" (icon (mapping rule))
      ++ defined_key "url" (url (mapping rule))
      ++ defined_key "sound" (sound (mapping rule)).
Proof.
  unfold barkParams, barkParams_literal.
  destruct (replaceTemplateVars (title (mapping rule)) data) as [t|]; [|discriminate].
  destruct (replaceTemplateVars (body (mapping rule)) data) as [b|]; [|discriminate].
  cbn [bind].
  destruct (render_optional (group (mapping rule)) data) as [g|] eqn:Hg; [|discriminate].
  destruct (render_optional (icon (mapping rule)) data) as [i|] eqn:Hi; [|discriminate].
  destruct (render_optional (url (mapping rule)) data) as [u|] eqn:Hu; [|discriminate].
  destruct (render_optional (sound (mapping rule)) data) as [s|] eqn:Hs; [|discriminate].
  cbn [bind]. intros Hparams.
  assert (params
          = delete_undefined
              ([("title", Some t); ("body", Some b)] ++ [("group", g)]
                 ++ [("icon", i)] ++ [("url", u)] ++ [("sound", s)])) as ->
    by (now injection Hparams).
  rewrite !delete_undefined_app, !map_app.
  rewrite (render_optional_key "group" _ _ _ Hg), (render_optional_key "icon" _ _ _ Hi),
    (render_optional_key "url" _ _ _ Hu), (render_optional_key "sound" _ _ _ Hs).
  reflexivity.
Qed.

(** X17. The keys of the rule mapper's output and their order depend on
    the rule only: [title] and [body], then those of [group], [icon],
    [url] and [sound] that the mapping defines as non-empty templates. *)
Theorem barkParams_keys_depend_on_rule_only (rule : WebhookRule) (data : value)
    (params : list (string * string)) :
  barkParams rule data = Ok params ->
  map fst params
  = ["title"; "body"]
      ++ defined_key "group" (group (mapping rule))
      ++ defined_key "icon" (icon (mapping rule))
      ++ defined_key "url" (url (mapping rule))
      ++ defined_key "sound" (sound (mapping rule)).
Proof. apply barkParams_keys. Qed.

End MapperLaws.

Lemma hex_digit_safe (n : nat) : form_safe (hex_digit n) = true.
Proof.
  unfold hex_digit.
  do 16 (destruct n as [|n]; [reflexivity|]). reflexivity.
Qed.

Lemma percent_byte_output (byte : nat) : all_chars form_output (percent_byte byte) = true.
Proof.
  unfold percent_byte. cbn [all_chars]. unfold form_output at 2 3.
  rewrite !hex_digit_safe. reflexivity.
Qed.

Lemma form_urlencode_char_output (c : ascii) :
  all_chars form_output (form_urlencode_char c) = true.
Proof.
  unfold form_urlencode_char. destruct (form_safe c) eqn:Hsafe.
  - cbn [all_chars]. unfold form_output. now rewrite Hsafe.
  - destruct (is_char " " c); [reflexivity|].
    unfold utf8. destruct (char_code c <? 128); cbn [fold_right];
      rewrite ?all_chars_append, ?percent_byte_output; reflexivity.
Qed.

(** An encoded name or value has no character with a meaning in a URL:
    only safe characters, [+] and [%XX]. *)
Lemma form_urlencode_output (s : string) :
  all_chars form_output (form_urlencode s) = true.
Proof.
  induction s as [|c s IH]; [reflexivity|].
  cbn [form_urlencode]. now rewrite all_chars_append, form_urlencode_char_output, IH.
Qed.

Lemma form_output_not_separator (c : ascii) :
  form_output c = true -> is_not "&" c = true /\ is_not "=" c = true.
Proof. destruct c as [[] [] [] [] [] [] [] []]; try discriminate; now split. Qed.


Lemma form_urlencode_no_char (a : ascii) (s : string) :
  form_output a = false -> all_chars (is_not a) (form_urlencode s) = true.
Proof.
  intros Ha. eapply all_chars_impl; [|apply form_urlencode_output].
  intros c Hc. unfold is_not, is_char.
  destruct (Ascii.eqb_spec c a) as [->|]; [congruence|reflexivity].
Qed.

Lemma query_item_no_ampersand (p : string * string) :
  all_chars (is_not "&") (query_item p) = true.
Proof.
  unfold query_item. rewrite !all_chars_append.
  now rewrite !(form_urlencode_no_char "&") by reflexivity.
Qed.

Lemma query_item_split (p : string * string) :
  split (query_item p) "=" = [form_urlencode (fst p); form_urlencode (snd p)].
Proof.
  unfold query_item. rewrite (split_char_append "=").
  unfold split.
  now rewrite !(split_go_no_char "=") by (now apply form_urlencode_no_char).
Qed.

Lemma query_split (params : list (string * string)) :
  params <> [] ->
  split (URLSearchParams_toString params) "&" = map query_item params.
Proof.
  unfold URLSearchParams_toString. fold query_item.
  induction params as [|p params IH]; [contradiction|]. intros _.
  destruct params as [|p' params].
  - cbn [map join]. unfold split.
    now rewrite (split_go_no_char "&") by apply query_item_no_ampersand.
  - change (join "&" (map query_item (p :: p' :: params)))
      with (query_item p +:+ "&" +:+ join "&" (map query_item (p' :: params))).
    rewrite (split_char_append "&"), IH by discriminate.
    unfold split at 1.
    now rewrite (split_go_no_char "&") by apply query_item_no_ampersand.
Qed.

Section RequestLaws.
Context {num : JSNumber}.

(** X18. No text of a payload can add or alter a parameter of the
    request. The URL [sendToBark] fetches is the rule's [barkUrl], [&] or
    [?], and a query that splits at [&] and [=] into exactly the names and
    the encoded values of the rule mapper's parameters; an encoded value
    has only safe characters, [+] and [%XX]. *)
Theorem query_holds_the_parameters_only (rule : WebhookRule) (data : value) (url : string) :
  sendToBark_url rule data = Ok url ->
  exists params query,
    barkParams rule data = Ok params
    /\ url = barkUrl rule +:+ (if includes (barkUrl rule) "?" then "&" else "?") +:+ query
    /\ map (fun item => split item "=") (split query "&")
       = map (fun p => [fst p; form_urlencode (snd p)]) params
    /\ Forall (fun p => all_chars form_output (form_urlencode (snd p)) = true) params.
Proof.
  unfold sendToBark_url.
  destruct (barkParams rule data) as [params|e] eqn:Hparams; cbn [bind]; [|discriminate].
  intros [= <-]. exists params, (URLSearchParams_toString params).
  split; [reflexivity|]. split.
  { unfold barkUrlWithParams. now destruct (includes (barkUrl rule) "?"). }
  pose proof (barkParams_keys rule data params Hparams) as Hkeys.
  split.
  - rewrite query_split
      by (intros ->; discriminate Hkeys).
    rewrite map_map. apply map_ext_in. intros p Hp.
    rewrite query_item_split. do 2 f_equal.
    assert (Hin : In (fst p) (map fst params)) by now apply in_map.
    rewrite Hkeys in Hin.
    assert (Hsafe : forall k, In k ["title"; "body"; "group"; "icon"; "url"; "sound"] ->
                              form_urlencode k = k).
    { intros k Hk. repeat (destruct Hk as [<-|Hk]; [reflexivity|]). destruct Hk. }
    apply Hsafe.
    revert Hin. unfold defined_key.
    rewrite !in_app_iff. cbn [In].
    repeat match goal with
           | |- context [match ?f with Some _ => _ | None => _ end] => destruct f
           | |- context [if ?b then _ else _] => destruct b
           end; cbn [In]; tauto.
  - apply Forall_forall. intros p _. apply form_urlencode_output.
Qed.

End RequestLaws.

(** ** The rule store: registering, reading and deleting *)

Section Acceptance.
Context {num : JSNumber}.

Lemma post_rules_accepts (kv : kv_store) (rule : value) :
  status (snd (post_rules kv (Some rule))) = 200
  <-> truthy (get_own rule "id") = true
      /\ truthy (get_own rule "name") = true
      /\ truthy (get_own rule "mapping") = true
      /\ truthy (get_own rule "barkUrl") = true
      /\ exists key, to_string (get_own rule "id") = Ok key.
Proof.
  unfold post_rules. cbn [bind].
  destruct rule as [| |b|n|s|items|props];
    try (split; [discriminate|now intros (H & _)]).
  all: unfold validate, saveRule; cbn [member bind];
    destruct (truthy (get_own _ "id")); cbn [negb bind];
      [|split; [discriminate|now intros (H & _)]];
    destruct (truthy (get_own _ "name")); cbn [negb bind];
      [|split; [discriminate|now intros (_ & H & _)]];
    destruct (truthy (get_own _ "mapping")); cbn [negb bind];
      [|split; [discriminate|now intros (_ & _ & H & _)]];
    destruct (truthy (get_own _ "barkUrl")); cbn [negb bind];
      [|split; [discriminate|now intros (_ & _ & _ & H & _)]];
    destruct (to_string (get_own _ "id")) as [key|e]; cbn [bind];
      [split; [intros _; repeat split; now exists key|reflexivity]
      |split; [discriminate|now intros (_ & _ & _ & _ & key & Hkey)]].
Qed.

(** The handler answers 200 or 400. *)
Lemma post_rules_answers (kv : kv_store) (request : option value) :
  status (snd (post_rules kv request)) = 200
  \/ status (snd (post_rules kv request)) = 400.
Proof.
  unfold post_rules. destruct request as [rule|]; cbn [bind]; [|now right].
  destruct (validate rule) as [[]|e]; cbn [bind]; [|now right].
  destruct (saveRule kv rule) as [kv'|e]; cbn [bind]; [|now right].
  destruct (member rule "id"); cbn [bind]; [now left|now right].
Qed.

(** X19. What [POST /rules] accepts: it answers 200 exactly when the
    body is JSON and its [id], [name], [mapping] and [barkUrl] are truthy
    and the [id] can be converted to a string, nothing else about the rule
    being checked; every other request, a body that is not JSON included,
    is answered 400. *)
Theorem post_rules_acceptance (kv : kv_store) (request : option value) :
  (status (snd (post_rules kv request)) = 200
   <-> exists rule,
         request = Some rule
         /\ truthy (get_own rule "id") = true
         /\ truthy (get_own rule "name") = true
         /\ truthy (get_own rule "mapping") = true
         /\ truthy (get_own rule "barkUrl") = true
         /\ exists key, to_string (get_own rule "id") = Ok key)
  /\ (status (snd (post_rules kv request)) = 200
      \/ status (snd (post_rules kv request)) = 400).
Proof.
  split; [|apply post_rules_answers].
  destruct request as [rule|].
  - rewrite post_rules_accepts. split.
    + intros H. now exists rule.
    + now intros (rule' & [= <-] & H).
  - split; [discriminate|]. now intros (rule & Hrule & _).
Qed.

End Acceptance.

Section StoreLaws.
Context {num : JSNumber}.

(** What an accepted registration does: the rule is an object whose [id]
    prints as some key text, and its JSON text is stored under that key. *)
Lemma post_rules_accepted (kv : kv_store) (rule : value) :
  status (snd (post_rules kv (Some rule))) = 200 ->
  exists props key,
    rule = VObject props
    /\ to_string (get_own rule "id") = Ok key
    /\ fst (post_rules kv (Some rule))
       = <["rule:" +:+ key := JSON_stringify rule]> kv.
Proof.
  unfold post_rules. cbn [bind].
  destruct (validate rule) as [[]|e] eqn:Hv; cbn [bind]; [|discriminate].
  unfold saveRule.
  destruct (member rule "id") as [rule_id|e] eqn:Hid; cbn [bind]; [|discriminate].
  destruct (to_string rule_id) as [key|e] eqn:Hkey; cbn [bind]; [|discriminate].
  intros _.
  destruct rule as [| |b|n|s|items|props];
    try (unfold validate in Hv; cbn in Hv; discriminate).
  exists props, key. cbn [member] in Hid. injection Hid as <-.
  repeat split; assumption || reflexivity.
Qed.

Lemma object_text_not_empty (props : list (string * value)) :
  JSON_stringify (VObject props) <> EmptyString.
Proof. unfold JSON_stringify. cbn [json_text default]. discriminate. Qed.

(** Whether a registration is accepted does not depend on the store. *)
Lemma post_rules_status (kv kv' : kv_store) (request : option value) :
  status (snd (post_rules kv request)) = status (snd (post_rules kv' request)).
Proof.
  unfold post_rules. destruct request as [rule|]; cbn [bind]; [|reflexivity].
  destruct (validate rule) as [[]|e]; cbn [bind]; [|reflexivity].
  unfold saveRule.
  destruct (member rule "id") as [rule_id|e]; cbn [bind]; [|reflexivity].
  destruct (to_string rule_id) as [key|e]; cbn [bind]; reflexivity.
Qed.

Lemma delete_rule_stored (kv : kv_store) (id text : string) :
  kv !! ("rule:" +:+ id) = Some text -> text <> EmptyString ->
  delete_rule kv id
  = (delete ("rule:" +:+ id) kv,
     {| status := 200;
        json := VObject [("message", VString "Rule deleted successfully")] |}).
Proof.
  intros Hget Htext. unfold delete_rule, deleteRule. rewrite Hget.
  apply String.eqb_neq in Htext. now rewrite Htext.
Qed.

Lemma delete_rule_absent (kv : kv_store) (id : string) :
  kv !! ("rule:" +:+ id) = None -> delete_rule kv id = (kv, rule_not_found).
Proof. intros Hget. unfold delete_rule, deleteRule. now rewrite Hget. Qed.

(** X20. A registered rule can be deleted once. After an accepted
    [POST /rules], [DELETE /rules/:id] for the rule's id answers 200 and
    removes the rule's key; a second [DELETE] answers 404 and so does
    [GET /rules/:id], whatever the parser; and when the key was new, the
    store is again what it was before the registration. *)
Theorem registered_rule_is_deleted_once (JSON_parse : string -> result value)
    (kv : kv_store) (rule : value) (id : string) :
  status (snd (post_rules kv (Some rule))) = 200 ->
  to_string (get_own rule "id") = Ok id ->
  let registered := fst (post_rules kv (Some rule)) in
  let deleted := fst (delete_rule registered id) in
  status (snd (delete_rule registered id)) = 200
  /\ deleted = delete ("rule:" +:+ id) kv
  /\ delete_rule deleted id = (deleted, rule_not_found)
  /\ get_rule JSON_parse deleted id = Ok rule_not_found
  /\ (kv !! ("rule:" +:+ id) = None -> deleted = kv).
Proof.
  intros Hok Hid registered deleted. subst registered deleted.
  destruct (post_rules_accepted kv rule Hok) as (props & key & -> & Hkey & ->).
  rewrite Hid in Hkey. injection Hkey as <-.
  rewrite (delete_rule_stored _ id (JSON_stringify (VObject props)));
    [|apply lookup_insert_eq|apply object_text_not_empty].
  cbn [fst snd status]. rewrite delete_insert_eq.
  split; [reflexivity|]. split; [reflexivity|]. split; [|split].
  - apply delete_rule_absent, lookup_delete_eq.
  - unfold get_rule, getRuleById. cbn [to_string bind].
    now rewrite lookup_delete_eq.
  - apply delete_id.
Qed.

(** X21. Registering a rule under an id that is taken replaces the
    stored rule: the store after two registrations with the same id is the
    store after the second alone. *)
Theorem registration_replaces_same_id (kv : kv_store) (rule1 rule2 : value) :
  to_string (get_own rule1 "id") = to_string (get_own rule2 "id") ->
  status (snd (post_rules kv (Some rule2))) = 200 ->
  fst (post_rules (fst (post_rules kv (Some rule1))) (Some rule2))
  = fst (post_rules kv (Some rule2)).
Proof.
  intros Hsame Hok2.
  destruct (post_rules_accepted kv rule2 Hok2) as (props2 & key2 & E2 & Hkey2 & ->).
  pose proof Hok2 as Hok2'.
  rewrite (post_rules_status kv (fst (post_rules kv (Some rule1)))) in Hok2'.
  destruct (post_rules_accepted _ rule2 Hok2') as (props2' & key2' & _ & Hkey2' & ->).
  rewrite Hkey2 in Hkey2'. injection Hkey2' as <-.
  destruct (status (snd (post_rules kv (Some rule1))) =? 200) eqn:Hs1.
  - apply Nat.eqb_eq in Hs1.
    destruct (post_rules_accepted kv rule1 Hs1) as (props1 & key1 & _ & Hkey1 & ->).
    rewrite Hsame, Hkey2 in Hkey1. injection Hkey1 as <-.
    apply insert_insert_eq.
  - apply Nat.eqb_neq in Hs1. f_equal.
    apply post_rules_rejection_keeps_store.
    revert Hs1. unfold post_rules. cbn [bind].
    destruct (validate rule1) as [[]|e]; cbn [bind]; [|reflexivity].
    destruct (saveRule kv rule1) as [kv'|e]; cbn [bind]; [|reflexivity].
    destruct (member rule1 "id"); cbn [bind]; [|reflexivity].
    cbn [snd status]. congruence.
Qed.

(** X22. The handlers touch one key. [POST /rules] changes at most the
    key of the rule's own id, and [DELETE /rules/:id] at most the key of
    its id: every other entry of the store is left as it is. *)
Theorem handlers_touch_one_key (kv : kv_store) (key : string) :
  (forall rule,
      (forall id, to_string (get_own rule "id") = Ok id -> key <> "rule:" +:+ id) ->
      fst (post_rules kv (Some rule)) !! key = kv !! key)
  /\ (forall id,
         key <> "rule:" +:+ id -> fst (delete_rule kv id) !! key = kv !! key).
Proof.
  split.
  - intros rule Hkey.
    destruct (status (snd (post_rules kv (Some rule))) =? 200) eqn:Hs.
    + apply Nat.eqb_eq in Hs.
      destruct (post_rules_accepted kv rule Hs) as (props & id & _ & Hid & ->).
      apply lookup_insert_ne. intros E. now apply (Hkey id).
    + f_equal. apply post_rules_rejection_keeps_store.
      apply Nat.eqb_neq in Hs. revert Hs. unfold post_rules. cbn [bind].
      destruct (validate rule) as [[]|e]; cbn [bind]; [|reflexivity].
      destruct (saveRule kv rule) as [kv'|e]; cbn [bind]; [|reflexivity].
      destruct (member rule "id"); cbn [bind]; [|reflexivity].
      cbn [snd status]. congruence.
  - intros id Hkey. unfold delete_rule, deleteRule.
    destruct (kv !! ("rule:" +:+ id)) as [text|]; [|reflexivity].
    destruct (String.eqb text EmptyString); [reflexivity|].
    cbn [negb fst]. apply lookup_delete_ne. congruence.
Qed.

End StoreLaws.

(** ** The [POST /push] handler *)

Section PushLaws.
Context {num : JSNumber}.




Variable JSON_parse : string -> result value.


End PushLaws.

Section PushTheorems.
Context {num : JSNumber}.



(** An answer the handler gives without a request is a 400, a 404 or a
    500. *)
Lemma push_request_answers (JSON_parse : string -> result value) (kv : kv_store)
    (body : option value) (query : option string) (answer : response) :
  push_request JSON_parse kv body query = inl answer ->
  status answer = 400 \/ status answer = 404 \/ status answer = 500.
Proof.
  unfold push_request.
  destruct body as [request|]; cbn [bind]; [|intros [= <-]; now left].
  destruct (member request "ruleId") as [body_id|e]; cbn [bind];
    [|intros [= <-]; now left].
  destruct (truthy (rule_id_of body_id query)); cbn [negb];
    [|intros [= <-]; now left].
  destruct (getRuleById JSON_parse kv (rule_id_of body_id query)) as [rule|e];
    cbn [bind]; [|intros [= <-]; now left].
  destruct (truthy rule); cbn [negb].
  - destruct (member request "payload") as [p|e]; cbn [bind];
      [|intros [= <-]; now left].
    match goal with |- context [sendToBark ?r ?d] => destruct (sendToBark r d) end;
      [discriminate|intros [= <-]; now right; right].
  - destruct (to_string (rule_id_of body_id query)); cbn [bind];
      intros [= <-]; [now right; left|now left].
Qed.

Lemma push_response_answers (outcome : result fetch_response) :
  (status (push_response outcome) = 200
   <-> exists answer, outcome = Ok answer /\ ok answer = true)
  /\ (status (push_response outcome) = 200 \/ status (push_response outcome) = 500).
Proof.
  unfold push_response. destruct outcome as [answer|e].
  - destruct (ok answer) eqn:Hok; cbn [negb].
    + split; [|now left]. split; [intros _; now exists answer|reflexivity].
    + split; [|now right]. split; [discriminate|].
      intros (a & [= <-] & Ha). congruence.
  - split; [|now right]. split; [discriminate|]. now intros (a & Ha & _).
Qed.

(** X25. Success is reported only after Bark answered: the push handler
    answers 200 exactly when it sent a request and the response to it was
    [ok], and in every other case it answers 400, 404 or 500. *)
Theorem push_succeeds_only_after_ok (JSON_parse : string -> result value)
    (fetch : string -> result fetch_response) (kv : kv_store)
    (body : option value) (query : option string) :
  (status (push JSON_parse fetch kv body query) = 200
   <-> exists url answer,
         push_request JSON_parse kv body query = inr url
         /\ fetch url = Ok answer
         /\ ok answer = true)
  /\ (status (push JSON_parse fetch kv body query) = 200
      \/ status (push JSON_parse fetch kv body query) = 400
      \/ status (push JSON_parse fetch kv body query) = 404
      \/ status (push JSON_parse fetch kv body query) = 500).
Proof.
  unfold push.
  destruct (push_request JSON_parse kv body query) as [answer|url] eqn:Hreq.
  - destruct (push_request_answers JSON_parse kv body query answer Hreq) as [H|[H|H]];
      rewrite H; (split; [split; [discriminate|now intros (u & a & Hu & _)]|tauto]).
  - destruct (push_response_answers (fetch url)) as [Hiff Hrange]. split.
    + rewrite Hiff. split.
      * intros (answer & Hfetch & Hok). now exists url, answer.
      * intros (u & answer & [= <-] & Hfetch & Hok). now exists answer.
    + tauto.
Qed.

End PushTheorems.

(* ===================================================================== *)
(** * Concrete runs *)
(* ===================================================================== *)

(** The groups of the ternary pattern on a padded expression. *)
Example re_ternary_groups :
  regex_exec re_ternary " a === 'ok' ? 'yes' : 'no' "
  = Some (27, [(3, "'no'"); (2, "'yes'"); (1, "a === 'ok'")]).
Proof. vm_compute. reflexivity. Qed.

(** The examples of the specification's section 8 for the resolver. *)
Example resolve_nested : getValueByPath payload_n1 "a.b" = int 1.
Proof. reflexivity. Qed.

Example resolve_proto : getValueByPath (VObject [("a", int 1)]) "a.__proto__" = VUndefined.
Proof. reflexivity. Qed.

Example resolve_missing : getValueByPath (VObject []) "a.b" = VUndefined.
Proof. reflexivity. Qed.

Example render_number : replaceTemplateVars "${x}" (VObject [("x", int 5)]) = Ok "5".
Proof. reflexivity. Qed.

Example evaluate_strict_equal :
  evaluateExpression "a === 'ok' ? 'yes' : 'no'" (VObject [("a", VString "ok")])
  = VString "yes"
  /\ evaluateExpression "a === 'ok' ? 'yes' : 'no'" (VObject [("a", VString "no")])
     = VString "no".
Proof. split; reflexivity. Qed.

(** A numeral matches the path pattern before the number pattern is tried:
    the operand [10] is resolved as the path [10], [undefined] here, and the
    comparison is false. A negative numeral is a number literal. *)
Example numeral_operand_is_a_path :
  evaluateExpression "n > 10 ? 'big' : 'small'" (VObject [("n", int 20)])
  = VString "small"
  /\ evaluateExpression "n > -10 ? 'big' : 'small'" (VObject [("n", int 20)])
     = VString "big".
Proof. split; reflexivity. Qed.

(** C1. The handler accepts and stores a rule whose mapping has neither
    [title] nor [body]: the guard tests [rule.mapping] only. *)
Theorem post_rules_stores_rule_without_templates :
  get_own (get_own rule_without_templates "mapping") "title" = VUndefined
  /\ get_own (get_own rule_without_templates "mapping") "body" = VUndefined
  /\ status (snd (post_rules ∅ (Some rule_without_templates))) = 200
  /\ fst (post_rules ∅ (Some rule_without_templates)) !! "rule:r1"
     = Some (JSON_stringify rule_without_templates).
Proof. repeat split. Qed.

(** C2. On the condition [n >= 10] the loop detects [>], which stands
    before [>=] in the table, and cuts the condition there: the right
    operand text is [= 10]. With [a = 2] and [b = 1] the expression
    [a >= b ? 'big' : 'small'] compares 2 with the text [= b] and yields
    ['small']. *)
Theorem greater_or_equal_detected_as_greater :
  detect_operator operators "n >= 10" = Some ">"
  /\ split "n >= 10" ">" = ["n "; "= 10"]
  /\ evaluateExpression "a >= b ? 'big' : 'small'" (VObject [("a", int 2); ("b", int 1)])
     = VString "small"
  /\ evaluateExpression "a > b ? 'big' : 'small'" (VObject [("a", int 2); ("b", int 1)])
     = VString "big".
Proof. repeat split. Qed.

(** C3: a rule that defines [group] as the empty string gets no [group]
    key, in either variant. *)
Lemma empty_group_is_omitted :
  group (mapping (rule_with (Some EmptyString))) = Some EmptyString
  /\ barkParams (rule_with (Some EmptyString)) (VObject [("n", int 42)])
     = Ok [("title", "Hi 42"); ("body", "B")]
  /\ Basic.barkParams (rule_with (Some EmptyString)) (VObject [("n", int 42)])
     = Ok [("title", "Hi 42"); ("body", "B")].
Proof. repeat split. Qed.

(** C3: a template that renders to the empty string keeps its key, with
    the empty string as its value. *)
Lemma barkParams_optional_keys_witness :
  barkParams (rule_with (Some "${missing}")) (VObject [("n", int 42)])
  = Ok [("title", "Hi 42"); ("body", "B"); ("group", EmptyString)]
  /\ (In "group" (map fst [("title", "Hi 42"); ("body", "B"); ("group", EmptyString)])
      <-> defined_template (group (mapping (rule_with (Some "${missing}")))))
  /\ renders_to (group (mapping (rule_with (Some "${missing}"))))
       (VObject [("n", int 42)]) EmptyString.
Proof.
  split; [reflexivity|].
  destruct (proj1 (barkParams_optional_keys (rule_with (Some "${missing}"))
                     (VObject [("n", int 42)]))
              [("title", "Hi 42"); ("body", "B"); ("group", EmptyString)]
              eq_refl "group" (Some "${missing}") (or_introl eq_refl))
    as [Hkey Hvalue].
  split; [exact Hkey|].
  apply Hvalue. reflexivity.
Defined.

(** Where the basic variant departs from its own sibling fields: it
    passes [sound] as the mapping has it, unrendered. *)
Example basic_sound_is_not_rendered :
  Basic.barkParams rule_with_sound (VObject [("n", int 42)])
  = Ok [("title", "T"); ("body", "B"); ("sound", "${n}")].
Proof. reflexivity. Qed.

(** The rule of the specification's section 8: no optional key at all. *)
Example barkParams_required_only :
  barkParams (rule_with None) (VObject [("n", int 42)])
  = Ok [("title", "Hi 42"); ("body", "B")].
Proof. reflexivity. Qed.

(** C4: the basic variant reads [constructor] of the empty object through
    the prototype chain. *)
Lemma basic_resolver_reads_prototype :
  own_property (VObject []) "constructor" = None
  /\ Basic.getValueByPath (VObject []) "constructor" = Ok (Builtin ObjectConstructor).
Proof. split; reflexivity. Qed.

(** C5: the basic variant resolves a path with a character outside the
    class, and a segment named [constructor]. *)
Lemma basic_resolver_accepts_any_path :
  all_chars is_path_char "a-b" = false
  /\ Basic.getValueByPath (VObject [("a-b", int 1)]) "a-b" = Ok (Data (int 1))
  /\ In "constructor" (split "constructor" ".")
  /\ Basic.getValueByPath (VObject []) "constructor" = Ok (Builtin ObjectConstructor).
Proof.
  split; [reflexivity|]. split; [reflexivity|]. split; [now left|reflexivity].
Qed.

Lemma getValueByPath_malformed_path_witness :
  getValueByPath (VObject [("a-b", int 1)]) "a-b" = VUndefined
  /\ getValueByPath payload_n1 "a..b" = VUndefined
  /\ getValueByPath (VObject [("a", int 1)]) "a.__proto__" = VUndefined.
Proof.
  split; [|split]; apply getValueByPath_malformed_path.
  - left. reflexivity.
  - right. exists EmptyString. split; [simpl; tauto|tauto].
  - right. exists "__proto__". split; [simpl; tauto|tauto].
Defined.

Lemma getValueByPath_non_object_root_witness :
  getValueByPath (VString "abc") "length" = VUndefined
  /\ getValueByPath VNull "a" = VUndefined
  /\ getValueByPath (int 5) "a" = VUndefined.
Proof. split; [|split]; apply getValueByPath_non_object_root; reflexivity. Defined.

(** C6: in [a == b == c] the right operand is read from the text between
    the two occurrences, not from the remainder after the first. *)
Lemma right_operand_is_not_the_remainder :
  detect_operator operators "a == b == c" = Some "=="
  /\ first_index "==" "a == b == c" = Some 2
  /\ drop (2 + 2) "a == b == c" = " b == c"
  /\ snd (operands payload_flat "a == b == c" "==") = parse_operand payload_flat " b "
  /\ val (parse_operand payload_flat " b ") = int 1
  /\ val (parse_operand payload_flat " b == c") = VString "b == c"
  /\ evaluateExpression "a == b == c ? 'yes' : 'no'" payload_flat = VString "yes".
Proof. repeat split. Qed.

Lemma operands_between_occurrences_witness :
  operands payload_flat "a == b == c" "=="
  = (parse_operand payload_flat "a ", parse_operand payload_flat " b ").
Proof.
  exact (operands_between_occurrences payload_flat "a == b == c" "==" 2
           ltac:(discriminate) eq_refl).
Defined.


(** C8: comparing an object that has an own [toString] property throws a
    TypeError inside the [try] block; the evaluator returns the empty
    string. *)
Lemma evaluateExpression_catches_witness :
  evaluate_body "a > b ? 'big' : 'small'" payload_unprintable = Throw no_primitive
  /\ evaluateExpression "a > b ? 'big' : 'small'" payload_unprintable
     = VString EmptyString.
Proof.
  split; [reflexivity|].
  apply (evaluateExpression_catches _ _ no_primitive). reflexivity.
Defined.

(** C9: the example of the claim, in both variants, and two templates
    with a dollar before the placeholder. *)
Lemma template_single_pass_witness :
  replaceTemplateVars "${a}" payload_nested_template = Ok "${b}"
  /\ Basic.replaceTemplateVars "${a}" payload_nested_template = Ok "${b}"
  /\ replaceTemplateVars "Cost $5: ${a}" payload_nested_template = Ok "Cost $5: ${b}"
  /\ Basic.replaceTemplateVars "$${a}" payload_nested_template = Ok "$${b}".
Proof.
  pose proof (proj1 (template_single_pass payload_nested_template)) as Hrule.
  split; [|split; [|split]].
  - exact (proj1 (Hrule EmptyString "a" EmptyString "${b}" EmptyString
                    ltac:(discriminate))
             eq_refl eq_refl eq_refl eq_refl).
  - exact (proj2 (Hrule EmptyString "a" EmptyString "${b}" EmptyString
                    ltac:(discriminate))
             eq_refl eq_refl eq_refl eq_refl).
  - exact (proj1 (Hrule "Cost $5: " "a" EmptyString "${b}" EmptyString
                    ltac:(discriminate))
             eq_refl eq_refl eq_refl eq_refl).
  - exact (proj2 (Hrule "$" "a" EmptyString "${b}" EmptyString
                    ltac:(discriminate))
             eq_refl eq_refl eq_refl eq_refl).
Defined.

(** ** Runs of the further properties *)

(** X1: [a.b] from the root is [b] from the value at [a]. *)
Lemma getValueByPath_compose_witness :
  getValueByPath payload_n1 "a.b" = getValueByPath (getValueByPath payload_n1 "a") "b".
Proof.
  exact (getValueByPath_compose payload_n1 "a" "b"
           ltac:(discriminate) eq_refl ltac:(discriminate) eq_refl).
Defined.

(** X2: the own properties [a], then [b], lead to 1. *)
Lemma getValueByPath_finds_own_path_witness :
  own_path payload_n1 ["a"; "b"] (int 1)
  /\ getValueByPath payload_n1 "a.b" = int 1.
Proof.
  assert (Hpath : own_path payload_n1 ["a"; "b"] (int 1)).
  { apply (own_path_next payload_n1 (VObject [("b", int 1)]) (int 1) "a" ["b"]
             eq_refl eq_refl).
    apply (own_path_next (VObject [("b", int 1)]) (int 1) (int 1) "b" []
             eq_refl eq_refl).
    apply own_path_here. }
  split; [exact Hpath|].
  apply (getValueByPath_finds_own_path payload_n1 (int 1) ["a"; "b"]).
  - discriminate.
  - repeat apply List.Forall_cons; try apply List.Forall_nil;
      (split; [discriminate|split; reflexivity]).
  - exact Hpath.
Defined.

(** X3: both resolvers find 1 at [a.b]. *)
Lemma basic_resolver_finds_what_the_richer_finds_witness :
  getValueByPath payload_n1 "a.b" = int 1
  /\ Basic.getValueByPath payload_n1 "a.b" = Ok (Data (int 1)).
Proof.
  split; [reflexivity|].
  apply (basic_resolver_finds_what_the_richer_finds payload_n1 (int 1) "a.b" eq_refl).
  discriminate.
Defined.

(** X5: the operand [10] is the path [10], which the payload does not
    have. *)
Lemma word_operand_is_a_path_witness :
  parse_operand (VObject [("n", int 20)]) " 10 "
  = {| origin := Some ["10"]; val := VUndefined |}.
Proof.
  exact (word_operand_is_a_path (VObject [("n", int 20)]) " 10 "
           ltac:(discriminate) eq_refl).
Defined.

(** X7: a padded path is a path. *)
Lemma expression_without_conditional_is_a_path_witness :
  evaluateExpression " a.b " payload_n1 = int 1.
Proof.
  exact (expression_without_conditional_is_a_path " a.b " payload_n1 (or_introl eq_refl)).
Defined.

(** X8: the second colon belongs to the false branch. *)
Lemma ternary_cut_at_first_marks_witness :
  ternary_match " a ? b : c : d" = Some ("a", "b", "c : d").
Proof.
  apply (ternary_cut_at_first_marks " " "a" " " " " "b" " " " " "c : d" EmptyString);
    try reflexivity; (split; [discriminate|split; reflexivity]).
Defined.

(** X9: the conditional of the README's sound template. *)
Lemma equality_conditional_witness :
  evaluateExpression "build.status === 'SUCCESS' ? 'succeed' : 'warning'"
    (VObject [("build", VObject [("status", VString "SUCCESS")])])
  = VString "succeed".
Proof.
  apply (equality_conditional
           (VObject [("build", VObject [("status", VString "SUCCESS")])])
           "build.status" "SUCCESS" "succeed" "warning" "'" "'" "'");
    reflexivity || discriminate.
Defined.

(** X10: the conditional of the README's icon template is [undefined] for
    a successful build too. *)
Lemma url_literal_in_true_branch_witness :
  evaluateExpression
    "build.status === 'SUCCESS' ? 'https://example.com/success.png' : 'https://example.com/fail.png'"
    (VObject [("build", VObject [("status", VString "SUCCESS")])])
  = VUndefined.
Proof.
  apply (url_literal_in_true_branch
           (VObject [("build", VObject [("status", VString "SUCCESS")])])
           "build.status" "SUCCESS" "https" "example.com/success.png"
           "https://example.com/fail.png" "'" "'" "'");
    reflexivity || discriminate.
Defined.

(** X11: a text with braces and no dollar. *)
Lemma plain_template_is_unchanged_witness :
  replaceTemplateVars "Build {done}" payload_n1 = Ok "Build {done}"
  /\ Basic.replaceTemplateVars "Build {done}" payload_n1 = Ok "Build {done}".
Proof. exact (plain_template_is_unchanged "Build {done}" payload_n1 eq_refl). Defined.

(** X12: a missing path between two texts. *)
Lemma unresolved_placeholder_renders_empty_witness :
  replaceTemplateVars "a-${missing}-b" payload_n1 = Ok "a--b".
Proof.
  exact (unresolved_placeholder_renders_empty payload_n1 "a-" "missing" "-b" "-b"
           eq_refl ltac:(discriminate) eq_refl eq_refl eq_refl).
Defined.

(** X13: the padded path prints nothing for 0, the bare path prints it. *)
Lemma padded_path_prints_truthy_values_only_witness :
  substitute (VObject [("n", int 0)]) " n " = Ok EmptyString
  /\ substitute (VObject [("n", int 0)]) "n" = Ok "0".
Proof.
  split; [|reflexivity].
  exact (padded_path_prints_truthy_values_only (VObject [("n", int 0)]) " n "
           eq_refl eq_refl).
Defined.


(** X15: a payload of numbers and objects renders. *)
Lemma rendering_succeeds_on_printable_payload_witness :
  exists text, replaceTemplateVars "Hi ${a.b}" payload_n1 = Ok text.
Proof.
  exact (proj1 (rendering_succeeds_on_printable_payload payload_n1 eq_refl) "Hi ${a.b}").
Defined.


(** X17: a rule with a group has the keys [title], [body], [group]. *)
Lemma barkParams_keys_depend_on_rule_only_witness :
  barkParams (rule_with (Some "g")) (VObject [("n", int 42)])
  = Ok [("title", "Hi 42"); ("body", "B"); ("group", "g")]
  /\ map fst [("title", "Hi 42"); ("body", "B"); ("group", "g")]
     = ["title"; "body"; "group"].
Proof.
  split; [reflexivity|].
  exact (barkParams_keys_depend_on_rule_only (rule_with (Some "g"))
           (VObject [("n", int 42)])
           [("title", "Hi 42"); ("body", "B"); ("group", "g")] eq_refl).
Defined.

(** X18: a payload text with [&] and [=] stays inside its parameter. *)
Lemma query_holds_the_parameters_only_witness :
  sendToBark_url (rule_with None) (VObject [("n", VString "1&sound=x")])
  = Ok "https://x/y?title=Hi+1%26sound%3Dx&body=B"
  /\ exists params query,
       barkParams (rule_with None) (VObject [("n", VString "1&sound=x")]) = Ok params
       /\ "https://x/y?title=Hi+1%26sound%3Dx&body=B"
          = barkUrl (rule_with None)
              +:+ (if includes (barkUrl (rule_with None)) "?" then "&" else "?")
              +:+ query
       /\ map (fun item => split item "=") (split query "&")
          = map (fun p => [fst p; form_urlencode (snd p)]) params
       /\ Forall (fun p => all_chars form_output (form_urlencode (snd p)) = true) params.
Proof.
  split; [reflexivity|].
  exact (query_holds_the_parameters_only (rule_with None)
           (VObject [("n", VString "1&sound=x")])
           "https://x/y?title=Hi+1%26sound%3Dx&body=B" eq_refl).
Defined.

(** X19: the rule of C1 has the four truthy fields. *)
Lemma post_rules_acceptance_witness :
  status (snd (post_rules ∅ (Some rule_without_templates))) = 200.
Proof.
  exact (proj2 (proj1 (post_rules_acceptance ∅ (Some rule_without_templates)))
           (ex_intro _ rule_without_templates
              (conj eq_refl (conj eq_refl (conj eq_refl (conj eq_refl (conj eq_refl
                 (ex_intro _ "r1" eq_refl)))))))).
Defined.

(** X20: the rule registered on the empty store is deleted once. *)
Lemma registered_rule_is_deleted_once_witness :
  status (snd (delete_rule (fst (post_rules ∅ (Some rule_without_templates))) "r1")) = 200
  /\ fst (delete_rule (fst (post_rules ∅ (Some rule_without_templates))) "r1")
     = delete "rule:r1" ∅.
Proof.
  pose proof (registered_rule_is_deleted_once (parse_known []) ∅
                rule_without_templates "r1" eq_refl eq_refl) as (H1 & H2 & _).
  exact (conj H1 H2).
Defined.

(** X21: a second registration under [r1] replaces the first. *)
Lemma registration_replaces_same_id_witness :
  fst (post_rules (fst (post_rules ∅ (Some rule_without_templates)))
         (Some (rule_value (rule_with None))))
  = fst (post_rules ∅ (Some (rule_value (rule_with None)))).
Proof.
  exact (registration_replaces_same_id ∅ rule_without_templates
           (rule_value (rule_with None)) eq_refl eq_refl).
Defined.

(** X22: registering or deleting [r1] leaves the entry of [r2] alone. *)
Lemma handlers_touch_one_key_witness :
  fst (post_rules store_with_rule (Some rule_without_templates)) !! "rule:r2"
  = store_with_rule !! "rule:r2"
  /\ fst (delete_rule store_with_rule "r1") !! "rule:r2" = store_with_rule !! "rule:r2".
Proof.
  destruct (handlers_touch_one_key store_with_rule "rule:r2") as [Hpost Hdelete].
  split.
  - apply Hpost. intros id [= <-]. discriminate.
  - apply Hdelete. discriminate.
Defined.



(** X25: a push that reports success has sent its request. *)
Lemma push_succeeds_only_after_ok_witness :
  exists url answer,
    push_request (parse_known [rule_value (rule_with None)]) store_with_rule
      (Some push_body) None = inr url
    /\ bark_ok url = Ok answer
    /\ ok answer = true.
Proof.
  exact (proj1 (proj1 (push_succeeds_only_after_ok
                         (parse_known [rule_value (rule_with None)])
                         bark_ok store_with_rule (Some push_body) None))
           eq_refl).
Defined.
